(** * LinDB: the time-series delta codec and the memory database

    A shallow embedding of [pkg/encoding/tsd.go] and
    [tsdb/memdb/database.go].  Unsigned Go integers are integers of [Z]
    with their wrap-around written out, byte slices are [list Z], a nil
    slice or nil error is [None], and every method takes the receiver's
    state and returns the new one. *)

From Stdlib Require Import ZArith List Bool Lia String Floats.
From stdpp Require Import base option list gmap.
Import ListNotations.
Local Open Scope Z_scope.

(** Go's [error] values; only their identity matters. *)
Definition error := string.

(** [uint16] and [uint64] arithmetic wraps. *)
Definition u16 (x : Z) : Z := x mod 65536.
Definition u64 (x : Z) : Z := x mod 2 ^ 64.

Definition is_u16 (x : Z) : Prop := 0 <= x < 65536.
Definition is_u64 (x : Z) : Prop := 0 <= x < 2 ^ 64.

(** [bits_msb u n]: the low [n] bits of [u], most significant first. *)
Fixpoint bits_msb (u : Z) (n : nat) : list bool :=
  match n with
  | O => []
  | S k => Z.testbit u (Z.of_nat k) :: bits_msb u k
  end.

(** The eight bits of a byte, most significant first. *)
Definition byte_bits (x : Z) : list bool := bits_msb x 8.

(** ** pkg/bit *)

Module bit.

(** [bit.Bit]: [Zero] is [false], [One] is [true]. *)
Definition Bit := bool.
Definition Zero : Bit := false.
Definition One : Bit := true.

(** Modelled from the spec: [bit.Writer] is not among the sources.  The
    spec has the encoder append single bits to a bit-packed stream with
    byte-alignment padding only at the end.  The writer packs bits into
    the byte [b], most significant first; [count] is the number of free
    bits left in [b]; a full byte goes to the underlying [bytes.Buffer].
    The [tsdEncoder] hands the writer a pointer to its [bitBuffer]; the
    model keeps the contents of that buffer in [buf], so there is one
    copy of it.  Writing to a [bytes.Buffer] does not fail. *)
Record Writer := mkWriter { buf : list Z; b : Z; count : Z }.

(** Modelled from the spec: [bit.NewWriter], an empty stream. *)
Definition NewWriter : Writer := {| buf := []; b := 0; count := 8 |}.

(** Modelled from the spec: [bitBuffer.Reset()] followed by
    [bitWriter.Reset(&bitBuffer)], after which the stream is empty. *)
Definition ResetWriter (w : Writer) : Writer := NewWriter.

(** Modelled from the spec: [Writer.WriteBit] sets the next free bit of
    [b] and moves a full byte to the buffer. *)
Definition WriteBit (w : Writer) (x : Bit) : Writer * option error :=
  let b1 := if x then Z.lor (b w) (Z.shiftl 1 (count w - 1)) else b w in
  let c1 := count w - 1 in
  if c1 =? 0
  then ({| buf := buf w ++ [b1]; b := 0; count := 8 |}, None)
  else ({| buf := buf w; b := b1; count := c1 |}, None).

(** Sequencing of writes: the first error stops the rest. *)
Definition andThen (r : Writer * option error)
  (k : Writer -> Writer * option error) : Writer * option error :=
  match r with
  | (w, None) => k w
  | (w, Some e) => (w, Some e)
  end.

(** Modelled from the spec: [Writer.WriteBits u numBits] writes the low
    [numBits] bits of [u], most significant first. *)
Fixpoint WriteBits (w : Writer) (u : Z) (numBits : nat)
  : Writer * option error :=
  match numBits with
  | O => (w, None)
  | S k => andThen (WriteBit w (Z.testbit u (Z.of_nat k)))
             (fun w1 => WriteBits w1 u k)
  end.

(** Modelled from the spec: [Writer.Flush] writes the byte in progress,
    whose free bits are zero, to the buffer.  The spec says no more of
    it than that it flushes the bit writer: the byte in progress and the
    number of its free bits are left as they are. *)
Definition Flush (w : Writer) : Writer * option error :=
  if count w =? 8 then (w, None)
  else ({| buf := buf w ++ [b w]; b := b w; count := count w |}, None).

(** Modelled from the spec: [bufioutil.Buffer] is not among the sources.
    A byte slice with a read position. *)
Record Buffer := mkBuffer { bytes : list Z; pos : nat }.

(** Modelled from the spec: [NewBuffer], [SetBuf] and [SetIdx] of
    [bufioutil.Buffer]. *)
Definition NewBuffer (data : list Z) : Buffer := {| bytes := data; pos := 0 |}.
Definition SetBuf (bf : Buffer) (data : list Z) : Buffer :=
  {| bytes := data; pos := 0 |}.
Definition SetIdx (bf : Buffer) (i : nat) : Buffer :=
  {| bytes := bytes bf; pos := i |}.

(** Modelled from the spec: the error [Buffer.GetByte] returns at the
    end of the slice.  The spec does not name it; the decoder only
    stores it. *)
Definition errOutOfRange : error := "index out of range"%string.

(** Modelled from the spec: [Buffer.GetByte] returns the next byte, or
    an error at the end of the slice. *)
Definition GetByte (bf : Buffer) : Buffer * (Z + error) :=
  match nth_error (bytes bf) (pos bf) with
  | Some x => ({| bytes := bytes bf; pos := S (pos bf) |}, inl x)
  | None => (bf, inr errOutOfRange)
  end.

(** Modelled from the spec: [bit.Reader] is not among the sources.  It
    reads the bits of the buffer's bytes, most significant first: [rb]
    is the byte in progress and [rcount] the number of its bits not yet
    read.  The [TSDDecoder]'s [buf] field and the reader's buffer are
    the same object; the model keeps it in [rbuf]. *)
Record Reader := mkReader { rbuf : Buffer; rb : Z; rcount : Z }.

(** Modelled from the spec: [bit.NewReader] and [Reader.Reset], with no
    byte in progress. *)
Definition NewReader (bf : Buffer) : Reader :=
  {| rbuf := bf; rb := 0; rcount := 0 |}.

Definition ResetReader (r : Reader) : Reader :=
  {| rbuf := rbuf r; rb := 0; rcount := 0 |}.

(** Modelled from the spec: [Reader.ReadBit] takes the next bit, and
    first the next byte when none is in progress. *)
Definition ReadBit (r : Reader) : Reader * (Bit + error) :=
  if rcount r =? 0 then
    match GetByte (rbuf r) with
    | (bf, inl x) =>
        ({| rbuf := bf; rb := x; rcount := 7 |}, inl (Z.testbit x 7))
    | (bf, inr e) => ({| rbuf := bf; rb := rb r; rcount := 0 |}, inr e)
    end
  else
    ({| rbuf := rbuf r; rb := rb r; rcount := rcount r - 1 |},
     inl (Z.testbit (rb r) (rcount r - 1))).

(** Modelled from the spec: [Reader.ReadBits numBits] reads [numBits]
    bits, most significant first; [acc] holds the bits read so far. *)
Fixpoint ReadBitsFrom (r : Reader) (acc : Z) (numBits : nat)
  : Reader * (Z + error) :=
  match numBits with
  | O => (r, inl acc)
  | S k =>
      match ReadBit r with
      | (r1, inl x) => ReadBitsFrom r1 (2 * acc + Z.b2z x) k
      | (r1, inr e) => (r1, inr e)
      end
  end.

Definition ReadBits (r : Reader) (numBits : nat) : Reader * (Z + error) :=
  ReadBitsFrom r 0 numBits.

(** The bits a writer has accepted so far: those of the bytes in the
    buffer, then the ones held in the byte in progress. *)
Definition written (w : Writer) : list bool :=
  flat_map byte_bits (buf w)
  ++ firstn (Z.to_nat (8 - count w)) (byte_bits (b w)).

(** The bits a reader has still to deliver. *)
Definition remaining (r : Reader) : list bool :=
  bits_msb (rb r) (Z.to_nat (rcount r))
  ++ flat_map byte_bits (skipn (pos (rbuf r)) (bytes (rbuf r))).

(** A writer between two calls: one to eight free bits, all zero. *)
Definition WriterOk (w : Writer) : Prop :=
  1 <= count w <= 8 /\
  forall i, 0 <= i < count w -> Z.testbit (b w) i = false.

Definition ReaderOk (r : Reader) : Prop := 0 <= rcount r <= 8.

End bit.

(** ** pkg/stream and encoding/binary *)

Module stream.

(** Modelled from the spec: [stream.BufferWriter] is not among the
    sources.  It appends to a [bytes.Buffer]; the spec fixes the header
    fields as uint16 little-endian. *)
Definition BufferWriter := list Z.

(** Modelled from the spec: [NewBufferWriter], [PutUInt16] (low byte
    first), [PutBytes] and [Bytes] of [stream.BufferWriter]. *)
Definition NewBufferWriter : BufferWriter := [].

Definition PutUInt16 (w : BufferWriter) (v : Z) : BufferWriter :=
  w ++ [Z.land v 255; Z.land (Z.shiftr v 8) 255].

Definition PutBytes (w : BufferWriter) (p : list Z) : BufferWriter := w ++ p.

Definition Bytes (w : BufferWriter) : option (list Z) * option error :=
  (Some w, None).

(** [binary.LittleEndian.Uint16] of the two-byte slice that starts at
    [i]. *)
Definition Uint16 (data : list Z) (i : nat) : Z :=
  Z.lor (nth i data 0) (Z.shiftl (nth (S i) data 0) 8).

End stream.

(** ** pkg/encoding *)

Module encoding.

(** [bits.LeadingZeros64] and [bits.TrailingZeros64] of Go's
    [math/bits]. *)
Definition LeadingZeros64 (x : Z) : Z :=
  if x =? 0 then 64 else 63 - Z.log2 x.

Fixpoint ntz (fuel : nat) (x : Z) : Z :=
  match fuel with
  | O => 0
  | S k => if Z.odd x then 0 else 1 + ntz k (Z.div2 x)
  end.

Definition TrailingZeros64 (x : Z) : Z :=
  if x =? 0 then 64 else ntz 64 x.

(** Modelled from the spec: [XOREncoder] is not among the sources.  The
    first value is stored verbatim in 64 bits.  Every later value is
    XORed with the previous one: a zero result is the single bit 0; any
    other result is the bit 1 followed by its meaningful bits, either
    inside the previous window of leading and trailing zeros (control
    bit 0) or with a new window (control bit 1, the number of leading
    zeros in 6 bits, the block size minus one in 6 bits).  [leading = 64]
    says that no window has been written yet.  The encoder writes
    through the [bit.Writer] of the [tsdEncoder], which is passed
    explicitly. *)
Record XOREncoder := mkXOREncoder {
  first : bool;
  previousVal : Z;
  leading : Z;
  trailing : Z
}.

(** Modelled from the spec: [NewXOREncoder] and [XOREncoder.Reset]. *)
Definition NewXOREncoder : XOREncoder :=
  {| first := true; previousVal := 0; leading := 64; trailing := 0 |}.

Definition ResetXOREncoder (x : XOREncoder) : XOREncoder := NewXOREncoder.

(** Modelled from the spec: [XOREncoder.Write]. *)
Definition XORWrite (x : XOREncoder) (w : bit.Writer) (val : Z)
  : XOREncoder * (bit.Writer * option error) :=
  if first x then
    ({| first := false; previousVal := val;
        leading := leading x; trailing := trailing x |},
     bit.WriteBits w val 64)
  else
    let delta := Z.lxor val (previousVal x) in
    if delta =? 0 then
      ({| first := false; previousVal := val;
          leading := leading x; trailing := trailing x |},
       bit.WriteBit w bit.Zero)
    else
      let lead := LeadingZeros64 delta in
      let trail := TrailingZeros64 delta in
      if (leading x <=? lead) && (trailing x <=? trail) then
        ({| first := false; previousVal := val;
            leading := leading x; trailing := trailing x |},
         bit.andThen (bit.WriteBit w bit.One) (fun w1 =>
         bit.andThen (bit.WriteBit w1 bit.Zero) (fun w2 =>
         bit.WriteBits w2 (Z.shiftr delta (trailing x))
           (Z.to_nat (64 - leading x - trailing x)))))
      else
        let blockSize := 64 - lead - trail in
        ({| first := false; previousVal := val;
            leading := lead; trailing := trail |},
         bit.andThen (bit.WriteBit w bit.One) (fun w1 =>
         bit.andThen (bit.WriteBit w1 bit.One) (fun w2 =>
         bit.andThen (bit.WriteBits w2 lead 6) (fun w3 =>
         bit.andThen (bit.WriteBits w3 (blockSize - 1) 6) (fun w4 =>
         bit.WriteBits w4 (Z.shiftr delta trail) (Z.to_nat blockSize)))))).

(** Modelled from the spec: [XORDecoder] is not among the sources.  It
    reads back what [XOREncoder] writes; [Next] is false when the
    stream is exhausted.  The decoder reads through the [bit.Reader] of
    the [TSDDecoder], which is passed explicitly. *)
Record XORDecoder := mkXORDecoder {
  dfirst : bool;
  val : Z;
  dleading : Z;
  dtrailing : Z
}.

(** Modelled from the spec: [NewXORDecoder] and [XORDecoder.Reset]. *)
Definition NewXORDecoder : XORDecoder :=
  {| dfirst := true; val := 0; dleading := 0; dtrailing := 0 |}.

Definition ResetXORDecoder (x : XORDecoder) : XORDecoder := NewXORDecoder.

(** Modelled from the spec: the end of [XORDecoder.Next], which reads
    the meaningful bits of a block and puts them back at their place. *)
Definition readBlock (x : XORDecoder) (r : bit.Reader) (lead trail : Z)
  : bool * XORDecoder * bit.Reader :=
  match bit.ReadBits r (Z.to_nat (64 - lead - trail)) with
  | (r1, inl bits) =>
      (true,
       {| dfirst := false;
          val := Z.lxor (val x) (u64 (Z.shiftl bits trail));
          dleading := lead; dtrailing := trail |},
       r1)
  | (r1, inr _) => (false, x, r1)
  end.

(** Modelled from the spec: [XORDecoder.Next] and [XORDecoder.Value]. *)
Definition XORNext (x : XORDecoder) (r : bit.Reader)
  : bool * XORDecoder * bit.Reader :=
  if dfirst x then
    match bit.ReadBits r 64 with
    | (r1, inl v) =>
        (true, {| dfirst := false; val := v;
                  dleading := dleading x; dtrailing := dtrailing x |}, r1)
    | (r1, inr _) => (false, x, r1)
    end
  else
    match bit.ReadBit r with
    | (r1, inr _) => (false, x, r1)
    | (r1, inl false) => (true, x, r1)
    | (r1, inl true) =>
        match bit.ReadBit r1 with
        | (r2, inr _) => (false, x, r2)
        | (r2, inl false) => readBlock x r2 (dleading x) (dtrailing x)
        | (r2, inl true) =>
            match bit.ReadBits r2 6 with
            | (r3, inr _) => (false, x, r3)
            | (r3, inl lead) =>
                match bit.ReadBits r3 6 with
                | (r4, inr _) => (false, x, r4)
                | (r4, inl sz) =>
                    readBlock x r4 lead (64 - lead - (sz + 1))
                end
            end
        end
    end.

Definition XORValue (x : XORDecoder) : Z := val x.

(** *** tsd.go *)

(** [tsdEncoder].  [bitBuffer] is the [bit.buf] of [bitWriter]. *)
Record tsdEncoder := mkTsdEncoder {
  startTime : Z;
  bitWriter : bit.Writer;
  values : XOREncoder;
  count : Z;
  err : option error
}.

Definition bitBuffer (e : tsdEncoder) : list Z := bit.buf (bitWriter e).

Definition NewTSDEncoder (startTime : Z) : tsdEncoder :=
  {| startTime := startTime;
     bitWriter := bit.NewWriter;
     values := NewXOREncoder;
     count := 0;
     err := None |}.

Definition Reset (e : tsdEncoder) : tsdEncoder :=
  {| startTime := startTime e;
     bitWriter := bit.ResetWriter (bitWriter e);
     values := ResetXOREncoder (values e);
     count := count e;
     err := err e |}.

Definition AppendTime (e : tsdEncoder) (slot : bit.Bit) : tsdEncoder :=
  match err e with
  | Some _ => e
  | None =>
      let (w, er) := bit.WriteBit (bitWriter e) slot in
      {| startTime := startTime e;
         bitWriter := w;
         values := values e;
         count := u16 (count e + 1);
         err := er |}
  end.

Definition AppendValue (e : tsdEncoder) (value : Z) : tsdEncoder :=
  match err e with
  | Some _ => e
  | None =>
      let '(x, (w, er)) := XORWrite (values e) (bitWriter e) value in
      {| startTime := startTime e;
         bitWriter := w;
         values := x;
         count := count e;
         err := er |}
  end.

Definition flush (writer : bit.Writer) : bit.Writer * option error :=
  bit.Flush writer.

(** The package variable [flushFunc], at its initial value. *)
Definition flushFunc := flush.

Definition withWriter (e : tsdEncoder) (w : bit.Writer) : tsdEncoder :=
  {| startTime := startTime e;
     bitWriter := w;
     values := values e;
     count := count e;
     err := err e |}.

(** [Bytes] returns the block and the error, and the encoder as the
    flush left it. *)
Definition Bytes (e : tsdEncoder)
  : (option (list Z) * option error) * tsdEncoder :=
  match err e with
  | Some er => ((None, Some er), e)
  | None =>
      match flushFunc (bitWriter e) with
      | (w, Some er) => ((None, Some er), withWriter e w)
      | (w, None) =>
          if count e =? 0 then ((None, None), withWriter e w)
          else
            let writer := stream.NewBufferWriter in
            let writer := stream.PutUInt16 writer (startTime e) in
            let writer :=
              stream.PutUInt16 writer (u16 (startTime e + count e - 1)) in
            let writer := stream.PutBytes writer (bit.buf w) in
            (stream.Bytes writer, withWriter e w)
      end
  end.

(** [BytesWithoutTime]; the buffer's bytes come as a slice that may be
    empty. *)
Definition BytesWithoutTime (e : tsdEncoder)
  : (option (list Z) * option error) * tsdEncoder :=
  match err e with
  | Some er => ((None, Some er), e)
  | None =>
      match flushFunc (bitWriter e) with
      | (w, Some er) => ((None, Some er), withWriter e w)
      | (w, None) => ((Some (bit.buf w), None), withWriter e w)
      end
  end.

(** [TSDDecoder].  [reset] allocates [buf], [reader] and [values]
    together, so the three are nil together: [streams] is [None] then,
    and otherwise holds the reader (with the buffer it reads) and the
    value decoder. *)
Record TSDDecoder := mkTSDDecoder {
  dstartTime : Z;
  dendTime : Z;
  streams : option (bit.Reader * XORDecoder);
  idx : Z;
  derr : option error
}.

(** The zero value [&TSDDecoder{}]. *)
Definition zeroDecoder : TSDDecoder :=
  {| dstartTime := 0; dendTime := 0; streams := None; idx := 0;
     derr := None |}.

(** The unexported [reset]. *)
Definition reset (d : TSDDecoder) (data : list Z) : TSDDecoder :=
  {| dstartTime := dstartTime d;
     dendTime := dendTime d;
     streams :=
       match streams d with
       | None =>
           Some (bit.NewReader (bit.NewBuffer data), NewXORDecoder)
       | Some (r, x) =>
           Some ({| bit.rbuf := bit.SetBuf (bit.rbuf r) data;
                    bit.rb := bit.rb r;
                    bit.rcount := bit.rcount r |},
                 ResetXORDecoder x)
       end;
     idx := 0;
     derr := None |}.

Definition mapReader (f : bit.Reader -> bit.Reader)
  (s : option (bit.Reader * XORDecoder)) : option (bit.Reader * XORDecoder) :=
  match s with
  | Some (r, x) => Some (f r, x)
  | None => None
  end.

Definition ResetDecoder (d : TSDDecoder) (data : list Z) : TSDDecoder :=
  if (length data <=? 4)%nat then
    {| dstartTime := dstartTime d;
       dendTime := dendTime d;
       streams := streams d;
       idx := idx d;
       derr := Some "TSDDecoder resets with bad data"%string |}
  else
    let d1 := reset d data in
    {| dstartTime := stream.Uint16 data 0;
       dendTime := stream.Uint16 data 2;
       streams :=
         mapReader
           (fun r => bit.ResetReader
              {| bit.rbuf := bit.SetIdx (bit.rbuf r) 4;
                 bit.rb := bit.rb r;
                 bit.rcount := bit.rcount r |})
           (streams d1);
       idx := idx d1;
       derr := derr d1 |}.

Definition ResetWithTimeRange (d : TSDDecoder) (data : list Z)
  (start end_ : Z) : TSDDecoder :=
  let d1 := reset d data in
  {| dstartTime := start;
     dendTime := end_;
     streams := mapReader bit.ResetReader (streams d1);
     idx := idx d1;
     derr := derr d1 |}.

Definition NewTSDDecoder (data : list Z) : TSDDecoder :=
  if (4 <? length data)%nat then ResetDecoder zeroDecoder data
  else zeroDecoder.

Definition Error (d : TSDDecoder) : option error := derr d.
Definition StartTime (d : TSDDecoder) : Z := dstartTime d.
Definition EndTime (d : TSDDecoder) : Z := dendTime d.

Definition withIdx (d : TSDDecoder) (i : Z) : TSDDecoder :=
  {| dstartTime := dstartTime d;
     dendTime := dendTime d;
     streams := streams d;
     idx := i;
     derr := derr d |}.

Definition Next (d : TSDDecoder) : bool * TSDDecoder :=
  if u16 (dstartTime d + idx d) <=? dendTime d
  then (true, withIdx d (u16 (idx d + 1)))
  else (false, d).

Definition HasValue (d : TSDDecoder) : bool * TSDDecoder :=
  match streams d with
  | None => (false, d)
  | Some (r, x) =>
      match bit.ReadBit r with
      | (r1, inr e) =>
          (false,
           {| dstartTime := dstartTime d; dendTime := dendTime d;
              streams := Some (r1, x); idx := idx d; derr := Some e |})
      | (r1, inl v) =>
          (v,
           {| dstartTime := dstartTime d; dendTime := dendTime d;
              streams := Some (r1, x); idx := idx d; derr := derr d |})
      end
  end.

Definition HasValueWithSlot (d : TSDDecoder) (slot : Z) : bool * TSDDecoder :=
  if (slot <? dstartTime d) || (dendTime d <? slot) then (false, d)
  else if slot =? u16 (idx d + dstartTime d)
       then HasValue (withIdx d (u16 (idx d + 1)))
       else (false, d).

Definition Slot (d : TSDDecoder) : Z := u16 (dstartTime d + idx d - 1).

Definition Value (d : TSDDecoder) : Z * TSDDecoder :=
  match streams d with
  | None => (0, d)
  | Some (r, x) =>
      let '(ok, x1, r1) := XORNext x r in
      let d1 :=
        {| dstartTime := dstartTime d; dendTime := dendTime d;
           streams := Some (r1, x1); idx := idx d; derr := derr d |} in
      if ok then (XORValue x1, d1) else (0, d1)
  end.

Definition DecodeTSDTime (data : list Z) : Z * Z :=
  (stream.Uint16 data 0, stream.Uint16 data 2).

(** *** Driving the codec *)

(** One time slot as the caller feeds it: [AppendTime], and
    [AppendValue] when the slot has a value. *)
Definition appendSlot (e : tsdEncoder) (s : option Z) : tsdEncoder :=
  match s with
  | Some v => AppendValue (AppendTime e bit.One) v
  | None => AppendTime e bit.Zero
  end.

Definition encodeSlots (e : tsdEncoder) (l : list (option Z)) : tsdEncoder :=
  fold_left appendSlot l e.

(** The caller's loop [for d.Next() { if d.HasValue() { d.Value() } }],
    collecting what it sees; [None] when [fuel] iterations were not
    enough to see [Next] return false. *)
Fixpoint decodeSlots (fuel : nat) (d : TSDDecoder)
  : option (list (option Z)) :=
  match fuel with
  | O => None
  | S k =>
      let (more, d1) := Next d in
      if more then
        let (has, d2) := HasValue d1 in
        if has then
          let (v, d3) := Value d2 in
          option_map (cons (Some v)) (decodeSlots k d3)
        else option_map (cons None) (decodeSlots k d2)
      else Some []
  end.

(** The calls an encoder can receive. *)
Inductive call :=
| CallAppendTime (slot : bit.Bit)
| CallAppendValue (value : Z)
| CallReset.

Definition perform (e : tsdEncoder) (c : call) : tsdEncoder :=
  match c with
  | CallAppendTime slot => AppendTime e slot
  | CallAppendValue value => AppendValue e value
  | CallReset => Reset e
  end.

Definition performAll (e : tsdEncoder) (cs : list call) : tsdEncoder :=
  fold_left perform cs e.

Definition isAppendTime (c : call) : bool :=
  match c with CallAppendTime _ => true | _ => false end.

Definition isReset (c : call) : bool :=
  match c with CallReset => true | _ => false end.

(** How many [AppendTime] calls a sequence holds. *)
Definition timeCalls (cs : list call) : nat :=
  length (List.filter isAppendTime cs).

(** The bits [XORWrite] emits for [v], as a function of the encoder. *)
Definition xorBits (x : XOREncoder) (v : Z) : list bool :=
  if first x then bits_msb v 64
  else
    let delta := Z.lxor v (previousVal x) in
    if delta =? 0 then [false]
    else
      let lead := LeadingZeros64 delta in
      let trail := TrailingZeros64 delta in
      if (leading x <=? lead) && (trailing x <=? trail) then
        true :: false ::
          bits_msb (Z.shiftr delta (trailing x))
            (Z.to_nat (64 - leading x - trailing x))
      else
        true :: true :: bits_msb lead 6
          ++ bits_msb (64 - lead - trail - 1) 6
          ++ bits_msb (Z.shiftr delta trail) (Z.to_nat (64 - lead - trail)).

(** The encoder [XORWrite] leaves behind. *)
Definition xorStep (x : XOREncoder) (v : Z) : XOREncoder :=
  fst (XORWrite x bit.NewWriter v).

(** The bits a run of slots adds to the stream. *)
Fixpoint slotBits (x : XOREncoder) (l : list (option Z)) : list bool :=
  match l with
  | [] => []
  | None :: l' => false :: slotBits x l'
  | Some v :: l' => true :: xorBits x v ++ slotBits (xorStep x v) l'
  end.

(** An encoder and a decoder at the same place of a value stream. *)
Definition xorWindowOk (x : XOREncoder) : Prop :=
  leading x = 64 \/
  (0 <= leading x /\ 0 <= trailing x /\ leading x + trailing x <= 63).

Definition xorInSync (x : XOREncoder) (d : XORDecoder) : Prop :=
  first x = dfirst d /\
  (first x = false -> previousVal x = val d /\ is_u64 (val d)) /\
  xorWindowOk x /\
  (leading x <> 64 -> leading x = dleading d /\ trailing x = dtrailing d).

(** What holds of an encoder that works: no error, a writer between
    calls, a counter in range. *)
Definition encoderOk (e : tsdEncoder) : Prop :=
  err e = None /\ bit.WriterOk (bitWriter e) /\ is_u16 (count e).

(** The values of a run of slots are 64-bit. *)
Definition slotsOk (l : list (option Z)) : Prop :=
  Forall (fun s => match s with Some v => is_u64 v | None => True end) l.

(** The calls a decoder can receive between two resets. *)
Inductive dcall :=
| CallNext
| CallHasValue
| CallValue
| CallHasValueWithSlot (slot : Z).

Definition dperform (d : TSDDecoder) (c : dcall) : TSDDecoder :=
  match c with
  | CallNext => snd (Next d)
  | CallHasValue => snd (HasValue d)
  | CallValue => snd (Value d)
  | CallHasValueWithSlot slot => snd (HasValueWithSlot d slot)
  end.

Definition dperformAll (d : TSDDecoder) (cs : list dcall) : TSDDecoder :=
  fold_left dperform cs d.

(** The caller's loop of [decodeSlots], which also hands back the
    decoder as the loop leaves it. *)
Fixpoint decodeRun (fuel : nat) (d : TSDDecoder)
  : option (list (option Z) * TSDDecoder) :=
  match fuel with
  | O => None
  | S k =>
      let (more, d1) := Next d in
      if more then
        let (has, d2) := HasValue d1 in
        if has then
          let (v, d3) := Value d2 in
          match decodeRun k d3 with
          | Some (l, d4) => Some (Some v :: l, d4)
          | None => None
          end
        else
          match decodeRun k d2 with
          | Some (l, d4) => Some (None :: l, d4)
          | None => None
          end
      else Some ([], d1)
  end.

(** A caller that asks slot by slot: [HasValueWithSlot], then [Value]
    when the slot has one. *)
Fixpoint decodeBySlot (d : TSDDecoder) (slots : list Z)
  : list (option Z) * TSDDecoder :=
  match slots with
  | [] => ([], d)
  | slot :: rest =>
      let (has, d1) := HasValueWithSlot d slot in
      if has then
        let (v, d2) := Value d1 in
        let (l, d3) := decodeBySlot d2 rest in
        (Some v :: l, d3)
      else
        let (l, d3) := decodeBySlot d1 rest in
        (None :: l, d3)
  end.

(** The [n] slots from [a] on. *)
Fixpoint slotsFrom (a : Z) (n : nat) : list Z :=
  match n with
  | O => []
  | S k => a :: slotsFrom (a + 1) k
  end.

End encoding.

(** ** series/field and the metric protocol *)

Module field.

(** [field.ID] and [field.Type]. *)
Definition ID := Z.

Inductive Type_ :=
| SumField
| MinField
| MaxField
| GaugeField
| HistogramField.

End field.

Module protoMetricsV1.

Inductive SimpleFieldType :=
| SIMPLE_UNSPECIFIED
| DELTA_SUM
| CUMULATIVE_SUM
| GAUGE.

Record SimpleField := mkSimpleField {
  Name : string;
  Type_ : SimpleFieldType;
  Value : float
}.

Record CompoundField := mkCompoundField {
  Min : float;
  Max : float;
  Sum : float;
  Count : float;
  Values : list float;
  ExplicitBounds : list float
}.

(** [SimpleFields] and the [CompoundField] pointer of a [Metric]. *)
Record Metric := mkMetric {
  SimpleFields : list SimpleField;
  Compound : option CompoundField
}.

End protoMetricsV1.

(** ** tsdb/memdb *)

Module memdb.

(** How a call ends: it returns nil, it returns an error, or an index
    out of range or a nil pointer makes it panic. *)
Inductive outcome :=
| Done
| Failed (e : error)
| Panicked.

(** One [fStore.Write] call: the field store's id and the arguments. *)
Record fieldWrite := mkFieldWrite {
  fwField : field.ID;
  fwType : field.Type_;
  fwSlot : Z;
  fwValue : float
}.

(** Modelled from the spec: the field store is not among the sources.
    It owns a page and keeps what was written to it, oldest first: the
    field type, the slot and the value of every write. *)
Record fieldStore := mkFieldStore {
  fsPage : nat;
  fsFieldID : field.ID;
  fsData : list (field.Type_ * Z * float)
}.

(** Modelled from the spec: [newFieldStore], an empty field store on a
    page. *)
Definition newFieldStore (page : nat) (fieldID : field.ID) : fieldStore :=
  {| fsPage := page; fsFieldID := fieldID; fsData := [] |}.

(** Modelled from the spec: the sizes the stores report, which the
    database only adds up. *)
Class StoreSizes := {
  emptyMStoreSize : Z;
  emptyTStoreSize : Z;
  insertFStoreSize : Z;
  fieldWriteSize : field.Type_ -> Z -> float -> Z
}.

(** Modelled from the spec: the series store, field id to field store. *)
Record tStore := mkTStore { fStores : gmap Z fieldStore }.

(** Modelled from the spec: the empty series store, [GetFStore] and
    [InsertFStore]. *)
Definition newTimeSeriesStore : tStore := {| fStores := ∅ |}.

Definition GetFStore (t : tStore) (fieldID : field.ID) : option fieldStore :=
  fStores t !! fieldID.

Definition putFStore (t : tStore) (f : fieldStore) : tStore :=
  {| fStores := <[fsFieldID f := f]> (fStores t) |}.

Definition InsertFStore `{StoreSizes} (t : tStore) (f : fieldStore)
  : tStore * Z :=
  (putFStore t f, insertFStoreSize).

(** Modelled from the spec: [fStore.Write] gives the field store with
    the value added, and the size written. *)
Definition fStoreWrite `{StoreSizes} (f : fieldStore) (fieldType : field.Type_)
  (slotIndex : Z) (fieldValue : float) : fieldStore * Z :=
  ({| fsPage := fsPage f; fsFieldID := fsFieldID f;
      fsData := fsData f ++ [(fieldType, slotIndex, fieldValue)] |},
   fieldWriteSize fieldType slotIndex fieldValue).

(** Modelled from the spec: the metric store, with its series stores,
    the fields it knows and the slots that have data. *)
Record mStore := mkMStore {
  tStores : gmap Z tStore;
  fields : list (field.ID * field.Type_);
  slots : gset Z
}.

(** Modelled from the spec: [newMetricStore], the empty metric store. *)
Definition newMetricStore : mStore :=
  {| tStores := ∅; fields := []; slots := ∅ |}.

(** Modelled from the spec: [GetOrCreateTStore] returns the series store
    and the size of what it created.  The series store the Go method returns is a pointer into
    the metric store: [putTStore] is where the model writes it back. *)
Definition GetOrCreateTStore `{StoreSizes} (m : mStore) (seriesID : Z)
  : tStore * Z :=
  match tStores m !! seriesID with
  | Some t => (t, 0)
  | None => (newTimeSeriesStore, emptyTStoreSize)
  end.

Definition putTStore (m : mStore) (seriesID : Z) (t : tStore) : mStore :=
  {| tStores := <[seriesID := t]> (tStores m);
     fields := fields m; slots := slots m |}.

(** Modelled from the spec: [AddField] records a field the metric store
    does not know yet; [SetSlot] marks a slot. *)
Definition hasField (m : mStore) (fieldID : field.ID) : bool :=
  existsb (fun p => fst p =? fieldID) (fields m).

Definition AddField (m : mStore) (fieldID : field.ID)
  (fieldType : field.Type_) : mStore :=
  if hasField m fieldID then m
  else {| tStores := tStores m;
          fields := fields m ++ [(fieldID, fieldType)];
          slots := slots m |}.

Definition SetSlot (m : mStore) (slot : Z) : mStore :=
  {| tStores := tStores m; fields := fields m;
     slots := {[slot]} ∪ slots m |}.

(** Modelled from the spec: [MetricBucketStore], metric id to metric
    store, in the order [WalkEntry] visits. *)
Definition MetricBucketStore := list (Z * mStore).

(** Modelled from the spec: [NewMetricBucketStore], [Get] and [Put]. *)
Definition NewMetricBucketStore : MetricBucketStore := [].

Fixpoint Get (s : MetricBucketStore) (metricID : Z) : option mStore :=
  match s with
  | [] => None
  | (k, m) :: s' => if k =? metricID then Some m else Get s' metricID
  end.

Fixpoint Put (s : MetricBucketStore) (metricID : Z) (m : mStore)
  : MetricBucketStore :=
  match s with
  | [] => [(metricID, m)]
  | (k, m0) :: s' =>
      if k =? metricID then (k, m) :: s' else (k, m0) :: Put s' metricID m
  end.

(** Modelled from the spec: [WalkEntry] visits every pair and stops at
    the first error the visitor returns.  The visitor works on a state
    [S]. *)
Fixpoint WalkEntry {S : Type} (s : MetricBucketStore)
  (visit : Z -> mStore -> S -> S * option error) (st : S)
  : S * option error :=
  match s with
  | [] => (st, None)
  | (k, m) :: s' =>
      match visit k m st with
      | (st1, Some e) => (st1, Some e)
      | (st1, None) => WalkEntry s' visit st1
      end
  end.

(** Modelled from the spec: [DataPointBuffer], a bounded pool of pages.
    [AllocPage] fails when none is left. *)
Record DataPointBuffer := mkDataPointBuffer {
  pagesLeft : nat;
  pagesUsed : nat
}.

(** Modelled from the spec: the error of [AllocPage], and [AllocPage]. *)
Definition errNoPage : error := "no page left"%string.

Definition AllocPage (bf : DataPointBuffer) : DataPointBuffer * (nat + error) :=
  match pagesLeft bf with
  | O => (bf, inr errNoPage)
  | S n => ({| pagesLeft := n; pagesUsed := S (pagesUsed bf) |},
            inl (pagesUsed bf))
  end.

(** The two counters of [memoryDBMetrics]. *)
Record memoryDBMetrics := mkMemoryDBMetrics {
  allocatedPages : nat;
  allocatedPageFailures : nat
}.

(** [memoryDatabase], without its lock and wait group. *)
Record memoryDatabase := mkMemoryDatabase {
  familyTime : Z;
  name : string;
  mStores : MetricBucketStore;
  buf : DataPointBuffer;
  allocSize : Z;
  metrics : memoryDBMetrics
}.

Definition int32 (x : Z) : Z := (x + 2 ^ 31) mod 2 ^ 32 - 2 ^ 31.

Definition addAllocSize (md : memoryDatabase) (n : Z) : memoryDatabase :=
  {| familyTime := familyTime md; name := name md; mStores := mStores md;
     buf := buf md; allocSize := int32 (allocSize md + n);
     metrics := metrics md |}.

Definition withMStores (md : memoryDatabase) (s : MetricBucketStore)
  : memoryDatabase :=
  {| familyTime := familyTime md; name := name md; mStores := s;
     buf := buf md; allocSize := allocSize md; metrics := metrics md |}.

(** [getOrCreateMStore] returns the metric store; the database has it
    from then on. *)
Definition getOrCreateMStore `{StoreSizes} (md : memoryDatabase) (metricID : Z)
  : memoryDatabase * mStore :=
  match Get (mStores md) metricID with
  | Some m => (md, m)
  | None =>
      let m := newMetricStore in
      let md1 := addAllocSize md emptyMStoreSize in
      (withMStores md1 (Put (mStores md1) metricID m), m)
  end.

Record MetricPoint := mkMetricPoint {
  MetricID : Z;
  SeriesID : Z;
  SlotIndex : Z;
  FieldIDs : list field.ID;
  Proto : option protoMetricsV1.Metric
}.

(** What [WriteWithoutLock] works on between entry and return: the
    database, the metric store and the series store it holds pointers
    to, its local variables, and the [fStore.Write] calls made so far,
    oldest first.  The two stores are objects of the database, so
    whatever the call did to them is in the database however the call
    ends: [settle] puts them back. *)
Record writeCtx := mkWriteCtx {
  db : memoryDatabase;
  theMStore : mStore;
  theTStore : tStore;
  fieldIDIdx : nat;
  size : Z;
  written : bool;
  calls : list fieldWrite
}.

Definition settle (p : MetricPoint) (c : writeCtx) : memoryDatabase :=
  withMStores (db c)
    (Put (mStores (db c)) (MetricID p)
       (putTStore (theMStore c) (SeriesID p) (theTStore c))).

(** The last statement of [writeLinField]: [fStore.Write] on the field
    store found or made under [fieldID], [writtenSize] being what was
    counted before.  The field store is an object of the series store:
    the write changes it in place, under its key. *)
Definition writeToFStore `{StoreSizes} (c : writeCtx) (fieldID : field.ID)
  (fStore : fieldStore) (writtenSize : Z) (fieldType : field.Type_)
  (slotIndex : Z) (fieldValue : float) : writeCtx * (Z + error) :=
  let (fStore1, n) := fStoreWrite fStore fieldType slotIndex fieldValue in
  ({| db := db c; theMStore := theMStore c;
      theTStore := {| fStores := <[fieldID := fStore1]> (fStores (theTStore c)) |};
      fieldIDIdx := fieldIDIdx c; size := size c;
      written := written c;
      calls := calls c ++
        [{| fwField := fieldID; fwType := fieldType;
            fwSlot := slotIndex; fwValue := fieldValue |}] |},
   inl (writtenSize + n)).

Definition withBuf (md : memoryDatabase) (bf : DataPointBuffer)
  (m : memoryDBMetrics) : memoryDatabase :=
  {| familyTime := familyTime md; name := name md; mStores := mStores md;
     buf := bf; allocSize := allocSize md; metrics := m |}.

(** [writeLinField], on the context: [inl] the size written, [inr] the
    error. *)
Definition writeLinField `{StoreSizes} (c : writeCtx) (slotIndex : Z)
  (fieldID : field.ID) (fieldType : field.Type_) (fieldValue : float)
  : writeCtx * (Z + error) :=
  let md := db c in
  match GetFStore (theTStore c) fieldID with
  | Some fStore =>
      writeToFStore c fieldID fStore 0 fieldType slotIndex fieldValue
  | None =>
      match AllocPage (buf md) with
      | (bf, inr e) =>
          ({| db :=
                withBuf md bf
                  {| allocatedPages := allocatedPages (metrics md);
                     allocatedPageFailures :=
                       S (allocatedPageFailures (metrics md)) |};
              theMStore := theMStore c; theTStore := theTStore c;
              fieldIDIdx := fieldIDIdx c; size := size c;
              written := written c; calls := calls c |},
           inr e)
      | (bf, inl page) =>
          let fStore := newFieldStore page fieldID in
          let (t1, n) := InsertFStore (theTStore c) fStore in
          writeToFStore
            {| db :=
                 withBuf md bf
                   {| allocatedPages := S (allocatedPages (metrics md));
                      allocatedPageFailures :=
                        allocatedPageFailures (metrics md) |};
               theMStore := AddField (theMStore c) fieldID fieldType;
               theTStore := t1;
               fieldIDIdx := fieldIDIdx c; size := size c;
               written := written c; calls := calls c |}
            fieldID fStore n fieldType slotIndex fieldValue
      end
  end.

(** The closure [afterWrite]. *)
Definition afterWrite (c : writeCtx) (writtenLinFieldSize : Z) : writeCtx :=
  {| db := db c; theMStore := theMStore c; theTStore := theTStore c;
     fieldIDIdx := S (fieldIDIdx c);
     size := size c + writtenLinFieldSize;
     written := true;
     calls := calls c |}.

(** One of the field writes of [WriteWithoutLock]: the field id is
    [point.FieldIDs[fieldIDIdx]], then [writeLinField], then
    [afterWrite] unless the write failed. *)
Definition writeField `{StoreSizes} (p : MetricPoint) (fieldType : field.Type_)
  (fieldValue : float) (c : writeCtx) : writeCtx * outcome :=
  match nth_error (FieldIDs p) (fieldIDIdx c) with
  | None => (c, Panicked)
  | Some fieldID =>
      match writeLinField c (SlotIndex p) fieldID fieldType fieldValue with
      | (c1, inr e) => (c1, Failed e)
      | (c1, inl n) => (afterWrite c1 n, Done)
      end
  end.

(** Statements in sequence: what follows a return or a panic does not
    run. *)
Definition step := writeCtx -> writeCtx * outcome.

Definition seq (a b : step) : step :=
  fun c =>
    match a c with
    | (c1, Done) => b c1
    | (c1, o) => (c1, o)
    end.

Definition skip : step := fun c => (c, Done).

Definition when (cond : bool) (a : step) : step := if cond then a else skip.

Fixpoint forEach {A : Type} (l : list A) (body : A -> step) : step :=
  match l with
  | [] => skip
  | x :: l' => seq (body x) (forEach l' body)
  end.

(** The loop over the simple fields. *)
Definition writeSimpleField `{StoreSizes} (p : MetricPoint)
  (f : protoMetricsV1.SimpleField) : step :=
  match protoMetricsV1.Type_ f with
  | protoMetricsV1.DELTA_SUM | protoMetricsV1.CUMULATIVE_SUM =>
      writeField p field.SumField (protoMetricsV1.Value f)
  | protoMetricsV1.GAUGE =>
      writeField p field.GaugeField (protoMetricsV1.Value f)
  | _ => skip
  end.

(** The loop over [ExplicitBounds]: [Values[idx]] for every index of
    the bounds. *)
Definition writeBucket `{StoreSizes} (p : MetricPoint)
  (cf : protoMetricsV1.CompoundField) (i : nat) : step :=
  fun c =>
    match nth_error (FieldIDs p) (fieldIDIdx c) with
    | None => (c, Panicked)
    | Some _ =>
        match nth_error (protoMetricsV1.Values cf) i with
        | None => (c, Panicked)
        | Some v => writeField p field.HistogramField v c
        end
    end.

Definition gt0 (x : float) : bool := PrimFloat.ltb 0%float x.

Definition writeCompound `{StoreSizes} (p : MetricPoint)
  (cf : protoMetricsV1.CompoundField) : step :=
  seq (when (gt0 (protoMetricsV1.Min cf))
         (writeField p field.MinField (protoMetricsV1.Min cf)))
 (seq (when (gt0 (protoMetricsV1.Max cf))
         (writeField p field.MinField (protoMetricsV1.Max cf)))
 (seq (writeField p field.SumField (protoMetricsV1.Sum cf))
 (seq (writeField p field.SumField (protoMetricsV1.Count cf))
      (forEach (List.seq 0 (length (protoMetricsV1.ExplicitBounds cf)))
         (writeBucket p cf))))).

(** The label [End]. *)
Definition atEnd (p : MetricPoint) (c : writeCtx) : writeCtx :=
  let m := if written c then SetSlot (theMStore c) (SlotIndex p)
           else theMStore c in
  {| db := addAllocSize (db c) (int32 (size c));
     theMStore := m; theTStore := theTStore c;
     fieldIDIdx := fieldIDIdx c; size := size c; written := written c;
     calls := calls c |}.

Definition enter `{StoreSizes} (md : memoryDatabase) (p : MetricPoint)
  : writeCtx :=
  let (md1, m) := getOrCreateMStore md (MetricID p) in
  let (t, n) := GetOrCreateTStore m (SeriesID p) in
  {| db := md1; theMStore := m; theTStore := t;
     fieldIDIdx := 0; size := n; written := false; calls := [] |}.

Definition body `{StoreSizes} (p : MetricPoint) : step :=
  match Proto p with
  | None => fun c => (c, Panicked)
  | Some m =>
      seq (forEach (protoMetricsV1.SimpleFields m) (writeSimpleField p))
          (match protoMetricsV1.Compound m with
           | None => skip
           | Some cf => writeCompound p cf
           end)
  end.

(** [WriteWithoutLock]: the database afterwards, how the call ended, and
    the [fStore.Write] calls it made, in order. *)
Definition WriteWithoutLock `{StoreSizes} (md : memoryDatabase)
  (p : MetricPoint) : memoryDatabase * outcome * list fieldWrite :=
  match body p (enter md p) with
  | (c, Done) => let c1 := atEnd p c in (settle p c1, Done, calls c1)
  | (c, o) => (settle p c, o, calls c)
  end.

(** [Write] is [WriteWithoutLock] under the lock. *)
Definition Write `{StoreSizes} (md : memoryDatabase) (p : MetricPoint)
  : memoryDatabase * outcome * list fieldWrite :=
  WriteWithoutLock md p.

(** *** Flush *)

Record flushContext := mkFlushContext {
  metricID : Z;
  slotStart : Z;
  slotEnd : Z
}.

(** Modelled from the spec: [metricsdata.Flusher] is an external
    collaborator.  The model is a recording double: it keeps the calls
    it receives, fails the flush of the metrics [failOn] names, and
    answers [Commit] with [commitErr]. *)
Inductive flusherCall :=
| FlushedMetric (metricID : Z)
| Committed.

Record Flusher := mkFlusher {
  failOn : Z -> option error;
  commitErr : option error;
  received : list flusherCall
}.

Definition record (fl : Flusher) (c : flusherCall) : Flusher :=
  {| failOn := failOn fl; commitErr := commitErr fl;
     received := received fl ++ [c] |}.

(** Modelled from the spec: [FlushMetricsDataTo] of a metric store
    hands the metric to the flusher, which may refuse it. *)
Definition FlushMetricsDataTo (m : mStore) (fl : Flusher) (ctx : flushContext)
  : Flusher * option error :=
  (record fl (FlushedMetric (metricID ctx)), failOn fl (metricID ctx)).

(** Modelled from the spec: [Flusher.Commit]. *)
Definition Commit (fl : Flusher) : Flusher * option error :=
  (record fl Committed, commitErr fl).

(** The visitor [FlushFamilyTo] hands to [WalkEntry]. *)
Definition flushEntry (key : Z) (value : mStore) (flusher : Flusher)
  : Flusher * option error :=
  match
    FlushMetricsDataTo value flusher
      {| metricID := key; slotStart := 0; slotEnd := 0 |}
  with
  | (fl1, Some e) => (fl1, Some e)
  | (fl1, None) => (fl1, None)
  end.

(** [FlushFamilyTo], once the writes in progress are over. *)
Definition FlushFamilyTo (md : memoryDatabase) (flusher : Flusher)
  : Flusher * option error :=
  match WalkEntry (mStores md) flushEntry flusher with
  | (fl1, Some e) => (fl1, Some e)
  | (fl1, None) => Commit fl1
  end.

Definition MemSize (md : memoryDatabase) : Z := allocSize md.

(** *** What a point asks for *)

(** The field writes a point calls for, in the order of the code: its
    simple fields of type sum or gauge, then, for a compound field,
    min, max, sum, count and one value per explicit bound. *)
Definition simpleWrites (fs : list protoMetricsV1.SimpleField)
  : list (field.Type_ * float) :=
  flat_map
    (fun f =>
       match protoMetricsV1.Type_ f with
       | protoMetricsV1.DELTA_SUM | protoMetricsV1.CUMULATIVE_SUM =>
           [(field.SumField, protoMetricsV1.Value f)]
       | protoMetricsV1.GAUGE => [(field.GaugeField, protoMetricsV1.Value f)]
       | _ => []
       end)
    fs.

Definition compoundWrites (cf : protoMetricsV1.CompoundField)
  : list (field.Type_ * float) :=
  (if gt0 (protoMetricsV1.Min cf)
   then [(field.MinField, protoMetricsV1.Min cf)] else [])
  ++ (if gt0 (protoMetricsV1.Max cf)
      then [(field.MinField, protoMetricsV1.Max cf)] else [])
  ++ [(field.SumField, protoMetricsV1.Sum cf);
      (field.SumField, protoMetricsV1.Count cf)]
  ++ map (fun v => (field.HistogramField, v))
       (firstn (length (protoMetricsV1.ExplicitBounds cf))
          (protoMetricsV1.Values cf)).

Definition pointWrites (m : protoMetricsV1.Metric)
  : list (field.Type_ * float) :=
  simpleWrites (protoMetricsV1.SimpleFields m)
  ++ match protoMetricsV1.Compound m with
     | Some cf => compoundWrites cf
     | None => []
     end.

(** The same writes one after the other, up to the first that does not
    succeed. *)
Fixpoint runWrites `{StoreSizes} (p : MetricPoint)
  (ws : list (field.Type_ * float)) (c : writeCtx) : writeCtx * outcome :=
  match ws with
  | [] => (c, Done)
  | (ty, v) :: ws' =>
      match writeField p ty v c with
      | (c1, Done) => runWrites p ws' c1
      | (c1, o) => (c1, o)
      end
  end.

(** The series store [t] holds the write [w] in the field store of its
    field. *)
Definition holds (t : tStore) (w : fieldWrite) : Prop :=
  exists f, GetFStore t (fwField w) = Some f /\
            In (fwType w, fwSlot w, fwValue w) (fsData f).


(** Field ids from position [k] on, given to the writes one by one. *)
Definition assign (slot : Z) (ids : list field.ID) (k : nat)
  (ws : list (field.Type_ * float)) : list fieldWrite :=
  map (fun iw =>
         {| fwField := fst iw; fwType := fst (snd iw);
            fwSlot := slot; fwValue := snd (snd iw) |})
    (combine (skipn k ids) ws).

(** Every field that has a store in a series of the metric is in the
    metric's list of fields. *)
Definition knowsFields (m : mStore) : Prop :=
  forall sid t id f,
    tStores m !! sid = Some t -> fStores t !! id = Some f ->
    hasField m id = true.

Definition dbKnowsFields (md : memoryDatabase) : Prop :=
  forall k m, Get (mStores md) k = Some m -> knowsFields m.

(** *** Filter *)

(** [Filter], under the read lock.  [mStore.Filter] is not among the
    sources: it is the parameter [mStoreFilter].  The time range is not
    passed on. *)
Definition Filter {S T F R : Type}
  (mStoreFilter : mStore -> Z -> S -> F -> option R * option error)
  (md : memoryDatabase) (metricID : Z) (seriesIDs : S) (timeRange : T)
  (fields : F) : option R * option error :=
  match Get (mStores md) metricID with
  | None => (None, None)
  | Some m => mStoreFilter m (familyTime md) seriesIDs fields
  end.

(** How a call ended, as tests. *)
Definition isFailed (o : outcome) : bool :=
  match o with Failed _ => true | _ => false end.

Definition isDone (o : outcome) : bool :=
  match o with Done => true | _ => false end.

(** *** Examples *)

Definition unitSizes : StoreSizes :=
  {| emptyMStoreSize := 1; emptyTStoreSize := 1; insertFStoreSize := 1;
     fieldWriteSize := fun _ _ _ => 1 |}.

(** A new database whose buffer has [pages] pages. *)
Definition emptyDatabase (pages : nat) : memoryDatabase :=
  {| familyTime := 0; name := "test"%string;
     mStores := NewMetricBucketStore;
     buf := {| pagesLeft := pages; pagesUsed := 0 |};
     allocSize := 0;
     metrics := {| allocatedPages := 0; allocatedPageFailures := 0 |} |}.

(** The histogram point of the specification's scenario. *)
Definition histogramPoint : MetricPoint :=
  {| MetricID := 1; SeriesID := 7; SlotIndex := 10;
     FieldIDs := [1; 2; 3; 4; 5; 6];
     Proto :=
       Some {| protoMetricsV1.SimpleFields := [];
               protoMetricsV1.Compound :=
                 Some {| protoMetricsV1.Min := 1; protoMetricsV1.Max := 9;
                         protoMetricsV1.Sum := 20; protoMetricsV1.Count := 4;
                         protoMetricsV1.Values := [2; 2]%float;
                         protoMetricsV1.ExplicitBounds := [1; 5]%float |} |} |}.

(** The same point with two field ids only. *)
Definition histogramPointTwoIDs : MetricPoint :=
  {| MetricID := 1; SeriesID := 7; SlotIndex := 10;
     FieldIDs := [1; 2];
     Proto := Proto histogramPoint |}.

(** The same point with one value for its two explicit bounds. *)
Definition histogramPointOneValue : MetricPoint :=
  {| MetricID := 1; SeriesID := 7; SlotIndex := 10;
     FieldIDs := [1; 2; 3; 4; 5; 6];
     Proto :=
       Some {| protoMetricsV1.SimpleFields := [];
               protoMetricsV1.Compound :=
                 Some {| protoMetricsV1.Min := 1; protoMetricsV1.Max := 9;
                         protoMetricsV1.Sum := 20; protoMetricsV1.Count := 4;
                         protoMetricsV1.Values := [2]%float;
                         protoMetricsV1.ExplicitBounds := [1; 5]%float |} |} |}.

(** Three metrics to flush. *)
Definition threeMetrics : memoryDatabase :=
  {| familyTime := 0; name := "test"%string;
     mStores := [(1, newMetricStore); (2, newMetricStore); (3, newMetricStore)];
     buf := {| pagesLeft := 0; pagesUsed := 0 |};
     allocSize := 0;
     metrics := {| allocatedPages := 0; allocatedPageFailures := 0 |} |}.

Definition flusherFailingOn (k : Z) : Flusher :=
  {| failOn := fun i => if i =? k then Some "flush failed"%string else None;
     commitErr := None; received := [] |}.

End memdb.

(** * Facts *)

(** ** Bits of integers *)

Section Bits.

Lemma bits_msb_length u n : length (bits_msb u n) = n.
Proof. induction n; simpl; congruence. Qed.

(** The value of the low [k] bits with one more bit on top. *)
Lemma mod_pow2_succ u k :
  0 <= k ->
  u mod 2 ^ (k + 1) = Z.b2z (Z.testbit u k) * 2 ^ k + u mod 2 ^ k.
Proof.
  intros Hk.
  rewrite Z.pow_add_r by lia. change (2 ^ 1) with 2.
  rewrite Z.rem_mul_r by lia.
  rewrite Z.testbit_spec' by lia. lia.
Qed.

Lemma testbit_setbit bb k i (x : bool) :
  0 <= k -> 0 <= i -> Z.testbit bb k = false ->
  Z.testbit (if x then Z.lor bb (Z.shiftl 1 k) else bb) i
  = if i =? k then x else Z.testbit bb i.
Proof.
  intros Hk Hi Hb.
  destruct x.
  - rewrite Z.lor_spec, Z.shiftl_1_l, Z.pow2_bits_eqb by lia.
    destruct (Z.eqb_spec i k) as [->|Hne].
    + rewrite Z.eqb_refl. apply orb_true_r.
    + destruct (Z.eqb_spec k i); [lia|]. apply orb_false_r.
  - destruct (Z.eqb_spec i k) as [->|Hne]; [exact Hb | reflexivity].
Qed.

End Bits.

(** ** The bit writer and the bit reader *)

Section BitStreams.

Import bit.

Local Arguments Z.testbit : simpl never.

Lemma NewWriter_ok : WriterOk NewWriter.
Proof.
  split; simpl; [lia|]. intros i _. apply Z.testbit_0_l.
Qed.

Lemma WriteBit_written w (x : Bit) :
  WriterOk w ->
  exists w1, WriteBit w x = (w1, None) /\ WriterOk w1 /\
             written w1 = written w ++ [x].
Proof.
  intros [Hc Hz]. destruct w as [bf bb c]. simpl in *.
  pose (b1 := if x then Z.lor bb (Z.shiftl 1 (c - 1)) else bb).
  assert (Hb1 : forall i, 0 <= i ->
            Z.testbit b1 i = if i =? c - 1 then x else Z.testbit bb i).
  { intros i Hi. apply testbit_setbit; try lia. apply Hz. lia. }
  unfold WriteBit, written. simpl. fold b1. clearbody b1.
  destruct (Z.eqb_spec (c - 1) 0) as [Hc1|Hc1].
  - eexists. split; [reflexivity|]. split; [apply NewWriter_ok|].
    simpl. assert (c = 1) by lia. subst c.
    rewrite flat_map_app. simpl.
    rewrite <- !app_assoc. f_equal. rewrite app_nil_r.
    unfold byte_bits. simpl.
    rewrite !Hb1 by lia. simpl. reflexivity.
  - eexists. split; [reflexivity|]. split.
    + split; simpl; [lia|]. intros i Hi. rewrite Hb1 by lia.
      destruct (Z.eqb_spec i (c - 1)); [lia|]. apply Hz. lia.
    + simpl. rewrite <- app_assoc. f_equal.
      unfold byte_bits.
      assert (Hcases : c = 2 \/ c = 3 \/ c = 4 \/ c = 5 \/ c = 6 \/ c = 7
                       \/ c = 8) by lia.
      destruct Hcases as [->|[->|[->|[->|[->|[->| ->]]]]]];
        simpl; rewrite ?Hb1 by lia; simpl; reflexivity.
Qed.

Lemma WriteBits_written w u n :
  WriterOk w ->
  exists w1, WriteBits w u n = (w1, None) /\ WriterOk w1 /\
             written w1 = written w ++ bits_msb u n.
Proof.
  revert w. induction n as [|n IH]; intros w Hw.
  - exists w. simpl. rewrite app_nil_r. auto.
  - simpl.
    destruct (WriteBit_written w (Z.testbit u (Z.of_nat n)) Hw)
      as (w1 & E1 & Hw1 & Hb1).
    rewrite E1. simpl.
    destruct (IH w1 Hw1) as (w2 & E2 & Hw2 & Hb2).
    exists w2. split; [exact E2|]. split; [exact Hw2|].
    rewrite Hb2, Hb1, <- app_assoc. reflexivity.
Qed.

(** After [Flush] the buffer holds every bit written, and padding. *)
Lemma Flush_written w :
  WriterOk w ->
  exists w1 pad, Flush w = (w1, None) /\ WriterOk w1 /\
    flat_map byte_bits (buf w1) = written w ++ pad /\
    (length pad < 8)%nat /\
    (written w <> [] -> buf w1 <> []).
Proof.
  intros [Hc Hz]. destruct w as [bf bb c]. simpl in *.
  unfold Flush, written. simpl.
  destruct (Z.eqb_spec c 8) as [->|Hc8].
  - exists {| buf := bf; b := bb; count := 8 |}, [].
    split; [reflexivity|]. split; [split; simpl; [lia|exact Hz]|].
    simpl. rewrite !app_nil_r. split; [reflexivity|]. split; [lia|].
    intros Hne ->. apply Hne. reflexivity.
  - exists {| buf := bf ++ [bb]; b := bb; count := c |},
      (skipn (Z.to_nat (8 - c)) (byte_bits bb)).
    split; [reflexivity|]. split; [split; simpl; [lia|exact Hz]|].
    simpl. split; [|split].
    + rewrite flat_map_app, <- app_assoc. f_equal.
      cbn [flat_map]. rewrite app_nil_r. symmetry. apply firstn_skipn.
    + rewrite length_skipn. unfold byte_bits. rewrite bits_msb_length. lia.
    + intros _ E. destruct bf; discriminate E.
Qed.

Lemma ReadBit_remaining r (x : Bit) rest :
  ReaderOk r -> remaining r = x :: rest ->
  exists r1, ReadBit r = (r1, inl x) /\ ReaderOk r1 /\ remaining r1 = rest.
Proof.
  intros Hc Hr. destruct r as [[bs p] bb c].
  unfold ReaderOk, remaining, ReadBit in *. simpl in *.
  destruct (Z.eqb_spec c 0) as [->|Hc0].
  - simpl in Hr. unfold GetByte. simpl.
    destruct (nth_error bs p) as [y|] eqn:Hn.
    + apply nth_error_split in Hn as (l1 & l2 & -> & <-).
      rewrite skipn_app, Nat.sub_diag, skipn_all in Hr. simpl in Hr.
      injection Hr as Hx Hrest. change (Z.of_nat 7) with 7 in Hx. subst x.
      eexists. split; [reflexivity|]. split; [simpl; lia|].
      simpl. rewrite <- Hrest. do 7 f_equal.
      replace (S (length l1)) with (length (l1 ++ [y])) by
        (rewrite length_app; simpl; lia).
      rewrite (app_assoc l1 [y] l2) at 1.
      rewrite skipn_app, Nat.sub_diag, skipn_all. reflexivity.
    + apply nth_error_None in Hn. rewrite skipn_all2 in Hr by lia.
      discriminate Hr.
  - replace (Z.to_nat c) with (S (Z.to_nat (c - 1))) in Hr by lia.
    simpl in Hr. injection Hr as Hx Hrest.
    rewrite Z2Nat.id in Hx by lia.
    eexists. split; [rewrite Hx; reflexivity|]. split; [simpl; lia|].
    simpl. exact Hrest.
Qed.

Lemma ReadBitsFrom_remaining n : forall r acc u rest,
  ReaderOk r -> remaining r = bits_msb u n ++ rest ->
  exists r1,
    ReadBitsFrom r acc n = (r1, inl (acc * 2 ^ Z.of_nat n + u mod 2 ^ Z.of_nat n))
    /\ ReaderOk r1 /\ remaining r1 = rest.
Proof.
  induction n as [|n IH]; intros r acc u rest Hr Hb.
  - exists r. simpl. rewrite Z.mod_1_r. split; [f_equal; f_equal; lia|auto].
  - simpl in Hb.
    destruct (ReadBit_remaining r _ _ Hr Hb) as (r1 & E1 & Hr1 & Hb1).
    simpl. rewrite E1.
    destruct (IH r1 (2 * acc + Z.b2z (Z.testbit u (Z.of_nat n))) u rest Hr1 Hb1)
      as (r2 & E2 & Hr2 & Hb2).
    exists r2. split; [|auto]. rewrite E2. f_equal. f_equal.
    rewrite Nat2Z.inj_succ, <- Z.add_1_r.
    rewrite (mod_pow2_succ u (Z.of_nat n)) by lia.
    rewrite Z.pow_add_r by lia. lia.
Qed.

Lemma ReadBits_remaining n r u rest :
  ReaderOk r -> 0 <= u < 2 ^ Z.of_nat n ->
  remaining r = bits_msb u n ++ rest ->
  exists r1, ReadBits r n = (r1, inl u) /\ ReaderOk r1 /\ remaining r1 = rest.
Proof.
  intros Hr Hu Hb.
  destruct (ReadBitsFrom_remaining n r 0 u rest Hr Hb) as (r1 & E & H1 & H2).
  exists r1. split; [|auto]. unfold ReadBits. rewrite E.
  rewrite Z.mod_small by lia. f_equal.
Qed.

End BitStreams.

(** ** The XOR value codec *)

Section XorCodec.

Import bit encoding.

Local Arguments Z.testbit : simpl never.
Local Arguments Z.pow : simpl never.
Local Arguments Z.shiftr : simpl never.
Local Arguments Z.shiftl : simpl never.
Local Arguments Z.lxor : simpl never.
Local Arguments Z.to_nat : simpl never.
Local Arguments Z.sub : simpl never.
Local Arguments Z.add : simpl never.
Local Arguments Z.leb : simpl never.
Local Arguments WriteBits : simpl never.
Local Arguments ReadBits : simpl never.
Local Arguments bits_msb : simpl never.

Lemma ntz_nonneg k : forall x, 0 <= ntz k x.
Proof.
  induction k as [|k IH]; intros x; simpl; [lia|].
  destruct (Z.odd x); [lia|]. specialize (IH (Z.div2 x)). lia.
Qed.

Lemma ntz_divide k : forall x, (2 ^ ntz k x | x).
Proof.
  induction k as [|k IH]; intros x; simpl.
  - rewrite Z.pow_0_r. apply Z.divide_1_l.
  - destruct (Z.odd x) eqn:Hodd.
    + rewrite Z.pow_0_r. apply Z.divide_1_l.
    + pose proof (ntz_nonneg k (Z.div2 x)) as Hn.
      destruct (IH (Z.div2 x)) as [q Hq].
      exists q. rewrite Z.pow_add_r by lia.
      rewrite (Z.div2_odd x) at 1. rewrite Hodd. simpl Z.b2z.
      rewrite Hq at 1. change (2 ^ 1) with 2. lia.
Qed.

Lemma lxor_u64 a c : is_u64 a -> is_u64 c -> is_u64 (Z.lxor a c).
Proof.
  unfold is_u64. intros Ha Hc.
  assert (H0 : 0 <= Z.lxor a c) by (apply Z.lxor_nonneg; lia).
  split; [exact H0|].
  destruct (Z.eq_dec (Z.lxor a c) 0) as [->|Hne]; [lia|].
  apply Z.log2_lt_pow2; [lia|].
  pose proof (Z.log2_lxor a c ltac:(lia) ltac:(lia)) as Hl.
  assert (Z.log2 a < 64).
  { destruct (Z.eq_dec a 0) as [->|]; [reflexivity|].
    apply Z.log2_lt_pow2; lia. }
  assert (Z.log2 c < 64).
  { destruct (Z.eq_dec c 0) as [->|]; [reflexivity|].
    apply Z.log2_lt_pow2; lia. }
  lia.
Qed.

(** The window of a non-zero XOR result. *)
Lemma window_of_delta delta :
  0 < delta < 2 ^ 64 ->
  0 <= LeadingZeros64 delta <= 63 /\
  0 <= TrailingZeros64 delta /\
  LeadingZeros64 delta + TrailingZeros64 delta <= 63 /\
  delta < 2 ^ (64 - LeadingZeros64 delta) /\
  (2 ^ TrailingZeros64 delta | delta).
Proof.
  intros Hd. unfold LeadingZeros64, TrailingZeros64.
  destruct (Z.eqb_spec delta 0) as [|_]; [lia|].
  pose proof (Z.log2_nonneg delta) as Hl0.
  assert (Hl : Z.log2 delta < 64) by (apply Z.log2_lt_pow2; lia).
  pose proof (ntz_nonneg 64 delta) as Ht0.
  pose proof (ntz_divide 64 delta) as Htd.
  assert (Ht : ntz 64 delta <= Z.log2 delta).
  { apply Z.divide_pos_le in Htd; [|lia].
    apply Z.log2_le_mono in Htd. rewrite Z.log2_pow2 in Htd by lia. lia. }
  repeat split; try lia; [|exact Htd].
  replace (64 - (63 - Z.log2 delta)) with (Z.succ (Z.log2 delta)) by lia.
  apply Z.log2_spec. lia.
Qed.

(** The meaningful bits of [delta] inside a window that holds it. *)
Lemma block_of_delta delta l t :
  0 <= l -> 0 <= t -> l + t <= 63 ->
  0 <= delta < 2 ^ (64 - l) -> (2 ^ t | delta) ->
  0 <= Z.shiftr delta t < 2 ^ (64 - l - t) /\
  u64 (Z.shiftl (Z.shiftr delta t) t) = delta.
Proof.
  intros Hl Ht Hlt Hd [q Hq].
  assert (Hp : 0 < 2 ^ t) by (apply Z.pow_pos_nonneg; lia).
  rewrite Z.shiftr_div_pow2, Z.shiftl_mul_pow2 by lia.
  assert (Hdiv : delta / 2 ^ t = q) by (subst delta; apply Z.div_mul; lia).
  rewrite Hdiv. split.
  - split; [nia|].
    assert (Hs : 2 ^ (64 - l) = 2 ^ (64 - l - t) * 2 ^ t).
    { rewrite <- Z.pow_add_r by lia. f_equal. lia. }
    rewrite Hs in Hd. nia.
  - unfold u64. rewrite <- Hq. apply Z.mod_small.
    assert (2 ^ (64 - l) <= 2 ^ 64) by (apply Z.pow_le_mono_r; lia). lia.
Qed.

Lemma pow2_divide a c : 0 <= a <= c -> (2 ^ a | 2 ^ c).
Proof.
  intros H. exists (2 ^ (c - a)).
  rewrite <- Z.pow_add_r by lia. f_equal. lia.
Qed.

(** What [XORWrite] leaves in the encoder does not depend on the
    writer. *)
Lemma XORWrite_fst x w v : fst (XORWrite x w v) = xorStep x v.
Proof.
  unfold xorStep, XORWrite.
  destruct (first x); [reflexivity|].
  destruct (Z.lxor v (previousVal x) =? 0); [reflexivity|].
  destruct ((leading x <=? _) && (trailing x <=? _)); reflexivity.
Qed.

Lemma XORWrite_written x w v :
  WriterOk w ->
  exists w1, XORWrite x w v = (xorStep x v, (w1, None)) /\ WriterOk w1 /\
             written w1 = written w ++ xorBits x v.
Proof.
  intros Hw.
  assert (Hgen : forall w1,
    snd (XORWrite x w v) = (w1, None) ->
    XORWrite x w v = (xorStep x v, (w1, None))).
  { intros w1 E. rewrite <- XORWrite_fst with (w := w), <- E.
    destruct (XORWrite x w v); reflexivity. }
  assert (Hsnd : exists w1, snd (XORWrite x w v) = (w1, None) /\ WriterOk w1 /\
             written w1 = written w ++ xorBits x v).
  { unfold XORWrite, xorBits.
    destruct (first x).
    { simpl. apply WriteBits_written, Hw. }
    destruct (Z.lxor v (previousVal x) =? 0).
    { simpl. apply WriteBit_written, Hw. }
    destruct ((leading x <=? _) && (trailing x <=? _)); simpl.
    - destruct (WriteBit_written w One Hw) as (w1 & E1 & Hw1 & B1).
      destruct (WriteBit_written w1 Zero Hw1) as (w2 & E2 & Hw2 & B2).
      rewrite E1. simpl. rewrite E2. simpl.
      destruct (WriteBits_written w2
                  (Z.shiftr (Z.lxor v (previousVal x)) (trailing x))
                  (Z.to_nat (64 - leading x - trailing x)) Hw2)
        as (w3 & E3 & Hw3 & B3).
      exists w3. split; [exact E3|]. split; [exact Hw3|].
      rewrite B3, B2, B1, <- !app_assoc. reflexivity.
    - set (delta := Z.lxor v (previousVal x)).
      set (lead := LeadingZeros64 delta). set (trail := TrailingZeros64 delta).
      destruct (WriteBit_written w One Hw) as (w1 & E1 & Hw1 & B1).
      destruct (WriteBit_written w1 One Hw1) as (w2 & E2 & Hw2 & B2).
      destruct (WriteBits_written w2 lead 6 Hw2) as (w3 & E3 & Hw3 & B3).
      destruct (WriteBits_written w3 (64 - lead - trail - 1) 6 Hw3)
        as (w4 & E4 & Hw4 & B4).
      destruct (WriteBits_written w4 (Z.shiftr delta trail)
                  (Z.to_nat (64 - lead - trail)) Hw4)
        as (w5 & E5 & Hw5 & B5).
      rewrite E1. simpl. rewrite E2. simpl. rewrite E3. simpl.
      rewrite E4. simpl.
      exists w5. split; [exact E5|]. split; [exact Hw5|].
      rewrite B5, B4, B3, B2, B1, <- !app_assoc. reflexivity. }
  destruct Hsnd as (w1 & E & Hw1 & B).
  exists w1. auto.
Qed.

Lemma readBlock_remaining d r l t delta rest :
  ReaderOk r -> 0 <= l -> 0 <= t -> l + t <= 63 ->
  0 <= delta < 2 ^ (64 - l) -> (2 ^ t | delta) ->
  remaining r
  = bits_msb (Z.shiftr delta t) (Z.to_nat (64 - l - t)) ++ rest ->
  exists r1,
    readBlock d r l t
    = (true,
       {| dfirst := false; val := Z.lxor (val d) delta;
          dleading := l; dtrailing := t |}, r1)
    /\ ReaderOk r1 /\ remaining r1 = rest.
Proof.
  intros Hr Hl Ht Hlt Hd Hdiv Hb.
  destruct (block_of_delta delta l t Hl Ht Hlt Hd Hdiv) as [Hrange Hback].
  destruct (ReadBits_remaining (Z.to_nat (64 - l - t)) r
              (Z.shiftr delta t) rest Hr) as (r1 & E & Hr1 & Hb1).
  - rewrite Z2Nat.id by lia. exact Hrange.
  - exact Hb.
  - exists r1. unfold readBlock. rewrite E, Hback. auto.
Qed.

Lemma xorInSync_intro x d :
  first x = dfirst d -> previousVal x = val d -> is_u64 (val d) ->
  xorWindowOk x ->
  (leading x <> 64 -> leading x = dleading d /\ trailing x = dtrailing d) ->
  xorInSync x d.
Proof. intros H1 H2 H3 H4 H5. split; [|split; [|split]]; auto. Qed.

(** Reading back one value: the decoder finds [v] and ends up where the
    encoder is. *)
Lemma XORNext_xorBits x d r v rest :
  xorInSync x d -> is_u64 v -> ReaderOk r ->
  remaining r = xorBits x v ++ rest ->
  exists d1 r1,
    XORNext d r = (true, d1, r1) /\ XORValue d1 = v /\
    ReaderOk r1 /\ remaining r1 = rest /\ xorInSync (xorStep x v) d1.
Proof.
  intros (Hf & Hprev & Hwin & Hsame) Hv Hr Hb.
  unfold XORNext, xorBits, xorStep, XORWrite in *.
  rewrite <- Hf. destruct (first x) eqn:Hfirst.
  - (* the first value, verbatim *)
    destruct (ReadBits_remaining 64 r v rest Hr Hv Hb) as (r1 & E & Hr1 & Hb1).
    rewrite E. eexists _, r1. split; [reflexivity|].
    split; [reflexivity|]. split; [exact Hr1|]. split; [exact Hb1|].
    apply xorInSync_intro; simpl; auto.
  - destruct (Hprev eq_refl) as [Hp Hpu].
    set (delta := Z.lxor v (previousVal x)) in *.
    assert (Hdu : is_u64 delta) by (apply lxor_u64; [|rewrite Hp]; auto).
    destruct (Z.eqb_spec delta 0) as [Hz|Hnz].
    + (* the same value again *)
      destruct (ReadBit_remaining r false rest Hr Hb) as (r1 & E & Hr1 & Hb1).
      rewrite E. exists d, r1. split; [reflexivity|].
      apply Z.lxor_eq in Hz.
      split; [unfold XORValue; congruence|].
      split; [exact Hr1|]. split; [exact Hb1|].
      apply xorInSync_intro; simpl; auto; congruence.
    + destruct (window_of_delta delta) as (Hl & Ht & Hlt & Hlt2 & Hdiv);
        [unfold is_u64 in Hdu; lia|].
      assert (Hval : Z.lxor (val d) delta = v).
      { unfold delta. rewrite <- Hp, Z.lxor_comm, Z.lxor_assoc,
          Z.lxor_nilpotent, Z.lxor_0_r. reflexivity. }
      destruct ((leading x <=? LeadingZeros64 delta)
                && (trailing x <=? TrailingZeros64 delta)) eqn:Hreuse.
      * (* inside the previous window *)
        apply andb_true_iff in Hreuse as [H1 H2].
        apply Z.leb_le in H1. apply Z.leb_le in H2.
        destruct Hwin as [H64|(Hw1 & Hw2 & Hw3)]; [lia|].
        destruct Hsame as [Hsl Hst]; [lia|].
        simpl in Hb.
        destruct (ReadBit_remaining r true _ Hr Hb) as (r1 & E1 & Hr1 & Hb1).
        destruct (ReadBit_remaining r1 false _ Hr1 Hb1)
          as (r2 & E2 & Hr2 & Hb2).
        rewrite E1, E2. rewrite <- Hsl, <- Hst.
        destruct (readBlock_remaining d r2 (leading x) (trailing x) delta rest
                    Hr2 Hw1 Hw2 Hw3) as (r3 & E3 & Hr3 & Hb3).
        { split; [unfold is_u64 in Hdu; lia|].
          eapply Z.lt_le_trans; [exact Hlt2|].
          apply Z.pow_le_mono_r; lia. }
        { eapply Z.divide_trans; [|exact Hdiv]. apply pow2_divide. lia. }
        { exact Hb2. }
        rewrite E3, Hval. eexists _, r3. split; [reflexivity|].
        split; [reflexivity|]. split; [exact Hr3|]. split; [exact Hb3|].
        apply xorInSync_intro; simpl; auto.
        right. simpl. lia.
      * (* a new window *)
        simpl in Hb. rewrite <- ?app_assoc in Hb.
        destruct (ReadBit_remaining r true _ Hr Hb) as (r1 & E1 & Hr1 & Hb1).
        destruct (ReadBit_remaining r1 true _ Hr1 Hb1)
          as (r2 & E2 & Hr2 & Hb2).
        destruct (ReadBits_remaining 6 r2 (LeadingZeros64 delta) _ Hr2
                    ltac:(change (2 ^ Z.of_nat 6) with 64; lia) Hb2)
          as (r3 & E3 & Hr3 & Hb3).
        destruct (ReadBits_remaining 6 r3
                    (64 - LeadingZeros64 delta - TrailingZeros64 delta - 1)
                    _ Hr3 ltac:(change (2 ^ Z.of_nat 6) with 64; lia) Hb3)
          as (r4 & E4 & Hr4 & Hb4).
        rewrite E1, E2, E3, E4.
        replace (64 - LeadingZeros64 delta
                 - (64 - LeadingZeros64 delta - TrailingZeros64 delta - 1 + 1))
          with (TrailingZeros64 delta) by lia.
        destruct (readBlock_remaining d r4 (LeadingZeros64 delta)
                    (TrailingZeros64 delta) delta rest Hr4)
          as (r5 & E5 & Hr5 & Hb5); try lia; auto.
        { unfold is_u64 in Hdu; lia. }
        rewrite E5, Hval. eexists _, r5. split; [reflexivity|].
        split; [reflexivity|]. split; [exact Hr5|]. split; [exact Hb5|].
        apply xorInSync_intro; simpl; auto.
        right. simpl. lia.
Qed.

End XorCodec.

(** ** The header *)

Section Header.

Import stream.

Lemma testbit_255 n : 0 <= n -> Z.testbit 255 n = (n <? 8).
Proof.
  intros Hn. change 255 with (Z.ones 8).
  destruct (Z.ltb_spec n 8).
  - apply Z.ones_spec_low. lia.
  - apply Z.ones_spec_high. lia.
Qed.

Lemma testbit_u16_high s n : is_u16 s -> 16 <= n -> Z.testbit s n = false.
Proof.
  intros [H0 H1] Hn.
  destruct (Z.eq_dec s 0) as [->|Hne]; [apply Z.testbit_0_l|].
  apply Z.bits_above_log2; [lia|].
  assert (Z.log2 s < 16) by (apply Z.log2_lt_pow2; lia). lia.
Qed.

(** Two bytes written little-endian read back as the same uint16. *)
Lemma uint16_le_roundtrip s :
  is_u16 s ->
  Z.lor (Z.land s 255) (Z.shiftl (Z.land (Z.shiftr s 8) 255) 8) = s.
Proof.
  intros Hs. apply Z.bits_inj'. intros n Hn.
  rewrite Z.lor_spec, Z.land_spec, testbit_255 by lia.
  destruct (Z.ltb_spec n 8) as [Hlt|Hge].
  - rewrite Z.shiftl_spec_low by lia.
    rewrite andb_true_r, orb_false_r. reflexivity.
  - rewrite Z.shiftl_spec, Z.land_spec, Z.shiftr_spec, testbit_255 by lia.
    replace (n - 8 + 8) with n by lia.
    rewrite andb_false_r. simpl.
    destruct (Z.ltb_spec (n - 8) 8) as [Hlt|Hge2].
    + apply andb_true_r.
    + rewrite andb_false_r. symmetry. apply testbit_u16_high; [exact Hs|lia].
Qed.

Lemma Uint16_PutUInt16 s1 s2 rest :
  is_u16 s1 -> is_u16 s2 ->
  let block :=
    PutBytes (PutUInt16 (PutUInt16 NewBufferWriter s1) s2) rest in
  Uint16 block 0 = s1 /\ Uint16 block 2 = s2 /\
  skipn 4 block = rest /\ length block = (4 + length rest)%nat.
Proof.
  intros H1 H2. unfold PutBytes, PutUInt16, NewBufferWriter, Uint16. simpl.
  split; [apply uint16_le_roundtrip, H1|].
  split; [apply uint16_le_roundtrip, H2|].
  split; reflexivity.
Qed.

(** The low byte first, then the high byte. *)
Lemma little_endian_bytes s :
  is_u16 s ->
  Z.land s 255 = s mod 256 /\ Z.land (Z.shiftr s 8) 255 = s / 256.
Proof.
  intros [H0 H1]. change 255 with (Z.ones 8).
  rewrite !Z.land_ones, Z.shiftr_div_pow2 by lia.
  change (2 ^ 8) with 256. split; [reflexivity|].
  apply Z.mod_small. split; [apply Z.div_pos; lia|].
  apply Z.div_lt_upper_bound; lia.
Qed.

End Header.

(** ** The encoder *)

Section Encoder.

Import bit encoding.

Local Arguments Z.testbit : simpl never.
Local Arguments XORWrite : simpl never.
Local Arguments WriteBit : simpl never.

Lemma u16_range x : is_u16 (u16 x).
Proof. unfold is_u16, u16. apply Z.mod_pos_bound. lia. Qed.

Lemma u16_small x : is_u16 x -> u16 x = x.
Proof. unfold is_u16, u16. intros H. apply Z.mod_small. lia. Qed.

Lemma u16_add_l x y : u16 (u16 x + y) = u16 (x + y).
Proof. unfold u16. apply Zplus_mod_idemp_l. Qed.

Lemma u16_end x y : u16 (x + u16 y - 1) = u16 (x + y - 1).
Proof.
  unfold u16. replace (x + y mod 65536 - 1) with (y mod 65536 + (x - 1)) by lia.
  rewrite Zplus_mod_idemp_l. f_equal. lia.
Qed.

Lemma NewTSDEncoder_ok s : encoderOk (NewTSDEncoder s).
Proof.
  split; [reflexivity|]. split; [apply NewWriter_ok|].
  unfold is_u16. simpl. lia.
Qed.

Lemma AppendTime_ok e (slot : Bit) :
  encoderOk e ->
  encoderOk (AppendTime e slot) /\
  startTime (AppendTime e slot) = startTime e /\
  values (AppendTime e slot) = values e /\
  count (AppendTime e slot) = u16 (count e + 1) /\
  written (bitWriter (AppendTime e slot)) = written (bitWriter e) ++ [slot].
Proof.
  intros (He & Hw & Hc). unfold AppendTime. rewrite He.
  destruct (WriteBit_written (bitWriter e) slot Hw) as (w1 & E & Hw1 & B).
  rewrite E. simpl.
  split; [|auto]. split; [reflexivity|]. split; [exact Hw1|apply u16_range].
Qed.

Lemma AppendValue_ok e v :
  encoderOk e ->
  encoderOk (AppendValue e v) /\
  startTime (AppendValue e v) = startTime e /\
  values (AppendValue e v) = xorStep (values e) v /\
  count (AppendValue e v) = count e /\
  written (bitWriter (AppendValue e v))
  = written (bitWriter e) ++ xorBits (values e) v.
Proof.
  intros (He & Hw & Hc). unfold AppendValue. rewrite He.
  destruct (XORWrite_written (values e) (bitWriter e) v Hw)
    as (w1 & E & Hw1 & B).
  rewrite E. simpl.
  split; [|auto]. split; [reflexivity|]. split; [exact Hw1|exact Hc].
Qed.

Lemma Reset_ok e :
  encoderOk e -> encoderOk (Reset e).
Proof.
  intros (He & Hw & Hc). split; [exact He|].
  split; [apply NewWriter_ok|exact Hc].
Qed.

(** Any run of calls on a working encoder leaves it working, with the
    same start slot and the [AppendTime] calls counted modulo 2^16. *)
Lemma performAll_ok cs : forall e,
  encoderOk e ->
  encoderOk (performAll e cs) /\
  startTime (performAll e cs) = startTime e /\
  count (performAll e cs) = u16 (count e + Z.of_nat (timeCalls cs)).
Proof.
  induction cs as [|c cs IH]; intros e He.
  - simpl. split; [exact He|]. split; [reflexivity|].
    rewrite Z.add_0_r. symmetry. apply u16_small, He.
  - change (performAll e (c :: cs)) with (performAll (perform e c) cs).
    destruct c as [slot|v|].
    + destruct (AppendTime_ok e slot He) as (H1 & H2 & _ & H4 & _).
      destruct (IH _ H1) as (I1 & I2 & I3).
      split; [exact I1|]. split; [simpl perform in *; congruence|].
      simpl perform in *. rewrite I3, H4, u16_add_l. f_equal.
      unfold timeCalls. simpl. lia.
    + destruct (AppendValue_ok e v He) as (H1 & H2 & _ & H4 & _).
      destruct (IH _ H1) as (I1 & I2 & I3).
      split; [exact I1|]. split; [simpl perform in *; congruence|].
      simpl perform in *. rewrite I3, H4. reflexivity.
    + destruct (IH _ (Reset_ok e He)) as (I1 & I2 & I3).
      split; [exact I1|]. split; [exact I2|]. exact I3.
Qed.

(** [XORWrite] emits at least one bit. *)
Lemma xorBits_nonempty x v : xorBits x v <> [].
Proof.
  unfold xorBits. destruct (first x).
  - intros E. apply (f_equal (@length bool)) in E.
    rewrite bits_msb_length in E. discriminate E.
  - destruct (_ =? 0); [discriminate|].
    destruct (_ && _); discriminate.
Qed.

(** When the last call was not [Reset], the stream is not empty. *)
Lemma performAll_last_bits cs e :
  encoderOk e -> isReset (List.last cs CallReset) = false ->
  written (bitWriter (performAll e cs)) <> [].
Proof.
  intros He Hlast.
  destruct (exists_last (l := cs)) as (cs' & c & ->).
  { intros ->. discriminate Hlast. }
  rewrite last_last in Hlast.
  unfold performAll. rewrite fold_left_app. cbn [fold_left].
  fold (performAll e cs').
  destruct (performAll_ok cs' e He) as (He' & _).
  destruct c as [slot|v|]; [| |discriminate Hlast]; cbn [perform].
  - destruct (AppendTime_ok _ slot He') as (_ & _ & _ & _ & ->).
    intros E. apply app_eq_nil in E as [_ E]. discriminate E.
  - destruct (AppendValue_ok _ v He') as (_ & _ & _ & _ & ->).
    intros E. apply app_eq_nil in E as [_ E].
    apply (xorBits_nonempty _ _ E).
Qed.

(** The bits a run of slots leaves in the stream. *)
Lemma encodeSlots_written l : forall e,
  encoderOk e ->
  encoderOk (encodeSlots e l) /\
  startTime (encodeSlots e l) = startTime e /\
  count (encodeSlots e l) = u16 (count e + Z.of_nat (length l)) /\
  written (bitWriter (encodeSlots e l))
  = written (bitWriter e) ++ slotBits (values e) l.
Proof.
  induction l as [|s l IH]; intros e He.
  - simpl. rewrite app_nil_r, Z.add_0_r.
    split; [exact He|]. split; [reflexivity|]. split; [|reflexivity].
    symmetry. apply u16_small, He.
  - change (encodeSlots e (s :: l)) with (encodeSlots (appendSlot e s) l).
    assert (Hlen : Z.of_nat (length (s :: l)) = 1 + Z.of_nat (length l))
      by (simpl length; lia).
    rewrite Hlen.
    destruct s as [v|]; simpl appendSlot.
    + destruct (AppendTime_ok e One He) as (H1 & H2 & H3 & H4 & H5).
      destruct (AppendValue_ok _ v H1) as (J1 & J2 & J3 & J4 & J5).
      destruct (IH _ J1) as (I1 & I2 & I3 & I4).
      split; [exact I1|]. split; [congruence|]. split.
      * rewrite I3, J4, H4, u16_add_l. f_equal. lia.
      * rewrite I4, J5, H5, J3, H3, <- !app_assoc. reflexivity.
    + destruct (AppendTime_ok e Zero He) as (H1 & H2 & H3 & H4 & H5).
      destruct (IH _ H1) as (I1 & I2 & I3 & I4).
      split; [exact I1|]. split; [congruence|]. split.
      * rewrite I3, H4, u16_add_l. f_equal. lia.
      * rewrite I4, H5, H3, <- !app_assoc. reflexivity.
Qed.

(** [Bytes] on a working encoder whose counter is not zero: the header,
    then the flushed buffer, which holds the bits written and padding. *)
Lemma Bytes_block e :
  encoderOk e -> count e <> 0 ->
  exists w1 pad,
    Bytes e
    = ((Some (stream.PutBytes
                (stream.PutUInt16
                   (stream.PutUInt16 stream.NewBufferWriter (startTime e))
                   (u16 (startTime e + count e - 1)))
                (buf w1)), None),
       withWriter e w1)
    /\ flat_map byte_bits (buf w1) = written (bitWriter e) ++ pad
    /\ (length pad < 8)%nat
    /\ (written (bitWriter e) <> [] -> buf w1 <> []).
Proof.
  intros (He & Hw & Hc) Hn.
  destruct (Flush_written (bitWriter e) Hw)
    as (w1 & pad & E & Hw1 & B & Hp & Hne).
  exists w1, pad. unfold Bytes, flushFunc, flush. rewrite He, E.
  destruct (Z.eqb_spec (count e) 0) as [|_]; [contradiction|].
  auto.
Qed.

Lemma Bytes_nil e :
  encoderOk e -> count e = 0 -> fst (Bytes e) = (None, None).
Proof.
  intros (He & Hw & Hc) Hn.
  destruct (Flush_written (bitWriter e) Hw) as (w1 & pad & E & _).
  unfold Bytes, flushFunc, flush. rewrite He, E, Hn. reflexivity.
Qed.

End Encoder.

(** ** The decoder *)

Section Decoder.

Import bit encoding.

Local Arguments Z.testbit : simpl never.
Local Arguments XORNext : simpl never.
Local Arguments ReadBit : simpl never.

(** [Reset] on more than four bytes: whatever the decoder held, it now
    reads the payload from its first bit, with a fresh value decoder. *)
Lemma ResetDecoder_valid d data :
  (4 < length data)%nat ->
  exists r,
    ResetDecoder d data
    = {| dstartTime := stream.Uint16 data 0;
         dendTime := stream.Uint16 data 2;
         streams := Some (r, NewXORDecoder);
         idx := 0;
         derr := None |}
    /\ ReaderOk r
    /\ remaining r = flat_map byte_bits (skipn 4 data).
Proof.
  intros Hlen. unfold ResetDecoder.
  destruct (Nat.leb_spec (length data) 4) as [|_]; [lia|].
  unfold reset. simpl.
  destruct (streams d) as [[r x]|]; simpl;
    (eexists; split; [reflexivity|]; split;
     [unfold ReaderOk; simpl; lia | reflexivity]).
Qed.

Lemma NewXOR_inSync : xorInSync NewXOREncoder NewXORDecoder.
Proof.
  split; [reflexivity|]. split; [discriminate|].
  split; [left; reflexivity|]. intros H. exfalso. apply H. reflexivity.
Qed.

(** The caller's loop on a decoder that stands before the bits of [l],
    with [length l] slots left in its range. *)
Lemma decodeSlots_slotBits l : forall fuel d r xd x rest,
  streams d = Some (r, xd) -> ReaderOk r ->
  remaining r = slotBits x l ++ rest ->
  xorInSync x xd -> slotsOk l ->
  0 <= dstartTime d -> 0 <= idx d ->
  dstartTime d + idx d + Z.of_nat (length l) = dendTime d + 1 ->
  dendTime d < 65535 ->
  (length l < fuel)%nat ->
  decodeSlots fuel d = Some l.
Proof.
  induction l as [|s l IH];
    intros fuel d r xd x rest Hs Hr Hb Hsync Hok H0 Hi Hend Hmax Hfuel;
    (destruct fuel as [|fuel]; [simpl in Hfuel; lia|]).
  - simpl in Hend. simpl. unfold Next.
    rewrite u16_small by (unfold is_u16; lia).
    destruct (Z.leb_spec (dstartTime d + idx d) (dendTime d)); [lia|].
    reflexivity.
  - assert (Hlen : Z.of_nat (length (s :: l)) = 1 + Z.of_nat (length l))
      by (simpl length; lia).
    rewrite Hlen in Hend. simpl in Hfuel.
    inversion Hok as [|s' l' Hv Hok']; subst s' l'.
    cbn [decodeSlots]. unfold Next.
    rewrite !u16_small by (unfold is_u16; lia).
    destruct (Z.leb_spec (dstartTime d + idx d) (dendTime d)); [|lia].
    unfold HasValue, withIdx. cbn [streams]. rewrite Hs.
    destruct s as [v|]; cbn [slotBits] in Hb; simpl in Hb.
    + destruct (ReadBit_remaining r true _ Hr Hb) as (r1 & E1 & Hr1 & Hb1).
      rewrite E1. unfold Value. cbn [streams].
      rewrite <- app_assoc in Hb1.
      destruct (XORNext_xorBits x xd r1 v _ Hsync Hv Hr1 Hb1)
        as (xd1 & r2 & E2 & Hval & Hr2 & Hb2 & Hsync2).
      rewrite E2, Hval. cbn [dstartTime dendTime idx derr].
      erewrite (IH fuel _ r2 xd1 (xorStep x v) rest);
        cbn [streams dstartTime dendTime idx];
        try reflexivity; try lia; auto.
    + destruct (ReadBit_remaining r false _ Hr Hb) as (r1 & E1 & Hr1 & Hb1).
      rewrite E1.
      erewrite (IH fuel _ r1 xd x rest);
        cbn [streams dstartTime dendTime idx];
        try reflexivity; try lia; auto.
Qed.

End Decoder.

(** ** The codec: what the specification says of it *)

Section Codec.

Import bit encoding.

Lemma slotBits_nonempty x s l : slotBits x (s :: l) <> [].
Proof. destruct s; discriminate. Qed.

Lemma timeCalls_none cs :
  forallb (fun c => negb (isAppendTime c)) cs = true -> timeCalls cs = 0%nat.
Proof.
  unfold timeCalls. induction cs as [|c cs IH]; [reflexivity|].
  simpl. intros H. apply andb_true_iff in H as [Hc H].
  destruct (isAppendTime c); [discriminate Hc|]. apply IH, H.
Qed.

(** The block of a working encoder, read as a header and a payload. *)
Lemma Bytes_header e :
  encoderOk e -> is_u16 (startTime e) -> count e <> 0 ->
  exists block e1 pad,
    Bytes e = ((Some block, None), e1) /\
    nth 0 block 0 = startTime e mod 256 /\
    nth 1 block 0 = startTime e / 256 /\
    nth 2 block 0 = u16 (startTime e + count e - 1) mod 256 /\
    nth 3 block 0 = u16 (startTime e + count e - 1) / 256 /\
    stream.Uint16 block 0 = startTime e /\
    stream.Uint16 block 2 = u16 (startTime e + count e - 1) /\
    flat_map byte_bits (skipn 4 block) = written (bitWriter e) ++ pad /\
    (length pad < 8)%nat /\
    (written (bitWriter e) <> [] -> (4 < length block)%nat).
Proof.
  intros He Hs Hn.
  destruct (Bytes_block e He Hn) as (w1 & pad & E & B & Hp & Hne).
  pose proof (u16_range (startTime e + count e - 1)) as Hend.
  destruct (Uint16_PutUInt16 _ _ (buf w1) Hs Hend)
    as (U1 & U2 & U3 & U4).
  destruct (little_endian_bytes _ Hs) as [L1 L2].
  destruct (little_endian_bytes _ Hend) as [L3 L4].
  eexists _, _, pad. split; [exact E|].
  split; [exact L1|]. split; [exact L2|].
  split; [exact L3|]. split; [exact L4|].
  split; [exact U1|]. split; [exact U2|].
  split; [rewrite U3; exact B|]. split; [exact Hp|].
  intros Hw. rewrite U4. specialize (Hne Hw).
  destruct (buf w1); [contradiction|]. simpl. lia.
Qed.

(** With end slot 65535 the comparison of [Next] holds at every index:
    the caller's loop does not end, whatever the fuel. *)
Lemma decodeSlots_endless d :
  dendTime d = 65535 -> forall fuel, decodeSlots fuel d = None.
Proof.
  intros Hend fuel. revert d Hend.
  induction fuel as [|fuel IH]; intros d Hend; [reflexivity|].
  cbn [decodeSlots]. unfold Next. rewrite Hend.
  pose proof (u16_range (dstartTime d + idx d)) as Hu. unfold is_u16 in Hu.
  destruct (Z.leb_spec (u16 (dstartTime d + idx d)) 65535) as [_|Hlt]; [|lia].
  set (d1 := withIdx d (u16 (idx d + 1))).
  assert (H1 : dendTime d1 = 65535) by exact Hend. clearbody d1.
  assert (H2 : dendTime (snd (HasValue d1)) = 65535).
  { unfold HasValue. destruct (streams d1) as [[r x]|]; [|exact H1].
    destruct (ReadBit r) as [r1 [v|e]]; exact H1. }
  destruct (HasValue d1) as [has d2]. simpl in H2. destruct has.
  - assert (H3 : dendTime (snd (Value d2)) = 65535).
    { unfold Value. destruct (streams d2) as [[r x]|]; [|exact H2].
      destruct (XORNext x r) as [[ok x1] r1]. destruct ok; exact H2. }
    destruct (Value d2) as [v d3]. simpl in H3.
    rewrite (IH d3 H3). reflexivity.
  - rewrite (IH d2 H2). reflexivity.
Qed.

(** C1, amended: a non-empty run of slots whose last slot,
    [startTime + n - 1], is below 65535, fed to a new encoder slot by
    slot ([AppendTime], then [AppendValue] for a slot that has a value),
    gives a block from which any decoder, after [Reset], yields in the
    loop over [Next], [HasValue] and [Value] the same presence bits and
    the same 64-bit values in the same order, and then stops. *)
Theorem tsd_roundtrip (start : Z) (l : list (option Z)) (d0 : TSDDecoder)
  (fuel : nat) :
  is_u16 start -> l <> [] ->
  start + Z.of_nat (length l) - 1 < 65535 ->
  slotsOk l -> (length l < fuel)%nat ->
  exists block e1,
    Bytes (encodeSlots (NewTSDEncoder start) l) = ((Some block, None), e1) /\
    decodeSlots fuel (ResetDecoder d0 block) = Some l.
Proof.
  intros Hs Hne Hend Hok Hfuel.
  destruct (encodeSlots_written l _ (NewTSDEncoder_ok start))
    as (He & Hst & Hc & Hw).
  simpl in Hst, Hc, Hw.
  assert (Hlen : (0 < length l)%nat) by (destruct l; [contradiction|simpl; lia]).
  unfold is_u16 in Hs.
  rewrite u16_small in Hc by (unfold is_u16; lia).
  destruct (Bytes_header _ He) as
    (block & e1 & pad & E & _ & _ & _ & _ & U1 & U2 & B & _ & Hblk).
  { rewrite Hst. exact Hs. }
  { lia. }
  rewrite Hst in U1. rewrite Hst, Hc in U2.
  rewrite u16_small in U2 by (unfold is_u16; lia).
  rewrite Hw in B, Hblk.
  exists block, e1. split; [exact E|].
  destruct (ResetDecoder_valid d0 block) as (r & Ed & Hr & Hrem).
  { apply Hblk. destruct l; [contradiction|apply slotBits_nonempty]. }
  rewrite Ed.
  apply (decodeSlots_slotBits l fuel _ r NewXORDecoder NewXOREncoder pad);
    simpl; try lia; auto.
  - rewrite Hrem. exact B.
  - apply NewXOR_inSync.
Qed.

Lemma tsd_roundtrip_witness :
  exists block e1,
    Bytes (encodeSlots (NewTSDEncoder 10) [Some 42; None; Some 43])
    = ((Some block, None), e1) /\
    decodeSlots 4 (ResetDecoder zeroDecoder block)
    = Some [Some 42; None; Some 43].
Proof.
  apply (tsd_roundtrip 10 [Some 42; None; Some 43] zeroDecoder 4).
  - unfold is_u16. lia.
  - discriminate.
  - simpl. lia.
  - repeat constructor; unfold is_u64; lia.
  - simpl. lia.
Defined.

(** C1 as stated fails at both ends.  An empty sequence gives no block,
    and a decoder reset on nil yields one slot without a value.  A
    single slot at slot 65535 gives a block whose end slot is 65535, and
    the decoder's loop never sees [Next()] return false. *)
Lemma tsd_roundtrip_fails_at_the_ends :
  (fst (Bytes (encodeSlots (NewTSDEncoder 10) [])) = (None, None) /\
   decodeSlots 3 (ResetDecoder zeroDecoder []) = Some [None]) /\
  (exists block e1,
     Bytes (encodeSlots (NewTSDEncoder 65535) [Some 1])
     = ((Some block, None), e1) /\
     EndTime (ResetDecoder zeroDecoder block) = 65535 /\
     forall fuel, decodeSlots fuel (ResetDecoder zeroDecoder block) = None).
Proof.
  split; [split; vm_compute; reflexivity|].
  eexists _, _. split; [vm_compute; reflexivity|].
  split; [vm_compute; reflexivity|].
  apply decodeSlots_endless. vm_compute. reflexivity.
Qed.

(** C2: an encoder that never received [AppendTime], whatever
    [AppendValue] and [Reset] calls it received, returns (nil, nil) from
    [Bytes]. *)
Theorem empty_block_law (start : Z) (cs : list call) :
  forallb (fun c => negb (isAppendTime c)) cs = true ->
  fst (Bytes (performAll (NewTSDEncoder start) cs)) = (None, None).
Proof.
  intros Hcs.
  destruct (performAll_ok cs _ (NewTSDEncoder_ok start)) as (He & _ & Hc).
  apply Bytes_nil; [exact He|].
  rewrite Hc, (timeCalls_none cs Hcs). reflexivity.
Qed.

Lemma empty_block_law_witness :
  fst (Bytes (performAll (NewTSDEncoder 7)
                [CallAppendValue 5; CallReset; CallAppendValue 9]))
  = (None, None).
Proof.
  apply (empty_block_law 7 [CallAppendValue 5; CallReset; CallAppendValue 9]).
  reflexivity.
Defined.

(** C3, amended: an encoder created with start slot [startTime] that
    received [AppendTime], [AppendValue] and [Reset] calls, the last of
    them not a [Reset], [count] of them [AppendTime] with [count] not a
    multiple of 65536, returns a block with [startTime] little-endian in
    bytes 0-1 and the end slot [(startTime + count - 1) mod 65536] in
    bytes 2-3; a decoder [Reset] on it has no error and reports these
    two as [StartTime()] and [EndTime()]. *)
Theorem header_correct (start : Z) (cs : list call) (d0 : TSDDecoder) :
  is_u16 start ->
  isReset (List.last cs CallReset) = false ->
  Z.of_nat (timeCalls cs) mod 65536 <> 0 ->
  let endSlot := u16 (start + Z.of_nat (timeCalls cs) - 1) in
  exists block e1,
    Bytes (performAll (NewTSDEncoder start) cs) = ((Some block, None), e1) /\
    nth 0 block 0 = start mod 256 /\ nth 1 block 0 = start / 256 /\
    nth 2 block 0 = endSlot mod 256 /\ nth 3 block 0 = endSlot / 256 /\
    Error (ResetDecoder d0 block) = None /\
    StartTime (ResetDecoder d0 block) = start /\
    EndTime (ResetDecoder d0 block) = endSlot.
Proof.
  intros Hs Hlast Hn endSlot.
  destruct (performAll_ok cs _ (NewTSDEncoder_ok start)) as (He & Hst & Hc).
  pose proof (performAll_last_bits cs _ (NewTSDEncoder_ok start) Hlast)
    as Hbits.
  simpl in Hst, Hc.
  assert (Hend : u16 (start + count (performAll (NewTSDEncoder start) cs) - 1)
                 = endSlot).
  { unfold endSlot. rewrite Hc. simpl. apply u16_end. }
  destruct (Bytes_header _ He) as
    (block & e1 & pad & E & B0 & B1 & B2 & B3 & U1 & U2 & _ & _ & Hblk).
  { rewrite Hst. exact Hs. }
  { rewrite Hc. exact Hn. }
  rewrite Hst in *. rewrite Hend in *.
  exists block, e1. split; [exact E|].
  split; [exact B0|]. split; [exact B1|]. split; [exact B2|].
  split; [exact B3|].
  destruct (ResetDecoder_valid d0 block) as (r & Ed & _).
  { apply Hblk, Hbits. }
  rewrite Ed. simpl. auto.
Qed.

Lemma header_correct_witness :
  exists block e1,
    Bytes (performAll (NewTSDEncoder 300)
             [CallAppendTime true; CallAppendValue 5; CallReset;
              CallAppendTime false])
    = ((Some block, None), e1) /\
    nth 0 block 0 = 300 mod 256 /\ nth 1 block 0 = 300 / 256 /\
    nth 2 block 0 = u16 (300 + 2 - 1) mod 256 /\
    nth 3 block 0 = u16 (300 + 2 - 1) / 256 /\
    Error (ResetDecoder zeroDecoder block) = None /\
    StartTime (ResetDecoder zeroDecoder block) = 300 /\
    EndTime (ResetDecoder zeroDecoder block) = u16 (300 + 2 - 1).
Proof.
  apply (header_correct 300
           [CallAppendTime true; CallAppendValue 5; CallReset;
            CallAppendTime false]
           zeroDecoder).
  - unfold is_u16. lia.
  - reflexivity.
  - vm_compute. discriminate.
Defined.

(** C3 as stated fails in two ways.  After 65536 [AppendTime] calls the
    counter is back at zero and [Bytes] returns (nil, nil), a block
    with no header.  After a [Reset] as the last call the block is the
    four header bytes alone, which the decoder's [Reset] rejects: it
    has an error and reports neither slot. *)
Lemma header_lost_on_wrap_or_reset :
  fst (Bytes (performAll (NewTSDEncoder 0)
                (repeat (CallAppendTime true) (Z.to_nat 65536))))
  = (None, None) /\
  (exists e1,
     Bytes (performAll (NewTSDEncoder 10)
              [CallAppendTime true; CallAppendTime false; CallReset])
     = ((Some [10; 0; 11; 0], None), e1) /\
     Error (ResetDecoder zeroDecoder [10; 0; 11; 0])
     = Some "TSDDecoder resets with bad data"%string /\
     StartTime (ResetDecoder zeroDecoder [10; 0; 11; 0]) = 0 /\
     EndTime (ResetDecoder zeroDecoder [10; 0; 11; 0]) = 0).
Proof.
  split.
  - destruct (performAll_ok (repeat (CallAppendTime true) (Z.to_nat 65536)) _
                (NewTSDEncoder_ok 0)) as (He & _ & Hc).
    apply Bytes_nil; [exact He|]. rewrite Hc. vm_compute. reflexivity.
  - eexists. split; [vm_compute; reflexivity|].
    split; [reflexivity|]. split; reflexivity.
Qed.

(** C4, amended: when the encoder received at least one and at most
    65535 [AppendTime] calls and the last slot [startTime + count - 1]
    is at most 65535 (no wrap-around), the block that [Bytes] returns
    carries the start slot and an end slot that is not below it. *)
Theorem range_not_inverted (start : Z) (cs : list call) :
  is_u16 start -> 1 <= Z.of_nat (timeCalls cs) <= 65535 ->
  start + Z.of_nat (timeCalls cs) - 1 <= 65535 ->
  exists block e1,
    Bytes (performAll (NewTSDEncoder start) cs) = ((Some block, None), e1) /\
    fst (DecodeTSDTime block) = start /\
    snd (DecodeTSDTime block) = start + Z.of_nat (timeCalls cs) - 1 /\
    fst (DecodeTSDTime block) <= snd (DecodeTSDTime block).
Proof.
  intros Hs Hn Hmax. unfold is_u16 in Hs.
  destruct (performAll_ok cs _ (NewTSDEncoder_ok start)) as (He & Hst & Hc).
  simpl in Hst, Hc. rewrite u16_small in Hc by (unfold is_u16; lia).
  destruct (Bytes_header _ He) as
    (block & e1 & pad & E & _ & _ & _ & _ & U1 & U2 & _).
  { rewrite Hst. exact Hs. }
  { lia. }
  rewrite Hst in U1. rewrite Hst, Hc in U2.
  rewrite u16_small in U2 by (unfold is_u16; lia).
  exists block, e1. split; [exact E|]. unfold DecodeTSDTime. simpl.
  rewrite U1, U2. split; [reflexivity|]. split; [reflexivity|]. lia.
Qed.

Lemma range_not_inverted_witness :
  exists block e1,
    Bytes (performAll (NewTSDEncoder 65534)
             [CallAppendTime true; CallAppendValue 3; CallAppendTime false])
    = ((Some block, None), e1) /\
    fst (DecodeTSDTime block) = 65534 /\
    snd (DecodeTSDTime block) = 65534 + 2 - 1 /\
    fst (DecodeTSDTime block) <= snd (DecodeTSDTime block).
Proof.
  apply (range_not_inverted 65534
           [CallAppendTime true; CallAppendValue 3; CallAppendTime false]).
  - unfold is_u16. lia.
  - vm_compute. split; discriminate.
  - vm_compute. discriminate.
Defined.

(** C4 as stated fails: two [AppendTime] calls on an encoder that
    starts at slot 65535 give a block whose end slot, 0, is below its
    start slot. *)
Lemma range_inverted_on_wrap :
  exists block e1,
    Bytes (performAll (NewTSDEncoder 65535)
             [CallAppendTime true; CallAppendTime true])
    = ((Some block, None), e1) /\
    DecodeTSDTime block = (65535, 0) /\
    snd (DecodeTSDTime block) < fst (DecodeTSDTime block).
Proof.
  eexists _, _. split; [vm_compute; reflexivity|].
  split; vm_compute; reflexivity.
Qed.

(** The error of a decoder stays through every call but a reset. *)
Lemma HasValue_error d : derr d <> None -> derr (snd (HasValue d)) <> None.
Proof.
  intros Hd. unfold HasValue. destruct (streams d) as [[r x]|]; [|exact Hd].
  destruct (ReadBit r) as [r1 [v|e]]; simpl; [exact Hd|discriminate].
Qed.

Lemma dperform_error d c : derr d <> None -> derr (dperform d c) <> None.
Proof.
  intros Hd. destruct c as [| | |slot]; simpl.
  - unfold Next. destruct (_ <=? _); exact Hd.
  - apply HasValue_error, Hd.
  - unfold Value. destruct (streams d) as [[r x]|]; [|exact Hd].
    destruct (XORNext x r) as [[ok x1] r1]. destruct ok; exact Hd.
  - unfold HasValueWithSlot.
    destruct (_ || _); [exact Hd|].
    destruct (_ =? _); [|exact Hd].
    apply HasValue_error. exact Hd.
Qed.

Lemma dperformAll_error cs : forall d,
  derr d <> None -> derr (dperformAll d cs) <> None.
Proof.
  induction cs as [|c cs IH]; intros d Hd; [exact Hd|].
  apply IH, dperform_error, Hd.
Qed.

(** A decoder that never held a block still holds none after any call
    but a reset. *)
Lemma dperform_no_streams d c :
  streams d = None -> streams (dperform d c) = None.
Proof.
  intros Hd. destruct c as [| | |slot]; simpl.
  - unfold Next. destruct (_ <=? _); exact Hd.
  - unfold HasValue. rewrite Hd. exact Hd.
  - unfold Value. rewrite Hd. exact Hd.
  - unfold HasValueWithSlot.
    destruct (_ || _); [exact Hd|].
    destruct (_ =? _); [|exact Hd].
    unfold HasValue. simpl. rewrite Hd. exact Hd.
Qed.

Lemma dperformAll_no_streams cs : forall d,
  streams d = None -> streams (dperformAll d cs) = None.
Proof.
  induction cs as [|c cs IH]; intros d Hd; [exact Hd|].
  apply IH, dperform_no_streams, Hd.
Qed.

(** C5, amended: [Reset] on at most four bytes sets a non-nil error,
    which [Error()] returns.  The error stays non-nil through every
    [Next], [HasValue], [HasValueWithSlot] and [Value] call, until a
    [Reset] on more than four bytes clears it.  On a decoder that never
    held a block [HasValue()] is false and [Value()] is 0. *)
Theorem short_block_rejected (d : TSDDecoder) (data : list Z)
  (cs : list dcall) :
  (length data <= 4)%nat ->
  let d1 := ResetDecoder d data in
  let d2 := dperformAll d1 cs in
  Error d1 <> None /\
  Error d2 <> None /\
  (streams d = None -> fst (HasValue d2) = false /\ fst (Value d2) = 0) /\
  (forall data', (4 < length data')%nat ->
     Error (ResetDecoder d2 data') = None).
Proof.
  intros Hlen d1 d2.
  assert (E1 : d1 = {| dstartTime := dstartTime d; dendTime := dendTime d;
                       streams := streams d; idx := idx d;
                       derr := Some "TSDDecoder resets with bad data"%string |}).
  { unfold d1, ResetDecoder.
    destruct (Nat.leb_spec (length data) 4); [reflexivity|lia]. }
  assert (Herr : Error d1 <> None) by (rewrite E1; discriminate).
  split; [exact Herr|].
  split; [apply dperformAll_error, Herr|].
  split.
  - intros Hnone.
    assert (Hs : streams d2 = None).
    { apply dperformAll_no_streams. rewrite E1. exact Hnone. }
    unfold HasValue, Value. rewrite Hs. auto.
  - intros data' Hlen'.
    destruct (ResetDecoder_valid d2 data' Hlen') as (r & E & _).
    rewrite E. reflexivity.
Qed.

Lemma short_block_rejected_witness :
  let d1 := ResetDecoder zeroDecoder [1; 2; 3] in
  let d2 := dperformAll d1 [CallNext; CallHasValue; CallValue] in
  Error d1 <> None /\
  Error d2 <> None /\
  (streams zeroDecoder = None ->
   fst (HasValue d2) = false /\ fst (Value d2) = 0) /\
  (forall data', (4 < length data')%nat ->
     Error (ResetDecoder d2 data') = None).
Proof.
  apply (short_block_rejected zeroDecoder [1; 2; 3]
           [CallNext; CallHasValue; CallValue]).
  simpl. lia.
Defined.

(** C5 as stated fails: after a [Reset] on three bytes a new decoder
    still answers [Next()] with true once, and a decoder that held a
    block goes on through it, slot and value. *)
Lemma short_block_still_iterates :
  fst (Next (ResetDecoder zeroDecoder [1; 2; 3])) = true /\
  let block := [10; 0; 12; 0; 128; 0; 0; 0; 0; 0; 0; 21; 63; 224; 64] in
  let d := ResetDecoder (ResetDecoder zeroDecoder block) [1; 2; 3] in
  Error d <> None /\
  fst (Next d) = true /\
  fst (HasValue (snd (Next d))) = true /\
  fst (Value (snd (HasValue (snd (Next d))))) = 42.
Proof.
  split; [reflexivity|]. vm_compute.
  split; [discriminate|]. repeat split.
Qed.

(** C6: once an error is latched, [AppendTime] and [AppendValue] leave
    the encoder as it is, so does any run of them, and [Bytes] and
    [BytesWithoutTime] return nil and that error. *)
Theorem encoder_error_sticky (e : tsdEncoder) (er : error) (cs : list call) :
  err e = Some er ->
  forallb (fun c => negb (isReset c)) cs = true ->
  (forall slot, AppendTime e slot = e) /\
  (forall value, AppendValue e value = e) /\
  performAll e cs = e /\
  Bytes e = ((None, Some er), e) /\
  BytesWithoutTime e = ((None, Some er), e).
Proof.
  intros He Hcs.
  assert (Ht : forall slot, AppendTime e slot = e)
    by (intros slot; unfold AppendTime; rewrite He; reflexivity).
  assert (Hv : forall value, AppendValue e value = e)
    by (intros value; unfold AppendValue; rewrite He; reflexivity).
  split; [exact Ht|]. split; [exact Hv|]. split.
  - induction cs as [|c cs IH]; [reflexivity|].
    simpl in Hcs. apply andb_true_iff in Hcs as [Hc Hcs].
    change (performAll e (c :: cs)) with (performAll (perform e c) cs).
    destruct c as [slot|value|]; simpl perform.
    + rewrite Ht. apply IH, Hcs.
    + rewrite Hv. apply IH, Hcs.
    + discriminate Hc.
  - unfold Bytes, BytesWithoutTime. rewrite He. auto.
Qed.

Lemma encoder_error_sticky_witness :
  let e := {| startTime := 3; bitWriter := bit.NewWriter;
              values := NewXOREncoder; count := 2;
              err := Some "short write"%string |} in
  (forall slot, AppendTime e slot = e) /\
  (forall value, AppendValue e value = e) /\
  performAll e [CallAppendTime true; CallAppendValue 8] = e /\
  Bytes e = ((None, Some "short write"%string), e) /\
  BytesWithoutTime e = ((None, Some "short write"%string), e).
Proof.
  apply (encoder_error_sticky
           {| startTime := 3; bitWriter := bit.NewWriter;
              values := NewXOREncoder; count := 2;
              err := Some "short write"%string |}
           "short write"%string [CallAppendTime true; CallAppendValue 8]).
  - reflexivity.
  - reflexivity.
Defined.

(** C10, amended: [Reset] empties the bit buffer and the bit writer and
    puts the XOR encoder back to its initial state; the start slot, the
    counter and the error stay.  So an encoder with a latched error
    still returns it from [Bytes] after [Reset]; and an encoder that
    took [n] slots before [Reset] and [k] after it returns, when
    [n + k] is not a multiple of 65536, a block whose header has the end
    slot [(startTime + n + k - 1) mod 65536] and whose payload holds
    only the bits of the [k] later slots. *)
Theorem encoder_reset_frame (e : tsdEncoder) :
  (startTime (Reset e) = startTime e /\ count (Reset e) = count e /\
   err (Reset e) = err e /\
   bitWriter (Reset e) = bit.NewWriter /\ values (Reset e) = NewXOREncoder) /\
  (forall er, err e = Some er -> fst (Bytes (Reset e)) = (None, Some er)) /\
  (forall start l1 l2,
     is_u16 start -> e = encodeSlots (NewTSDEncoder start) l1 ->
     Z.of_nat (length l1 + length l2) mod 65536 <> 0 ->
     exists block e1 pad,
       Bytes (encodeSlots (Reset e) l2) = ((Some block, None), e1) /\
       DecodeTSDTime block
       = (start, u16 (start + Z.of_nat (length l1 + length l2) - 1)) /\
       flat_map byte_bits (skipn 4 block) = slotBits NewXOREncoder l2 ++ pad /\
       (length pad < 8)%nat).
Proof.
  split; [repeat split|]. split.
  - intros er He. unfold Bytes. simpl. rewrite He. reflexivity.
  - intros start l1 l2 Hs -> Hn.
    destruct (encodeSlots_written l1 _ (NewTSDEncoder_ok start))
      as (He1 & Hst1 & Hc1 & _).
    destruct (encodeSlots_written l2 _ (Reset_ok _ He1))
      as (He2 & Hst2 & Hc2 & Hw2).
    simpl in Hst1, Hc1, Hst2, Hc2, Hw2.
    rewrite Hst1 in Hst2. rewrite Hc1, u16_add_l in Hc2.
    replace (0 + Z.of_nat (length l1) + Z.of_nat (length l2))
      with (Z.of_nat (length l1 + length l2)) in Hc2 by lia.
    destruct (Bytes_header _ He2) as
      (block & e1 & pad & E & _ & _ & _ & _ & U1 & U2 & B & Hp & _).
    { rewrite Hst2. exact Hs. }
    { rewrite Hc2. exact Hn. }
    rewrite Hst2 in U1. rewrite Hst2, Hc2, u16_end in U2. rewrite Hw2 in B.
    exists block, e1, pad. split; [exact E|].
    unfold DecodeTSDTime. rewrite U1, U2. auto.
Qed.

Lemma encoder_reset_frame_witness :
  (exists block e1 pad,
     Bytes (encodeSlots
              (Reset (encodeSlots (NewTSDEncoder 10) [Some 42; None]))
              [None; Some 5])
     = ((Some block, None), e1) /\
     DecodeTSDTime block = (10, u16 (10 + Z.of_nat (2 + 2) - 1)) /\
     flat_map byte_bits (skipn 4 block)
     = slotBits NewXOREncoder [None; Some 5] ++ pad /\
     (length pad < 8)%nat) /\
  fst (Bytes (Reset {| startTime := 3; bitWriter := bit.NewWriter;
                       values := NewXOREncoder; count := 2;
                       err := Some "short write"%string |}))
  = (None, Some "short write"%string).
Proof.
  split.
  - apply (proj2 (proj2 (encoder_reset_frame
                           (encodeSlots (NewTSDEncoder 10) [Some 42; None])))
             10 [Some 42; None] [None; Some 5]).
    + unfold is_u16. lia.
    + reflexivity.
    + vm_compute. discriminate.
  - apply (proj1 (proj2 (encoder_reset_frame
                           {| startTime := 3; bitWriter := bit.NewWriter;
                              values := NewXOREncoder; count := 2;
                              err := Some "short write"%string |}))
             "short write"%string).
    reflexivity.
Defined.

(** C10 as stated fails: 65535 slots before [Reset] and one after it
    bring the counter back to zero, and [Bytes] returns (nil, nil), no
    header at all, with the later slot's bit in the buffer. *)
Lemma reset_header_lost_on_wrap :
  let e := encodeSlots (NewTSDEncoder 0) (repeat None (Z.to_nat 65535)) in
  let e1 := encodeSlots (Reset e) [None] in
  fst (Bytes e1) = (None, None) /\ fst (BytesWithoutTime e1) = (Some [0], None).
Proof.
  vm_compute. split; reflexivity.
Qed.

End Codec.

(** ** The memory database: writes *)

Section Writes.

Import memdb.

Context `{StoreSizes}.

Variable p : MetricPoint.

Lemma skipn_nth_error {A : Type} (l : list A) (i : nat) (x : A) :
  nth_error l i = Some x -> skipn i l = x :: skipn (S i) l.
Proof.
  revert i. induction l as [|y l IH]; intros [|i] Hn; try discriminate.
  - injection Hn as ->. reflexivity.
  - apply (IH i Hn).
Qed.

Lemma assign_cons slot ids k id ty v ws :
  nth_error ids k = Some id ->
  assign slot ids k ((ty, v) :: ws)
  = {| fwField := id; fwType := ty; fwSlot := slot; fwValue := v |}
      :: assign slot ids (S k) ws.
Proof.
  intros Hn. unfold assign. rewrite (skipn_nth_error ids k id Hn). reflexivity.
Qed.

Lemma assign_nil slot ids k : assign slot ids k [] = [].
Proof. unfold assign. destruct (skipn k ids); reflexivity. Qed.

(** [writeLinField] either makes its [fStore.Write] call, and then the
    series store holds the value and all it held before, or finds no
    page and changes no store. *)
Lemma writeLinField_cases c slot fid ty v :
  (exists c1 n,
     writeLinField c slot fid ty v = (c1, inl n) /\
     calls c1 = calls c ++
       [{| fwField := fid; fwType := ty; fwSlot := slot; fwValue := v |}] /\
     fieldIDIdx c1 = fieldIDIdx c /\
     (pagesLeft (buf (db c)) <= S (pagesLeft (buf (db c1))))%nat /\
     holds (theTStore c1)
       {| fwField := fid; fwType := ty; fwSlot := slot; fwValue := v |} /\
     (forall x, holds (theTStore c) x -> holds (theTStore c1) x))
  \/
  (exists c1,
     writeLinField c slot fid ty v = (c1, inr errNoPage) /\
     calls c1 = calls c /\ fieldIDIdx c1 = fieldIDIdx c /\
     theTStore c1 = theTStore c /\ theMStore c1 = theMStore c /\
     GetFStore (theTStore c) fid = None /\
     pagesLeft (buf (db c)) = 0%nat).
Proof.
  assert (Hkeep : forall g f0 f1 x,
            (forall y, In y (fsData f0) -> In y (fsData f1)) ->
            (g !! fid = Some f0 \/ g !! fid = None) ->
            holds {| fStores := g |} x ->
            holds {| fStores := <[fid := f1]> g |} x).
  { intros g f0 f1 x Hsub Hold (f & Hf & Hin). unfold holds, GetFStore in *.
    simpl in *. destruct (decide (fid = fwField x)) as [Heq|Hne].
    - exists f1. rewrite <- Heq, lookup_insert_eq. split; [reflexivity|].
      rewrite <- Heq in Hf. destruct Hold as [Hold|Hold]; [|congruence].
      apply Hsub. congruence.
    - exists f. rewrite lookup_insert_ne by exact Hne. auto. }
  destruct c as [md m [g] i sz wr cl].
  unfold writeLinField, GetFStore. simpl.
  destruct (g !! fid) as [f|] eqn:Hget.
  - left. unfold writeToFStore, fStoreWrite. eexists _, _.
    split; [reflexivity|]. simpl.
    split; [reflexivity|]. split; [reflexivity|]. split; [lia|]. split.
    + eexists. unfold GetFStore. simpl. rewrite lookup_insert_eq.
      split; [reflexivity|]. simpl. apply in_or_app. right. left. reflexivity.
    + intros x Hx. apply (Hkeep g f); auto.
      simpl. intros y Hy. apply in_or_app. left. exact Hy.
  - unfold AllocPage. destruct (pagesLeft (buf md)) as [|n] eqn:Hp.
    + right. eexists. split; [reflexivity|]. simpl. auto 10.
    + left. unfold InsertFStore, writeToFStore, fStoreWrite, putFStore.
      eexists _, _. split; [reflexivity|]. simpl.
      split; [reflexivity|]. split; [reflexivity|]. split; [lia|]. split.
      * eexists. unfold GetFStore. simpl. rewrite lookup_insert_eq.
        split; [reflexivity|]. simpl. left. reflexivity.
      * intros x Hx.
        apply (Hkeep _ (newFieldStore (pagesUsed (buf md)) fid)).
        { simpl. intros y Hy. right. exact Hy. }
        { left. apply lookup_insert_eq. }
        apply (Hkeep g (newFieldStore 0 fid)); auto.
Qed.

(** The three ways [writeField] can end. *)
Lemma writeField_cases ty v c :
  (nth_error (FieldIDs p) (fieldIDIdx c) = None /\
   writeField p ty v c = (c, Panicked))
  \/
  (exists id c1,
     nth_error (FieldIDs p) (fieldIDIdx c) = Some id /\
     writeField p ty v c = (c1, Done) /\
     calls c1 = calls c ++
       [{| fwField := id; fwType := ty; fwSlot := SlotIndex p;
           fwValue := v |}] /\
     fieldIDIdx c1 = S (fieldIDIdx c) /\
     (pagesLeft (buf (db c)) <= S (pagesLeft (buf (db c1))))%nat /\
     holds (theTStore c1)
       {| fwField := id; fwType := ty; fwSlot := SlotIndex p; fwValue := v |} /\
     (forall x, holds (theTStore c) x -> holds (theTStore c1) x))
  \/
  (exists id c1,
     nth_error (FieldIDs p) (fieldIDIdx c) = Some id /\
     writeField p ty v c = (c1, Failed errNoPage) /\
     calls c1 = calls c /\ theTStore c1 = theTStore c /\
     pagesLeft (buf (db c)) = 0%nat).
Proof.
  unfold writeField.
  destruct (nth_error (FieldIDs p) (fieldIDIdx c)) as [id|] eqn:Hid;
    [|left; auto].
  right.
  destruct (writeLinField_cases c (SlotIndex p) id ty v)
    as [(c1 & n & E & H1 & H2 & H3 & H4 & H5)
       |(c1 & E & H1 & H2 & H3 & _ & _ & H6)]; rewrite E.
  - left. exists id, (afterWrite c1 n). simpl. rewrite H2. auto 10.
  - right. exists id, c1. auto 10.
Qed.

Lemma runWrites_app ws1 ws2 c :
  runWrites p (ws1 ++ ws2) c = seq (runWrites p ws1) (runWrites p ws2) c.
Proof.
  revert c. induction ws1 as [|[ty v] ws1 IH]; intros c; [reflexivity|].
  simpl. unfold seq in *. simpl.
  destruct (writeField p ty v c) as [c1 [|e|]]; [apply IH|reflexivity..].
Qed.

(** With a field id for every write, all the writes are made, each with
    the field id at its position, unless one of them fails for want of
    a page. *)
Lemma runWrites_unfailed ws : forall c,
  (fieldIDIdx c + length ws <= length (FieldIDs p))%nat ->
  (forall e, snd (runWrites p ws c) <> Failed e) ->
  exists c1,
    runWrites p ws c = (c1, Done) /\
    calls c1 = calls c ++ assign (SlotIndex p) (FieldIDs p) (fieldIDIdx c) ws /\
    fieldIDIdx c1 = (fieldIDIdx c + length ws)%nat.
Proof.
  induction ws as [|[ty v] ws IH]; intros c Hids Hnf.
  - exists c. rewrite assign_nil, app_nil_r, Nat.add_0_r. auto.
  - simpl in Hids, Hnf. simpl.
    destruct (writeField_cases ty v c)
      as [[Hn _]|[(id & c1 & Hn & E & H1 & H2 & _)
                 |(id & c1 & _ & E & _)]].
    + apply nth_error_None in Hn. lia.
    + rewrite E in *. destruct (IH c1) as (c2 & E2 & I1 & I2); [lia|exact Hnf|].
      exists c2. split; [exact E2|].
      rewrite I1, H1, H2, (assign_cons _ _ _ id) by exact Hn.
      rewrite <- app_assoc. split; [reflexivity|]. lia.
    + rewrite E in Hnf. exfalso. apply (Hnf errNoPage). reflexivity.
Qed.


(** The loop over the simple fields makes the writes they call for. *)
Lemma simple_fields_run fs : forall c,
  forEach fs (writeSimpleField p) c = runWrites p (simpleWrites fs) c.
Proof.
  induction fs as [|f fs IH]; intros c; [reflexivity|].
  cbn [forEach simpleWrites flat_map].
  rewrite runWrites_app. unfold seq, writeSimpleField.
  destruct (protoMetricsV1.Type_ f); simpl.
  - apply IH.
  - destruct (writeField _ _ _ c) as [c1 [|e|]]; [apply IH|reflexivity..].
  - destruct (writeField _ _ _ c) as [c1 [|e|]]; [apply IH|reflexivity..].
  - destruct (writeField _ _ _ c) as [c1 [|e|]]; [apply IH|reflexivity..].
Qed.

(** The loop over the explicit bounds, from index [i] on: with a value
    for every bound it makes one histogram write per bound; in any case
    it does so unless it panics. *)
Lemma buckets_run cf n : forall i c,
  ((i + n <= length (protoMetricsV1.Values cf))%nat \/
   snd (forEach (List.seq i n) (writeBucket p cf) c) <> Panicked) ->
  forEach (List.seq i n) (writeBucket p cf) c
  = runWrites p
      (map (fun v => (field.HistogramField, v))
         (firstn n (skipn i (protoMetricsV1.Values cf)))) c.
Proof.
  induction n as [|n IH]; intros i c Hc; [reflexivity|].
  cbn [List.seq forEach] in *. unfold seq at 1 in Hc. unfold seq at 1.
  unfold writeBucket at 1 in Hc. unfold writeBucket at 1.
  destruct (nth_error (protoMetricsV1.Values cf) i) as [v|] eqn:Hv.
  - rewrite (skipn_nth_error _ _ _ Hv). cbn [firstn map runWrites].
    destruct (nth_error (FieldIDs p) (fieldIDIdx c)) as [id|] eqn:Hid.
    + destruct (writeField p field.HistogramField v c) as [c1 [|e|]];
        [|reflexivity..].
      apply IH. destruct Hc as [Hc|Hc]; [left; lia|right; exact Hc].
    + unfold writeField. rewrite Hid. reflexivity.
  - destruct Hc as [Hc|Hc].
    + apply nth_error_None in Hv. lia.
    + exfalso. apply Hc.
      destruct (nth_error (FieldIDs p) (fieldIDIdx c)); reflexivity.
Qed.

(** The compound field: the writes [compoundWrites] lists, unless the
    loop over the bounds panics for want of a value. *)
Lemma compound_run cf c :
  ((length (protoMetricsV1.ExplicitBounds cf)
    <= length (protoMetricsV1.Values cf))%nat \/
   snd (writeCompound p cf c) <> Panicked) ->
  writeCompound p cf c = runWrites p (compoundWrites cf) c.
Proof.
  intros Hc. unfold writeCompound, compoundWrites in *.
  set (bk := forEach _ (writeBucket p cf)) in *.
  set (ws := map _ (firstn _ _)).
  assert (Hbk : forall c1,
            ((length (protoMetricsV1.ExplicitBounds cf)
              <= length (protoMetricsV1.Values cf))%nat \/
             snd (bk c1) <> Panicked) -> bk c1 = runWrites p ws c1).
  { intros c1 Hc1. unfold bk, ws. rewrite (buckets_run cf _ 0 c1); [reflexivity|].
    destruct Hc1; [left; simpl; lia|right; assumption]. }
  clearbody bk ws.
  unfold seq, when, skip in *.
  destruct (gt0 (protoMetricsV1.Min cf)), (gt0 (protoMetricsV1.Max cf));
    cbn [app runWrites] in *;
    repeat
      match goal with
      | |- context [writeField p ?ty ?v ?c0] =>
          destruct (writeField p ty v c0) as [? [| |]]; try reflexivity
      end;
    apply Hbk; exact Hc.
Qed.

(** The body of [WriteWithoutLock] makes the writes the point calls
    for, unless it panics. *)
Lemma body_run m c :
  Proto p = Some m ->
  (match protoMetricsV1.Compound m with
   | Some cf => (length (protoMetricsV1.ExplicitBounds cf)
                 <= length (protoMetricsV1.Values cf))%nat
   | None => True
   end \/ snd (body p c) <> Panicked) ->
  body p c = runWrites p (pointWrites m) c.
Proof.
  intros Hm Hc. unfold body, pointWrites in *. rewrite Hm in *.
  rewrite runWrites_app. unfold seq in *.
  rewrite simple_fields_run in *.
  destruct (runWrites p (simpleWrites _) c) as [c1 [|e|]]; try reflexivity.
  destruct (protoMetricsV1.Compound m) as [cf|]; [|reflexivity].
  apply compound_run. exact Hc.
Qed.

Lemma Get_Put s k m : Get (Put s k m) k = Some m.
Proof.
  induction s as [|[k0 m0] s IH]; simpl.
  - rewrite Z.eqb_refl. reflexivity.
  - destruct (Z.eqb_spec k0 k) as [->|Hne]; simpl.
    + rewrite Z.eqb_refl. reflexivity.
    + destruct (Z.eqb_spec k0 k); [contradiction|]. exact IH.
Qed.


Lemma enter_fresh md :
  calls (enter md p) = [] /\ fieldIDIdx (enter md p) = 0%nat /\
  buf (db (enter md p)) = buf md.
Proof.
  unfold enter, getOrCreateMStore.
  destruct (Get (mStores md) (MetricID p)) as [m|];
    destruct (GetOrCreateTStore _ (SeriesID p)); simpl; auto.
Qed.

End Writes.

(** ** The memory database: what the specification says of it *)

Section Database.

Import memdb.

Context `{StoreSizes}.

Lemma assign_length slot ids k ws :
  (k + length ws <= length ids)%nat ->
  length (assign slot ids k ws) = length ws.
Proof.
  intros Hk. unfold assign.
  rewrite length_map, length_combine, length_skipn. lia.
Qed.

Lemma assign_app slot ids ws1 : forall k ws2,
  (k + length ws1 <= length ids)%nat ->
  assign slot ids k (ws1 ++ ws2)
  = assign slot ids k ws1 ++ assign slot ids (k + length ws1) ws2.
Proof.
  induction ws1 as [|[ty v] ws1 IH]; intros k ws2 Hk.
  - rewrite assign_nil, Nat.add_0_r. reflexivity.
  - simpl in Hk.
    destruct (nth_error ids k) as [id|] eqn:Hid;
      [|apply nth_error_None in Hid; lia].
    simpl app. rewrite !(assign_cons _ _ _ id) by exact Hid.
    rewrite IH by lia. simpl. do 3 f_equal. lia.
Qed.

(** C7, amended: for a point whose compound field has [Min > 0] and
    [Max > 0], whose [Values] has an entry for every explicit bound and
    whose [FieldIDs] has an entry for every write, [WriteWithoutLock]
    makes, when no page allocation fails (the call returns no error),
    after the writes of the simple fields exactly
    [2 + 2 + len(ExplicitBounds)] field writes, in the order min, max,
    sum, count and one per explicit bound, each with the field id at the
    next position of [FieldIDs]. *)
Theorem compound_expansion (md : memoryDatabase) (p : MetricPoint)
  (m : protoMetricsV1.Metric) (cf : protoMetricsV1.CompoundField) :
  Proto p = Some m -> protoMetricsV1.Compound m = Some cf ->
  gt0 (protoMetricsV1.Min cf) = true -> gt0 (protoMetricsV1.Max cf) = true ->
  let simple := simpleWrites (protoMetricsV1.SimpleFields m) in
  let k := length simple in
  let n := length (protoMetricsV1.ExplicitBounds cf) in
  let compound :=
    [(field.MinField, protoMetricsV1.Min cf);
     (field.MinField, protoMetricsV1.Max cf);
     (field.SumField, protoMetricsV1.Sum cf);
     (field.SumField, protoMetricsV1.Count cf)]
    ++ map (fun v => (field.HistogramField, v))
         (firstn n (protoMetricsV1.Values cf)) in
  (n <= length (protoMetricsV1.Values cf))%nat ->
  (k + (2 + 2 + n) <= length (FieldIDs p))%nat ->
  (forall e, snd (fst (WriteWithoutLock md p)) <> Failed e) ->
  exists md1,
    WriteWithoutLock md p
    = (md1, Done,
       assign (SlotIndex p) (FieldIDs p) 0 simple
       ++ assign (SlotIndex p) (FieldIDs p) k compound) /\
    length (assign (SlotIndex p) (FieldIDs p) k compound) = (2 + 2 + n)%nat.
Proof.
  intros Hm Hcf Hmin Hmax simple k n compound Hvals Hids Hnf.
  assert (Hplan : pointWrites m = simple ++ compound).
  { unfold pointWrites, compoundWrites. rewrite Hcf, Hmin, Hmax. reflexivity. }
  assert (Hlen : length compound = (2 + 2 + n)%nat).
  { unfold compound. rewrite length_app, length_map, length_firstn.
    simpl. lia. }
  destruct (enter_fresh p md) as (Hc0 & Hi0 & Hb0).
  assert (Hbody : body p (enter md p)
                  = runWrites p (pointWrites m) (enter md p))
    by (apply (body_run p m); [exact Hm|left; rewrite Hcf; exact Hvals]).
  destruct (runWrites_unfailed p (pointWrites m) (enter md p))
    as (c1 & E & Hc1 & _).
  { rewrite Hi0, Hplan, length_app, Hlen. fold k. lia. }
  { intros e He. apply (Hnf e). unfold WriteWithoutLock. rewrite Hbody.
    destruct (runWrites p (pointWrites m) (enter md p)) as [c o].
    simpl in He. subst o. reflexivity. }
  exists (settle p (atEnd p c1)).
  unfold WriteWithoutLock. rewrite Hbody.
  rewrite E. simpl. rewrite Hc1, Hc0, Hi0, Hplan. simpl app.
  rewrite assign_app by (fold k; lia). simpl.
  split; [reflexivity|]. rewrite assign_length; [exact Hlen|]. lia.
Qed.


End Database.

Section DatabaseExamples.

Import memdb.

Lemma compound_expansion_witness :
  exists md1,
    WriteWithoutLock (H := unitSizes) (emptyDatabase 6) histogramPoint
    = (md1, Done,
       [{| fwField := 1; fwType := field.MinField; fwSlot := 10;
           fwValue := 1 |};
        {| fwField := 2; fwType := field.MinField; fwSlot := 10;
           fwValue := 9 |};
        {| fwField := 3; fwType := field.SumField; fwSlot := 10;
           fwValue := 20 |};
        {| fwField := 4; fwType := field.SumField; fwSlot := 10;
           fwValue := 4 |};
        {| fwField := 5; fwType := field.HistogramField; fwSlot := 10;
           fwValue := 2 |};
        {| fwField := 6; fwType := field.HistogramField; fwSlot := 10;
           fwValue := 2 |}]) /\
    length
      (assign 10 [1; 2; 3; 4; 5; 6] 0
         [(field.MinField, 1%float); (field.MinField, 9%float);
          (field.SumField, 20%float); (field.SumField, 4%float);
          (field.HistogramField, 2%float); (field.HistogramField, 2%float)])
    = (2 + 2 + 2)%nat.
Proof.
  refine (compound_expansion (H := unitSizes) (emptyDatabase 6) histogramPoint
            _ _ eq_refl eq_refl eq_refl eq_refl _ _ _);
    [simpl; lia|simpl; lia|intros e; vm_compute; discriminate].
Defined.

(** C7 as stated fails: with three pages left the fourth write of the
    histogram point fails and three writes are made, not six; with two
    field ids the third write panics on the index; with one value for
    two explicit bounds the second bucket write panics on the index. *)
Lemma compound_expansion_cut_short :
  (snd (fst (WriteWithoutLock (H := unitSizes) (emptyDatabase 3)
               histogramPoint)) = Failed errNoPage /\
   length (snd (WriteWithoutLock (H := unitSizes) (emptyDatabase 3)
                  histogramPoint)) = 3%nat) /\
  (snd (fst (WriteWithoutLock (H := unitSizes) (emptyDatabase 6)
               histogramPointTwoIDs)) = Panicked /\
   length (snd (WriteWithoutLock (H := unitSizes) (emptyDatabase 6)
                  histogramPointTwoIDs)) = 2%nat) /\
  (snd (fst (WriteWithoutLock (H := unitSizes) (emptyDatabase 6)
               histogramPointOneValue)) = Panicked /\
   length (snd (WriteWithoutLock (H := unitSizes) (emptyDatabase 6)
                  histogramPointOneValue)) = 5%nat).
Proof.
  split; [|split]; split; vm_compute; reflexivity.
Qed.


End DatabaseExamples.

(** ** The memory database: flush *)

Section Flush.

Import memdb.

Lemma flushEntry_ok k m fl :
  failOn fl k = None ->
  flushEntry k m fl = (record fl (FlushedMetric k), None).
Proof. intros Hk. unfold flushEntry, FlushMetricsDataTo. simpl. rewrite Hk. reflexivity. Qed.

Lemma flushEntry_failed k m fl e :
  failOn fl k = Some e ->
  flushEntry k m fl = (record fl (FlushedMetric k), Some e).
Proof. intros Hk. unfold flushEntry, FlushMetricsDataTo. simpl. rewrite Hk. reflexivity. Qed.

(** The walk when every metric flushes: all are visited, in order. *)
Lemma WalkEntry_all s : forall fl,
  Forall (fun k => failOn fl k = None) (map fst s) ->
  exists fl1,
    WalkEntry s flushEntry fl = (fl1, None) /\
    failOn fl1 = failOn fl /\ commitErr fl1 = commitErr fl /\
    received fl1 = received fl ++ map FlushedMetric (map fst s).
Proof.
  induction s as [|[k m] s IH]; intros fl Hok.
  - exists fl. simpl. rewrite app_nil_r. auto.
  - simpl in Hok. inversion Hok as [|k0 ks Hk Hks]; subst k0 ks.
    simpl. rewrite (flushEntry_ok k m fl Hk).
    destruct (IH (record fl (FlushedMetric k)) Hks) as (fl1 & E & F1 & F2 & F3).
    exists fl1. split; [exact E|]. split; [exact F1|]. split; [exact F2|].
    rewrite F3. simpl. rewrite <- app_assoc. reflexivity.
Qed.

(** The walk when a metric fails to flush: it stops there. *)
Lemma WalkEntry_stops pre : forall s fl k post e,
  map fst s = pre ++ k :: post ->
  Forall (fun k => failOn fl k = None) pre ->
  failOn fl k = Some e ->
  exists fl1,
    WalkEntry s flushEntry fl = (fl1, Some e) /\
    received fl1
    = received fl ++ map FlushedMetric pre ++ [FlushedMetric k].
Proof.
  induction pre as [|k0 pre IH]; intros s fl k post e Hs Hok Hk;
    destruct s as [|[k1 m] s]; try discriminate Hs;
    simpl in Hs; injection Hs as -> Hs.
  - simpl. rewrite (flushEntry_failed k m fl e Hk).
    eexists. split; [reflexivity|]. reflexivity.
  - inversion Hok as [|k2 ks Hk0 Hpre]; subst k2 ks.
    simpl. rewrite (flushEntry_ok k0 m fl Hk0).
    destruct (IH s (record fl (FlushedMetric k0)) k post e Hs Hpre Hk)
      as (fl1 & E & F).
    exists fl1. split; [exact E|].
    rewrite F. simpl. rewrite <- app_assoc. reflexivity.
Qed.

(** C9: [FlushFamilyTo] flushes the metric stores in the order of the
    walk.  When every flush succeeds it then calls [Commit] once and
    returns what [Commit] returns.  When the flush of a metric fails,
    the metrics after it are not flushed, [Commit] is not called and the
    error of that flush is returned. *)
Theorem flush_all_or_nothing (md : memoryDatabase) (fl : Flusher) :
  let keys := map fst (mStores md) in
  let r := FlushFamilyTo md fl in
  (Forall (fun k => failOn fl k = None) keys ->
   received (fst r)
   = received fl ++ map FlushedMetric keys ++ [Committed] /\
   snd r = commitErr fl) /\
  (forall pre k post e,
     keys = pre ++ k :: post ->
     Forall (fun k => failOn fl k = None) pre ->
     failOn fl k = Some e ->
     received (fst r)
     = received fl ++ map FlushedMetric pre ++ [FlushedMetric k] /\
     snd r = Some e).
Proof.
  intros keys r. unfold r, FlushFamilyTo. split.
  - intros Hok.
    destruct (WalkEntry_all (mStores md) fl Hok) as (fl1 & E & _ & F2 & F3).
    rewrite E. simpl. rewrite F2, F3, <- app_assoc. auto.
  - intros pre k post e Hkeys Hok Hk.
    destruct (WalkEntry_stops pre (mStores md) fl k post e Hkeys Hok Hk)
      as (fl1 & E & F).
    rewrite E. simpl. auto.
Qed.

Lemma flush_all_or_nothing_witness :
  (received (fst (FlushFamilyTo threeMetrics (flusherFailingOn 9)))
   = [FlushedMetric 1; FlushedMetric 2; FlushedMetric 3; Committed] /\
   snd (FlushFamilyTo threeMetrics (flusherFailingOn 9)) = None) /\
  (received (fst (FlushFamilyTo threeMetrics (flusherFailingOn 2)))
   = [FlushedMetric 1; FlushedMetric 2] /\
   snd (FlushFamilyTo threeMetrics (flusherFailingOn 2))
   = Some "flush failed"%string).
Proof.
  split.
  - apply (proj1 (flush_all_or_nothing threeMetrics (flusherFailingOn 9))).
    repeat constructor.
  - apply (proj2 (flush_all_or_nothing threeMetrics (flusherFailingOn 2))
             [1] 2 [3] "flush failed"%string).
    + reflexivity.
    + repeat constructor.
    + reflexivity.
Defined.

End Flush.

(** * Further facts about the codec *)

Section DecoderCalls.

Import bit encoding.

Local Arguments Z.testbit : simpl never.
Local Arguments XORNext : simpl never.
Local Arguments ReadBit : simpl never.

(** The loop of [decodeRun] sees what the loop of [decodeSlots] sees. *)
Lemma decodeRun_decodeSlots fuel : forall d,
  decodeSlots fuel d = option_map fst (decodeRun fuel d).
Proof.
  induction fuel as [|fuel IH]; intros d; [reflexivity|].
  simpl. destruct (Next d) as [[|] d1]; [|reflexivity].
  destruct (HasValue d1) as [[|] d2].
  - destruct (Value d2) as [v d3]. rewrite IH.
    destruct (decodeRun fuel d3) as [[l d4]|]; reflexivity.
  - rewrite IH. destruct (decodeRun fuel d2) as [[l d4]|]; reflexivity.
Qed.

(** The loop on a decoder that stands before the bits of [l]: it ends
    after [length l] slots, and the decoder keeps its range and its
    error. *)
Lemma decodeRun_slotBits l : forall fuel d r xd x rest,
  streams d = Some (r, xd) -> ReaderOk r ->
  remaining r = slotBits x l ++ rest ->
  xorInSync x xd -> slotsOk l ->
  0 <= dstartTime d -> 0 <= idx d ->
  dstartTime d + idx d + Z.of_nat (length l) = dendTime d + 1 ->
  dendTime d < 65535 ->
  (length l < fuel)%nat ->
  exists d1,
    decodeRun fuel d = Some (l, d1) /\
    derr d1 = derr d /\ dstartTime d1 = dstartTime d /\
    dendTime d1 = dendTime d /\ idx d1 = idx d + Z.of_nat (length l).
Proof.
  induction l as [|s l IH];
    intros fuel d r xd x rest Hs Hr Hb Hsync Hok H0 Hi Hend Hmax Hfuel;
    (destruct fuel as [|fuel]; [simpl in Hfuel; lia|]).
  - simpl in Hend. simpl. unfold Next.
    rewrite u16_small by (unfold is_u16; lia).
    destruct (Z.leb_spec (dstartTime d + idx d) (dendTime d)); [lia|].
    exists d. rewrite Z.add_0_r. auto.
  - assert (Hlen : Z.of_nat (length (s :: l)) = 1 + Z.of_nat (length l))
      by (simpl length; lia).
    rewrite Hlen in *. simpl in Hfuel.
    inversion Hok as [|s' l' Hv Hok']; subst s' l'.
    cbn [decodeRun]. unfold Next.
    rewrite !u16_small by (unfold is_u16; lia).
    destruct (Z.leb_spec (dstartTime d + idx d) (dendTime d)); [|lia].
    unfold HasValue, withIdx. cbn [streams]. rewrite Hs.
    destruct s as [v|]; cbn [slotBits] in Hb; simpl in Hb.
    + destruct (ReadBit_remaining r true _ Hr Hb) as (r1 & E1 & Hr1 & Hb1).
      rewrite E1. unfold Value. cbn [streams].
      rewrite <- app_assoc in Hb1.
      destruct (XORNext_xorBits x xd r1 v _ Hsync Hv Hr1 Hb1)
        as (xd1 & r2 & E2 & Hval & Hr2 & Hb2 & Hsync2).
      rewrite E2, Hval. cbn [dstartTime dendTime idx derr].
      match goal with
      | |- context [decodeRun fuel ?d'] =>
          destruct (IH fuel d' r2 xd1 (xorStep x v) rest)
            as (d1 & E & F1 & F2 & F3 & F4);
            cbn [streams dstartTime dendTime idx derr] in *;
            try reflexivity; try lia; auto
      end.
      rewrite E. exists d1. repeat (split; [first [reflexivity|assumption|lia]|]). lia.
    + destruct (ReadBit_remaining r false _ Hr Hb) as (r1 & E1 & Hr1 & Hb1).
      rewrite E1.
      match goal with
      | |- context [decodeRun fuel ?d'] =>
          destruct (IH fuel d' r1 xd x rest)
            as (d1 & E & F1 & F2 & F3 & F4);
            cbn [streams dstartTime dendTime idx derr] in *;
            try reflexivity; try lia; auto
      end.
      rewrite E. exists d1. repeat (split; [first [reflexivity|assumption|lia]|]). lia.
Qed.

End DecoderCalls.

Section CodecExtras.

Import bit encoding.

Local Arguments Z.testbit : simpl never.
Local Arguments XORNext : simpl never.
Local Arguments ReadBit : simpl never.

(** [ResetWithTimeRange] takes any data, with no test of its length:
    the decoder reads it from its first bit, in the given range. *)
Lemma ResetWithTimeRange_valid d data start end_ :
  exists r,
    ResetWithTimeRange d data start end_
    = {| dstartTime := start; dendTime := end_;
         streams := Some (r, NewXORDecoder); idx := 0; derr := None |}
    /\ ReaderOk r /\ remaining r = flat_map byte_bits data.
Proof.
  unfold ResetWithTimeRange, reset. simpl.
  destruct (streams d) as [[r x]|]; simpl;
    (eexists; split; [reflexivity|]; split;
     [unfold ReaderOk; simpl; lia | reflexivity]).
Qed.

(** The start slot plays no part in what the appends leave in the
    encoder. *)
Lemma appendSlot_start e e' s :
  bitWriter e = bitWriter e' -> values e = values e' ->
  encoding.count e = encoding.count e' -> err e = err e' ->
  bitWriter (appendSlot e s) = bitWriter (appendSlot e' s) /\
  values (appendSlot e s) = values (appendSlot e' s) /\
  encoding.count (appendSlot e s) = encoding.count (appendSlot e' s) /\
  err (appendSlot e s) = err (appendSlot e' s).
Proof.
  intros Hw Hv Hc He. destruct e as [s0 w x c er], e' as [s1 w' x' c' er'].
  simpl in Hw, Hv, Hc, He. subst w' x' c' er'.
  destruct s as [v|]; unfold appendSlot, AppendValue, AppendTime;
    cbn [err bitWriter values encoding.count];
    (destruct er; [cbn; auto|]);
    destruct (WriteBit w _) as [w1 [er1|]];
    cbn [err bitWriter values encoding.count]; auto.
  destruct (XORWrite x w1 v) as [x1 [w2 er2]].
  cbn [err bitWriter values encoding.count]. auto.
Qed.

Lemma encodeSlots_start l : forall e e',
  bitWriter e = bitWriter e' -> values e = values e' ->
  encoding.count e = encoding.count e' -> err e = err e' ->
  bitWriter (encodeSlots e l) = bitWriter (encodeSlots e' l) /\
  err (encodeSlots e l) = err (encodeSlots e' l).
Proof.
  induction l as [|s l IH]; intros e e' Hw Hv Hc He; [auto|].
  change (encodeSlots e (s :: l)) with (encodeSlots (appendSlot e s) l).
  change (encodeSlots e' (s :: l)) with (encodeSlots (appendSlot e' s) l).
  destruct (appendSlot_start e e' s Hw Hv Hc He) as (H1 & H2 & H3 & H4).
  apply IH; assumption.
Qed.

(** X1: the payload that [BytesWithoutTime] returns is the same
    whatever the encoder's start slot, and a decoder given it by
    [ResetWithTimeRange] with a range of as many slots, ending below
    65535, yields the slots that were encoded and ends with no error. *)
Theorem headerless_roundtrip (s0 start : Z) (l : list (option Z))
  (d0 : TSDDecoder) (fuel : nat) :
  l <> [] -> 0 <= start ->
  start + Z.of_nat (length l) - 1 < 65535 ->
  slotsOk l -> (length l < fuel)%nat ->
  exists payload e1 d1,
    BytesWithoutTime (encodeSlots (NewTSDEncoder s0) l)
    = ((Some payload, None), e1) /\
    (forall s1,
       fst (BytesWithoutTime (encodeSlots (NewTSDEncoder s1) l))
       = (Some payload, None)) /\
    decodeRun fuel
      (ResetWithTimeRange d0 payload start
         (start + Z.of_nat (length l) - 1))
    = Some (l, d1) /\
    Error d1 = None.
Proof.
  intros Hne Hs Hend Hok Hfuel.
  destruct (encodeSlots_written l _ (NewTSDEncoder_ok s0))
    as ((He & Hw & _) & _ & _ & Hbits).
  simpl in Hbits.
  destruct (Flush_written _ Hw) as (w1 & pad & E & _ & B & _ & _).
  rewrite Hbits in B.
  exists (buf w1). eexists.
  destruct (ResetWithTimeRange_valid d0 (buf w1) start
              (start + Z.of_nat (length l) - 1)) as (r & Ed & Hr & Hrem).
  destruct (decodeRun_slotBits l fuel _ r NewXORDecoder NewXOREncoder pad
              (f_equal streams Ed)) as (d1 & Erun & F1 & _);
    rewrite ?Ed; simpl; try lia; auto.
  - rewrite Hrem. exact B.
  - apply NewXOR_inSync.
  - exists d1. split.
    + unfold BytesWithoutTime, flushFunc, flush. rewrite He, E. reflexivity.
    + split.
      * intros s1.
        destruct (encodeSlots_start l (NewTSDEncoder s1) (NewTSDEncoder s0))
          as [Sw Se]; try reflexivity.
        unfold BytesWithoutTime, flushFunc, flush.
        rewrite Se, Sw, He, E. reflexivity.
      * split; [rewrite Ed in Erun; exact Erun|].
        unfold Error. rewrite F1, Ed. reflexivity.
Qed.

Lemma headerless_roundtrip_witness :
  exists payload e1 d1,
    BytesWithoutTime (encodeSlots (NewTSDEncoder 700) [Some 42; None; Some 43])
    = ((Some payload, None), e1) /\
    (forall s1,
       fst (BytesWithoutTime
              (encodeSlots (NewTSDEncoder s1) [Some 42; None; Some 43]))
       = (Some payload, None)) /\
    decodeRun 4 (ResetWithTimeRange zeroDecoder payload 10 (10 + 3 - 1))
    = Some ([Some 42; None; Some 43], d1) /\
    Error d1 = None.
Proof.
  apply (headerless_roundtrip 700 10 [Some 42; None; Some 43] zeroDecoder 4).
  - discriminate.
  - lia.
  - simpl. lia.
  - repeat constructor; unfold is_u64; lia.
  - simpl. lia.
Defined.

(** X2: after the loop over a block of [Bytes] the decoder has no
    error, [Next()] is false, and [Slot()] is the block's last slot. *)
Theorem decode_ends_clean (start : Z) (l : list (option Z))
  (d0 : TSDDecoder) (fuel : nat) :
  is_u16 start -> l <> [] ->
  start + Z.of_nat (length l) - 1 < 65535 ->
  slotsOk l -> (length l < fuel)%nat ->
  exists block e1 d1,
    Bytes (encodeSlots (NewTSDEncoder start) l) = ((Some block, None), e1) /\
    decodeRun fuel (ResetDecoder d0 block) = Some (l, d1) /\
    Error d1 = None /\ fst (Next d1) = false /\
    Slot d1 = start + Z.of_nat (length l) - 1.
Proof.
  intros Hs Hne Hend Hok Hfuel.
  destruct (encodeSlots_written l _ (NewTSDEncoder_ok start))
    as (He & Hst & Hc & Hw).
  simpl in Hst, Hc, Hw.
  assert (Hlen : (0 < length l)%nat) by (destruct l; [contradiction|simpl; lia]).
  unfold is_u16 in Hs.
  rewrite u16_small, Z.add_0_l in Hc by (unfold is_u16; lia).
  destruct (Bytes_header _ He) as
    (block & e1 & pad & E & _ & _ & _ & _ & U1 & U2 & B & _ & Hblk).
  { rewrite Hst. exact Hs. }
  { lia. }
  rewrite Hst in U1. rewrite Hst, Hc in U2.
  rewrite u16_small in U2 by (unfold is_u16; lia).
  rewrite Hw in B, Hblk.
  destruct (ResetDecoder_valid d0 block) as (r & Ed & Hr & Hrem).
  { apply Hblk. destruct l; [contradiction|apply slotBits_nonempty]. }
  destruct (decodeRun_slotBits l fuel _ r NewXORDecoder NewXOREncoder pad
              (f_equal streams Ed)) as (d1 & Erun & F1 & F2 & F3 & F4);
    rewrite ?Ed; simpl; try lia; auto.
  - rewrite Hrem. exact B.
  - apply NewXOR_inSync.
  - rewrite Ed in F1, F2, F3, F4. simpl in F1, F2, F3, F4.
    exists block, e1, d1. split; [exact E|]. split; [exact Erun|].
    split; [exact F1|]. rewrite Z.add_0_l in F4.
    unfold Next, Slot. rewrite F2, F3, F4, U1, U2.
    split.
    + rewrite u16_small by (unfold is_u16; lia).
      destruct (Z.leb_spec (start + Z.of_nat (length l))
                  (start + Z.of_nat (length l) - 1)); [lia|reflexivity].
    + apply u16_small. unfold is_u16. lia.
Qed.

Lemma decode_ends_clean_witness :
  exists block e1 d1,
    Bytes (encodeSlots (NewTSDEncoder 10) [Some 42; None; Some 43])
    = ((Some block, None), e1) /\
    decodeRun 4 (ResetDecoder zeroDecoder block)
    = Some ([Some 42; None; Some 43], d1) /\
    Error d1 = None /\ fst (Next d1) = false /\
    Slot d1 = 10 + Z.of_nat (length [Some 42; None; Some 43]) - 1.
Proof.
  apply (decode_ends_clean 10 [Some 42; None; Some 43] zeroDecoder 4).
  - unfold is_u16. lia.
  - discriminate.
  - simpl. lia.
  - repeat constructor; unfold is_u64; lia.
  - simpl. lia.
Defined.

(** Asking slot by slot on a decoder that stands before the bits of
    [l], from the next slot on. *)
Lemma decodeBySlot_slotBits l : forall d r xd x rest,
  streams d = Some (r, xd) -> ReaderOk r ->
  remaining r = slotBits x l ++ rest ->
  xorInSync x xd -> slotsOk l ->
  0 <= dstartTime d -> 0 <= idx d ->
  dstartTime d + idx d + Z.of_nat (length l) <= dendTime d + 1 ->
  dendTime d <= 65535 ->
  fst (decodeBySlot d (slotsFrom (dstartTime d + idx d) (length l))) = l.
Proof.
  induction l as [|s l IH];
    intros d r xd x rest Hs Hr Hb Hsync Hok H0 Hi Hend Hmax; [reflexivity|].
  assert (Hlen : Z.of_nat (length (s :: l)) = 1 + Z.of_nat (length l))
    by (simpl length; lia).
  rewrite Hlen in Hend.
  inversion Hok as [|s' l' Hv Hok']; subst s' l'.
  cbn [length slotsFrom decodeBySlot]. unfold HasValueWithSlot.
  destruct (Z.ltb_spec (dstartTime d + idx d) (dstartTime d)); [lia|].
  destruct (Z.ltb_spec (dendTime d) (dstartTime d + idx d)); [lia|].
  cbn [orb]. rewrite (Z.add_comm (idx d)).
  rewrite (u16_small (dstartTime d + idx d)) by (unfold is_u16; lia).
  rewrite Z.eqb_refl.
  unfold HasValue, withIdx. cbn [streams]. rewrite Hs.
  assert (Hnext : forall d1 r1 xd1 x1,
            streams d1 = Some (r1, xd1) -> ReaderOk r1 ->
            remaining r1 = slotBits x1 l ++ rest -> xorInSync x1 xd1 ->
            dstartTime d1 = dstartTime d -> dendTime d1 = dendTime d ->
            idx d1 = u16 (idx d + 1) ->
            fst (decodeBySlot d1
                   (slotsFrom (dstartTime d + idx d + 1) (length l))) = l).
  { intros d1 r1 xd1 x1 Hs1 Hr1 Hb1 Hsync1 E1 E2 E3.
    destruct l as [|s2 l2]; [reflexivity|].
    assert (Z.of_nat (length (s2 :: l2)) = 1 + Z.of_nat (length l2))
      by (simpl length; lia).
    rewrite u16_small in E3 by (unfold is_u16; lia).
    replace (dstartTime d + idx d + 1) with (dstartTime d1 + idx d1) by lia.
    apply (IH d1 r1 xd1 x1 rest); auto; lia. }
  destruct s as [v|]; cbn [slotBits] in Hb; simpl in Hb.
  - destruct (ReadBit_remaining r true _ Hr Hb) as (r1 & E1 & Hr1 & Hb1).
    rewrite E1. unfold Value. cbn [streams].
    rewrite <- app_assoc in Hb1.
    destruct (XORNext_xorBits x xd r1 v _ Hsync Hv Hr1 Hb1)
      as (xd1 & r2 & E2 & Hval & Hr2 & Hb2 & Hsync2).
    rewrite E2, Hval. cbn [dstartTime dendTime idx derr].
    match goal with
    | |- context [decodeBySlot ?d1 ?ss] =>
        pose proof (Hnext d1 r2 xd1 (xorStep x v) eq_refl Hr2 Hb2 Hsync2
                      eq_refl eq_refl eq_refl) as Hrec;
        destruct (decodeBySlot d1 ss) as [l0 d3]
    end.
    simpl in *. congruence.
  - destruct (ReadBit_remaining r false _ Hr Hb) as (r1 & E1 & Hr1 & Hb1).
    rewrite E1.
    match goal with
    | |- context [decodeBySlot ?d1 ?ss] =>
        pose proof (Hnext d1 r1 xd x eq_refl Hr1 Hb1 Hsync
                      eq_refl eq_refl eq_refl) as Hrec;
        destruct (decodeBySlot d1 ss) as [l0 d3]
    end.
    simpl in *. congruence.
Qed.

(** X3: a caller that asks [HasValueWithSlot] for the slots of a block
    of [Bytes] one after the other, from the start slot on, and takes
    [Value] at each slot that has one, gets the slots that were
    encoded; the last slot may be 65535. *)
Theorem by_slot_roundtrip (start : Z) (l : list (option Z))
  (d0 : TSDDecoder) :
  is_u16 start -> l <> [] ->
  Z.of_nat (length l) <= 65535 ->
  start + Z.of_nat (length l) - 1 <= 65535 ->
  slotsOk l ->
  exists block e1,
    Bytes (encodeSlots (NewTSDEncoder start) l) = ((Some block, None), e1) /\
    fst (decodeBySlot (ResetDecoder d0 block) (slotsFrom start (length l)))
    = l.
Proof.
  intros Hs Hne Hn Hend Hok.
  destruct (encodeSlots_written l _ (NewTSDEncoder_ok start))
    as (He & Hst & Hc & Hw).
  simpl in Hst, Hc, Hw.
  assert (Hlen : (0 < length l)%nat) by (destruct l; [contradiction|simpl; lia]).
  unfold is_u16 in Hs.
  rewrite u16_small, Z.add_0_l in Hc by (unfold is_u16; lia).
  destruct (Bytes_header _ He) as
    (block & e1 & pad & E & _ & _ & _ & _ & U1 & U2 & B & _ & Hblk).
  { rewrite Hst. exact Hs. }
  { lia. }
  rewrite Hst in U1. rewrite Hst, Hc in U2.
  rewrite u16_small in U2 by (unfold is_u16; lia).
  rewrite Hw in B, Hblk.
  destruct (ResetDecoder_valid d0 block) as (r & Ed & Hr & Hrem).
  { apply Hblk. destruct l; [contradiction|apply slotBits_nonempty]. }
  exists block, e1. split; [exact E|]. rewrite Ed.
  match goal with
  | |- fst (decodeBySlot ?D _) = _ =>
      assert (Hrun : fst (decodeBySlot D
                            (slotsFrom (dstartTime D + idx D) (length l))) = l)
  end.
  { apply (decodeBySlot_slotBits l _ r NewXORDecoder NewXOREncoder pad);
      cbn [streams dstartTime dendTime idx]; try lia; auto.
    - rewrite Hrem. exact B.
    - apply NewXOR_inSync. }
  cbn [dstartTime idx] in Hrun. rewrite Z.add_0_r in Hrun.
  rewrite U1 in Hrun at 2. exact Hrun.
Qed.

Lemma by_slot_roundtrip_witness :
  exists block e1,
    Bytes (encodeSlots (NewTSDEncoder 65533) [Some 42; None; Some 43])
    = ((Some block, None), e1) /\
    fst (decodeBySlot (ResetDecoder zeroDecoder block)
           (slotsFrom 65533 (length [Some 42; None; Some 43])))
    = [Some 42; None; Some 43].
Proof.
  apply (by_slot_roundtrip 65533 [Some 42; None; Some 43] zeroDecoder).
  - unfold is_u16. lia.
  - discriminate.
  - simpl. lia.
  - simpl. lia.
  - repeat constructor; unfold is_u64; lia.
Defined.

(** X4: [HasValueWithSlot] moves on only when it is asked for the next
    slot and that slot is in the range: a caller that asks for slots
    outside the range, or never asks for the next slot, say because it
    has skipped it, gets false every time and the decoder stays where
    it is. *)
Theorem by_slot_never_skips (d : TSDDecoder) (slots : list Z) :
  Forall (fun slot => slot < dstartTime d \/ dendTime d < slot \/
                      slot <> u16 (idx d + dstartTime d)) slots ->
  decodeBySlot d slots = (map (fun _ => None) slots, d).
Proof.
  induction slots as [|slot slots IH]; intros Hs; [reflexivity|].
  inversion Hs as [|s ss Hslot Hrest]; subst s ss.
  cbn [decodeBySlot map].
  assert (E : HasValueWithSlot d slot = (false, d)).
  { unfold HasValueWithSlot.
    destruct (Z.ltb_spec slot (dstartTime d)); [reflexivity|].
    destruct (Z.ltb_spec (dendTime d) slot); [reflexivity|]. cbn [orb].
    destruct (Z.eqb_spec slot (u16 (idx d + dstartTime d)));
      [|reflexivity].
    destruct Hslot as [|[|]]; [lia|lia|contradiction]. }
  rewrite E, (IH Hrest). reflexivity.
Qed.

Lemma by_slot_never_skips_witness :
  let d := ResetDecoder zeroDecoder
             [10; 0; 12; 0; 128; 0; 0; 0; 0; 0; 0; 21; 63; 224; 64] in
  decodeBySlot d [11; 12; 12; 13]
  = (map (fun _ => None) [11; 12; 12; 13], d).
Proof.
  intros d. apply (by_slot_never_skips d [11; 12; 12; 13]).
  repeat (apply List.Forall_cons; [right; right; vm_compute; discriminate|]).
  apply List.Forall_nil.
Defined.

(** What the calls between two resets leave alone. *)
Lemma dperform_range d c :
  dstartTime (dperform d c) = dstartTime d /\
  dendTime (dperform d c) = dendTime d.
Proof.
  assert (Hh : forall d0, dstartTime (snd (HasValue d0)) = dstartTime d0 /\
                          dendTime (snd (HasValue d0)) = dendTime d0).
  { intros d0. unfold HasValue. destruct (streams d0) as [[r x]|]; [|auto].
    destruct (ReadBit r) as [r1 [v|e]]; auto. }
  destruct c as [| | |slot]; simpl.
  - unfold Next. destruct (_ <=? _); auto.
  - apply Hh.
  - unfold Value. destruct (streams d) as [[r x]|]; [|auto].
    destruct (XORNext x r) as [[ok x1] r1]. destruct ok; auto.
  - unfold HasValueWithSlot. destruct (_ || _); [auto|].
    destruct (_ =? _); [|auto]. apply (Hh (withIdx d _)).
Qed.

Lemma dperformAll_range cs : forall d,
  dstartTime (dperformAll d cs) = dstartTime d /\
  dendTime (dperformAll d cs) = dendTime d.
Proof.
  induction cs as [|c cs IH]; intros d; [auto|].
  change (dperformAll d (c :: cs)) with (dperformAll (dperform d c) cs).
  destruct (IH (dperform d c)) as [I1 I2].
  destruct (dperform_range d c) as [P1 P2]. split; congruence.
Qed.

(** X5: a decoder whose end slot is 65535 answers [Next()] with true
    whatever calls it has received since its reset: the loop over
    [Next()] does not end. *)
Theorem next_never_false_at_65535 (d : TSDDecoder) (cs : list dcall) :
  dendTime d = 65535 ->
  fst (Next (dperformAll d cs)) = true.
Proof.
  intros Hend. destruct (dperformAll_range cs d) as [_ E].
  unfold Next. rewrite E, Hend.
  pose proof (u16_range (dstartTime (dperformAll d cs)
                         + idx (dperformAll d cs))) as [_ Hu].
  destruct (Z.leb_spec (u16 (dstartTime (dperformAll d cs)
                             + idx (dperformAll d cs))) 65535);
    [reflexivity|lia].
Qed.

Lemma next_never_false_at_65535_witness :
  fst (Next (dperformAll
               (ResetWithTimeRange zeroDecoder [128; 0] 65530 65535)
               (repeat CallNext 40)))
  = true.
Proof.
  apply (next_never_false_at_65535
           (ResetWithTimeRange zeroDecoder [128; 0] 65530 65535)
           (repeat CallNext 40)).
  reflexivity.
Defined.

(** The decoder after [k] calls of [Next]. *)
Lemma Next_repeat k : forall d,
  0 <= dstartTime d -> 0 <= idx d ->
  dstartTime d + idx d <= dendTime d + 1 -> dendTime d < 65535 ->
  dperformAll d (repeat CallNext k)
  = withIdx d (Z.min (idx d + Z.of_nat k) (dendTime d - dstartTime d + 1)).
Proof.
  induction k as [|k IH]; intros d H0 Hi Hle Hmax.
  - simpl. rewrite Z.add_0_r, Z.min_l by lia. destruct d; reflexivity.
  - change (dperformAll d (repeat CallNext (S k)))
      with (dperformAll (snd (Next d)) (repeat CallNext k)).
    unfold Next. rewrite u16_small by (unfold is_u16; lia).
    destruct (Z.leb_spec (dstartTime d + idx d) (dendTime d)).
    + cbn [snd]. rewrite IH; cbn [withIdx dstartTime dendTime idx];
        rewrite ?u16_small by (unfold is_u16; lia); try lia.
      unfold withIdx. cbn. f_equal. lia.
    + cbn [snd]. rewrite IH by lia. f_equal. lia.
Qed.

(** X6: on a decoder fresh from a reset, with a range that ends below
    65535, [Next()] is true exactly [endTime - startTime + 1] times;
    after the call number [k + 1] that is true, [Slot()] is
    [startTime + k]. *)
Theorem next_counts_the_range (d : TSDDecoder) (k : nat) :
  0 <= dstartTime d -> idx d = 0 ->
  dstartTime d <= dendTime d + 1 -> dendTime d < 65535 ->
  let dk := dperformAll d (repeat CallNext k) in
  fst (Next dk) = (Z.of_nat k <=? dendTime d - dstartTime d) /\
  (Z.of_nat k <= dendTime d - dstartTime d ->
   Slot (snd (Next dk)) = dstartTime d + Z.of_nat k).
Proof.
  intros H0 Hi Hle Hmax dk. unfold dk.
  rewrite Next_repeat by lia. rewrite Hi, Z.add_0_l.
  unfold Next, Slot, withIdx. cbn [dstartTime dendTime idx].
  destruct (Z.leb_spec (Z.of_nat k) (dendTime d - dstartTime d)) as [Hk|Hk].
  - rewrite Z.min_l by lia.
    rewrite u16_small by (unfold is_u16; lia).
    destruct (Z.leb_spec (dstartTime d + Z.of_nat k) (dendTime d)); [|lia].
    split; [reflexivity|]. intros _. cbn [snd dstartTime idx].
    rewrite (u16_small (Z.of_nat k + 1)) by (unfold is_u16; lia).
    rewrite u16_small by (unfold is_u16; lia). lia.
  - rewrite Z.min_r by lia.
    rewrite u16_small by (unfold is_u16; lia).
    destruct (Z.leb_spec (dstartTime d + (dendTime d - dstartTime d + 1))
                (dendTime d)); [lia|].
    split; [reflexivity|]. lia.
Qed.

Lemma next_counts_the_range_witness :
  let d := ResetWithTimeRange zeroDecoder [128; 0] 10 12 in
  let dk := dperformAll d (repeat CallNext 2) in
  fst (Next dk) = (Z.of_nat 2 <=? dendTime d - dstartTime d) /\
  (Z.of_nat 2 <= dendTime d - dstartTime d ->
   Slot (snd (Next dk)) = dstartTime d + Z.of_nat 2).
Proof.
  apply (next_counts_the_range
           (ResetWithTimeRange zeroDecoder [128; 0] 10 12) 2).
  - simpl. lia.
  - reflexivity.
  - simpl. lia.
  - simpl. lia.
Defined.

(** A decoder that holds no block keeps its error through every call
    but a reset. *)
Lemma dperform_no_streams_error d c :
  streams d = None -> derr (dperform d c) = derr d.
Proof.
  intros Hd. destruct c as [| | |slot]; simpl.
  - unfold Next. destruct (_ <=? _); reflexivity.
  - unfold HasValue. rewrite Hd. reflexivity.
  - unfold Value. rewrite Hd. reflexivity.
  - unfold HasValueWithSlot. destruct (_ || _); [reflexivity|].
    destruct (_ =? _); [|reflexivity].
    unfold HasValue. simpl. rewrite Hd. reflexivity.
Qed.

Lemma dperformAll_no_streams_error cs : forall d,
  streams d = None -> derr (dperformAll d cs) = derr d.
Proof.
  induction cs as [|c cs IH]; intros d Hd; [reflexivity|].
  change (dperformAll d (c :: cs)) with (dperformAll (dperform d c) cs).
  rewrite IH by (apply dperform_no_streams, Hd).
  apply dperform_no_streams_error, Hd.
Qed.

(** X7: [NewTSDDecoder] on at most four bytes gives a decoder with no
    block and, unlike [Reset], no error: whatever calls follow,
    [Error()] is nil, [HasValue()] is false, [Value()] is 0 and the
    range is slot 0 alone, over which the caller's loop sees one slot
    without a value. *)
Theorem new_decoder_without_block (data : list Z) (cs : list dcall)
  (fuel : nat) :
  (length data <= 4)%nat ->
  let d := dperformAll (NewTSDDecoder data) cs in
  Error d = None /\ fst (HasValue d) = false /\ fst (Value d) = 0 /\
  StartTime d = 0 /\ EndTime d = 0 /\
  decodeSlots (S (S fuel)) (NewTSDDecoder data) = Some [None].
Proof.
  intros Hlen d.
  assert (E : NewTSDDecoder data = zeroDecoder).
  { unfold NewTSDDecoder. destruct (Nat.ltb_spec 4 (length data)); [lia|].
    reflexivity. }
  assert (Hs : streams d = None)
    by (apply dperformAll_no_streams; rewrite E; reflexivity).
  destruct (dperformAll_range cs (NewTSDDecoder data)) as [R1 R2].
  assert (He : derr d = None).
  { unfold d. rewrite dperformAll_no_streams_error; rewrite E; reflexivity. }
  unfold Error, StartTime, EndTime, HasValue, Value. fold d in R1, R2.
  rewrite Hs, R1, R2, He, E. repeat split.
Qed.

Lemma new_decoder_without_block_witness :
  let d := dperformAll (NewTSDDecoder [1; 2; 3; 4])
             [CallHasValue; CallNext; CallValue; CallHasValueWithSlot 0] in
  Error d = None /\ fst (HasValue d) = false /\ fst (Value d) = 0 /\
  StartTime d = 0 /\ EndTime d = 0 /\
  decodeSlots (S (S 5)) (NewTSDDecoder [1; 2; 3; 4]) = Some [None].
Proof.
  apply (new_decoder_without_block [1; 2; 3; 4]
           [CallHasValue; CallNext; CallValue; CallHasValueWithSlot 0] 5).
  simpl. lia.
Defined.

(** At the end of the data the bit reader returns an error. *)
Lemma ReadBit_exhausted r :
  ReaderOk r -> remaining r = [] ->
  exists r1 e, ReadBit r = (r1, inr e) /\
               ReaderOk r1 /\ remaining r1 = [].
Proof.
  intros Hr Hrem. destruct r as [[bs p] bb c].
  unfold ReaderOk, remaining in *. simpl in *.
  apply app_eq_nil in Hrem as [Hb Hf].
  assert (Hc : c = 0).
  { apply (f_equal (@length bool)) in Hb. rewrite bits_msb_length in Hb.
    simpl in Hb. lia. }
  subst c.
  assert (Hn : nth_error bs p = None).
  { destruct (nth_error bs p) as [y|] eqn:Hn; [|reflexivity].
    rewrite (skipn_nth_error _ _ _ Hn) in Hf. simpl in Hf.
    discriminate Hf. }
  unfold ReadBit, GetByte. simpl. rewrite Hn.
  eexists _, _. split; [reflexivity|]. split; [simpl; lia|].
  simpl. exact Hf.
Qed.

(** X8: when the data is exhausted, [HasValue()] is false and leaves
    the bit reader's error in the decoder, and [Value()] is 0. *)
Theorem exhausted_stream (d : TSDDecoder) (r : Reader) (x : XORDecoder) :
  streams d = Some (r, x) -> ReaderOk r -> remaining r = [] ->
  fst (HasValue d) = false /\
  Error (snd (HasValue d)) <> None /\
  fst (Value d) = 0 /\
  fst (Value (snd (HasValue d))) = 0.
Proof.
  intros Hs Hr Hrem.
  destruct (ReadBit_exhausted r Hr Hrem) as (r1 & e & E & Hr1 & Hrem1).
  assert (Hx : forall r0 x0, ReaderOk r0 -> remaining r0 = [] ->
            exists x1 r2, XORNext x0 r0 = (false, x1, r2)).
  { intros r0 x0 Hr0 Hrem0.
    destruct (ReadBit_exhausted r0 Hr0 Hrem0) as (r2 & e0 & E0 & _).
    unfold XORNext. destruct (dfirst x0).
    - unfold ReadBits. change 64%nat with (S 63).
      cbn [ReadBitsFrom]. rewrite E0. eauto.
    - rewrite E0. eauto. }
  unfold HasValue, Value. rewrite Hs, E. cbn [fst snd streams].
  split; [reflexivity|]. split; [discriminate|].
  destruct (Hx r x Hr Hrem) as (x1 & r2 & E1).
  destruct (Hx r1 x Hr1 Hrem1) as (x2 & r3 & E2).
  rewrite E1, E2. split; reflexivity.
Qed.

Lemma exhausted_stream_witness :
  let d := ResetWithTimeRange zeroDecoder [] 3 5 in
  fst (HasValue d) = false /\
  Error (snd (HasValue d)) <> None /\
  fst (Value d) = 0 /\
  fst (Value (snd (HasValue d))) = 0.
Proof.
  apply (exhausted_stream (ResetWithTimeRange zeroDecoder [] 3 5)
           (NewReader (NewBuffer [])) NewXORDecoder).
  - reflexivity.
  - unfold ReaderOk. simpl. lia.
  - reflexivity.
Defined.

(** The bits of whole bytes. *)
Lemma byte_bits_length bs :
  (length (flat_map byte_bits bs) mod 8 = 0)%nat.
Proof.
  induction bs as [|y bs IH]; [reflexivity|].
  cbn [flat_map]. rewrite length_app. unfold byte_bits at 1.
  rewrite bits_msb_length.
  replace (8 + length (flat_map byte_bits bs))%nat
    with (length (flat_map byte_bits bs) + 1 * 8)%nat by lia.
  rewrite Nat.Div0.mod_add. exact IH.
Qed.

(** A writer that has taken a number of bits that is not a multiple of
    eight has a byte in progress. *)
Lemma written_unaligned w :
  WriterOk w -> (length (written w) mod 8 <> 0)%nat -> bit.count w <> 8.
Proof.
  intros _ Hmod Hc. apply Hmod. unfold written. rewrite Hc. simpl.
  rewrite app_nil_r. apply byte_bits_length.
Qed.

(** X9: [Bytes] cannot be called twice for the same block.  When the
    bits appended so far do not fill whole bytes, the flush writes the
    byte in progress again: the second call returns the first block
    with its last byte repeated, and so does [BytesWithoutTime] for the
    payload. *)
Theorem second_bytes_repeats_last_byte (e : tsdEncoder) (block : list Z) :
  encoderOk e ->
  (length (written (bitWriter e)) mod 8 <> 0)%nat ->
  fst (Bytes e) = (Some block, None) ->
  exists x,
    last block = Some x /\
    fst (Bytes (snd (Bytes e))) = (Some (block ++ [x]), None) /\
    fst (BytesWithoutTime (snd (Bytes e)))
    = (Some (skipn 4 block ++ [x]), None).
Proof.
  intros (He & Hw & _) Hmod.
  pose proof (written_unaligned _ Hw Hmod) as Hc8.
  unfold Bytes, BytesWithoutTime, flushFunc, flush, Flush. rewrite He.
  destruct (bitWriter e) as [bf bb c]. cbn [bit.count buf b] in *.
  destruct (Z.eqb_spec c 8) as [|_]; [contradiction|].
  destruct (encoding.count e =? 0) eqn:Hc; [discriminate|].
  cbn [fst snd withWriter err bitWriter encoding.count bit.count buf b].
  rewrite He, Hc.
  destruct (Z.eqb_spec c 8) as [|_]; [contradiction|].
  cbn [fst snd buf]. intros Hb. injection Hb as <-.
  exists bb.
  split; [rewrite !app_comm_cons; apply last_snoc|].
  split; reflexivity.
Qed.

Lemma second_bytes_repeats_last_byte_witness :
  let e := encodeSlots (NewTSDEncoder 10) [None; None; None] in
  exists x,
    last [10; 0; 12; 0; 0] = Some x /\
    fst (Bytes (snd (Bytes e))) = (Some ([10; 0; 12; 0; 0] ++ [x]), None) /\
    fst (BytesWithoutTime (snd (Bytes e)))
    = (Some (skipn 4 [10; 0; 12; 0; 0] ++ [x]), None).
Proof.
  intros e. apply (second_bytes_repeats_last_byte e [10; 0; 12; 0; 0]).
  - apply (proj1 (encodeSlots_written [None; None; None] _
                    (NewTSDEncoder_ok 10))).
  - vm_compute. discriminate.
  - vm_compute. reflexivity.
Defined.

(** X10: the block of [Bytes] is four header bytes followed by what
    [BytesWithoutTime] returns. *)
Theorem block_is_header_and_payload (e : tsdEncoder) (block : list Z) :
  fst (Bytes e) = (Some block, None) ->
  fst (BytesWithoutTime e) = (Some (skipn 4 block), None) /\
  length (firstn 4 block) = 4%nat /\
  DecodeTSDTime block
  = (stream.Uint16 (firstn 4 block) 0, stream.Uint16 (firstn 4 block) 2).
Proof.
  unfold Bytes, BytesWithoutTime, flushFunc, flush.
  destruct (err e) as [er|]; [discriminate|].
  destruct (Flush (bitWriter e)) as [w1 [er|]]; [discriminate|].
  destruct (count e =? 0); [discriminate|].
  simpl. intros E. injection E as <-.
  unfold stream.PutBytes, stream.PutUInt16, stream.NewBufferWriter.
  simpl. auto.
Qed.

Lemma block_is_header_and_payload_witness :
  fst (BytesWithoutTime (encodeSlots (NewTSDEncoder 10) [Some 42; None]))
  = (Some (skipn 4 [10; 0; 11; 0; 128; 0; 0; 0; 0; 0; 0; 21; 0]), None) /\
  length (firstn 4 [10; 0; 11; 0; 128; 0; 0; 0; 0; 0; 0; 21; 0]) = 4%nat /\
  DecodeTSDTime [10; 0; 11; 0; 128; 0; 0; 0; 0; 0; 0; 21; 0]
  = (stream.Uint16 (firstn 4 [10; 0; 11; 0; 128; 0; 0; 0; 0; 0; 0; 21; 0]) 0,
     stream.Uint16 (firstn 4 [10; 0; 11; 0; 128; 0; 0; 0; 0; 0; 0; 21; 0]) 2).
Proof.
  apply (block_is_header_and_payload
           (encodeSlots (NewTSDEncoder 10) [Some 42; None])
           [10; 0; 11; 0; 128; 0; 0; 0; 0; 0; 0; 21; 0]).
  vm_compute. reflexivity.
Defined.

(** X11: a slot appended after [Bytes] or [BytesWithoutTime] does not
    continue the payload they returned.  When the bits appended so far
    do not fill whole bytes, the byte in progress is in the buffer and
    still in progress: without the call the next payload ends with the
    completed byte in place of the padded one; after the call it is the
    payload returned, padded byte included, followed by the completed
    byte. *)
Theorem append_after_bytes (e : tsdEncoder) (x : Bit) (payload : list Z) :
  encoderOk e ->
  (length (written (bitWriter e)) mod 8 <> 0)%nat ->
  fst (BytesWithoutTime e) = (Some payload, None) ->
  snd (Bytes e) = snd (BytesWithoutTime e) /\
  exists y,
    fst (BytesWithoutTime (AppendTime e x))
    = (Some (removelast payload ++ [y]), None) /\
    fst (BytesWithoutTime (AppendTime (snd (BytesWithoutTime e)) x))
    = (Some (payload ++ [y]), None).
Proof.
  intros (He & Hw & _) Hmod.
  pose proof (written_unaligned _ Hw Hmod) as Hc8.
  destruct Hw as [Hc _].
  unfold Bytes, BytesWithoutTime, AppendTime, flushFunc, flush, Flush.
  rewrite He.
  destruct (bitWriter e) as [bf bb c]. cbn [bit.count buf b] in *.
  destruct (Z.eqb_spec c 8) as [|_]; [contradiction|].
  cbn [fst snd withWriter err bitWriter]. rewrite He.
  intros Hp. injection Hp as <-.
  split; [destruct (encoding.count e =? 0); reflexivity|].
  rewrite removelast_last.
  exists (if x then Z.lor bb (Z.shiftl 1 (c - 1)) else bb).
  unfold WriteBit. cbn [bit.count buf b].
  destruct (Z.eqb_spec (c - 1) 0) as [E0|E0];
    cbn [fst snd err bitWriter bit.count buf b].
  - split; reflexivity.
  - destruct (Z.eqb_spec (c - 1) 8) as [E8|_]; [lia|].
    split; reflexivity.
Qed.

Lemma append_after_bytes_witness :
  let e := encodeSlots (NewTSDEncoder 10) [None; None; None] in
  snd (Bytes e) = snd (BytesWithoutTime e) /\
  exists y,
    fst (BytesWithoutTime (AppendTime e One))
    = (Some (removelast [0] ++ [y]), None) /\
    fst (BytesWithoutTime (AppendTime (snd (BytesWithoutTime e)) One))
    = (Some ([0] ++ [y]), None).
Proof.
  intros e. apply (append_after_bytes e One [0]).
  - apply (proj1 (encodeSlots_written [None; None; None] _
                    (NewTSDEncoder_ok 10))).
  - vm_compute. discriminate.
  - vm_compute. reflexivity.
Defined.

End CodecExtras.

(** * Further facts about the memory database *)

Section WriteSteps.

Import memdb.

Context `{StoreSizes}.

Variable p : MetricPoint.

(** What holds between the state before and the state after every
    field write holds across the body of [WriteWithoutLock], if it
    holds of a state and itself and composes. *)
Variable T : writeCtx -> writeCtx -> outcome -> Prop.

Hypothesis T_done : forall c, T c c Done.
Hypothesis T_panicked : forall c, T c c Panicked.
Hypothesis T_then : forall c c1 c2 o, T c c1 Done -> T c1 c2 o -> T c c2 o.
Hypothesis T_write : forall ty v c,
  T c (fst (writeField p ty v c)) (snd (writeField p ty v c)).

Lemma seq_across a b :
  (forall c, T c (fst (a c)) (snd (a c))) ->
  (forall c, T c (fst (b c)) (snd (b c))) ->
  forall c, T c (fst (seq a b c)) (snd (seq a b c)).
Proof.
  intros Ha Hb c. unfold seq. specialize (Ha c).
  destruct (a c) as [c1 [|e|]]; simpl in *; [|exact Ha..].
  apply (T_then c c1); [exact Ha|apply Hb].
Qed.

Lemma forEach_across {A : Type} (l : list A) (f : A -> step) :
  (forall x c, T c (fst (f x c)) (snd (f x c))) ->
  forall c, T c (fst (forEach l f c)) (snd (forEach l f c)).
Proof.
  intros Hf. induction l as [|x l IH]; intros c; simpl.
  - apply T_done.
  - apply seq_across; [apply Hf|exact IH].
Qed.

Lemma body_across c : T c (fst (body p c)) (snd (body p c)).
Proof.
  assert (Hskip : forall c0, T c0 (fst (skip c0)) (snd (skip c0)))
    by (intros c0; apply T_done).
  assert (Hwhen : forall g a,
            (forall c0, T c0 (fst (a c0)) (snd (a c0))) ->
            forall c0, T c0 (fst (when g a c0)) (snd (when g a c0))).
  { intros g a Ha c0. destruct g; [apply Ha|apply Hskip]. }
  unfold body. destruct (Proto p) as [m|]; [|apply T_panicked].
  apply seq_across.
  - apply forEach_across. intros f c0. unfold writeSimpleField.
    destruct (protoMetricsV1.Type_ f); first [apply T_write|apply Hskip].
  - destruct (protoMetricsV1.Compound m) as [cf|]; [|exact Hskip].
    unfold writeCompound.
    repeat (apply seq_across; [first [apply Hwhen|idtac]; apply T_write|]).
    apply forEach_across. intros i c0. unfold writeBucket.
    destruct (nth_error (FieldIDs p) (fieldIDIdx c0)); [|apply T_panicked].
    destruct (nth_error (protoMetricsV1.Values cf) i);
      [apply T_write|apply T_panicked].
Qed.

End WriteSteps.

Section DatabaseExtras.

Import memdb.

Context `{StoreSizes}.

(** What one field write leaves alone and what it counts. *)
Lemma writeField_frame p ty v c :
  let c1 := fst (writeField p ty v c) in
  let o := snd (writeField p ty v c) in
  (mStores (db c1) = mStores (db c) /\
   allocSize (db c1) = allocSize (db c) /\
   familyTime (db c1) = familyTime (db c)) /\
  (slots (theMStore c1) = slots (theMStore c) /\
   tStores (theMStore c1) = tStores (theMStore c)) /\
  (pagesLeft (buf (db c1)) + allocatedPages (metrics (db c1))
   = pagesLeft (buf (db c)) + allocatedPages (metrics (db c)))%nat /\
  (allocatedPageFailures (metrics (db c1))
   = allocatedPageFailures (metrics (db c))
     + (if isFailed o then 1 else 0))%nat /\
  (if isDone o
   then written c1 = true /\ exists x, calls c1 = calls c ++ [x]
   else written c1 = written c /\ calls c1 = calls c).
Proof.
  unfold writeField.
  destruct (nth_error (FieldIDs p) (fieldIDIdx c)) as [id|];
    [|simpl; repeat split; lia].
  unfold writeLinField, writeToFStore, fStoreWrite, InsertFStore, AllocPage,
    AddField.
  destruct (GetFStore (theTStore c) id) as [f|]; simpl.
  - repeat split; try lia. eauto.
  - destruct (pagesLeft (buf (db c))) as [|n] eqn:Hp; simpl.
    + rewrite Hp. repeat split; lia.
    + destruct (hasField (theMStore c) id); simpl;
        repeat split; try lia; eauto.
Qed.

Lemma enter_frame md p :
  db (enter md p) = fst (getOrCreateMStore md (MetricID p)) /\
  theMStore (enter md p) = snd (getOrCreateMStore md (MetricID p)) /\
  theTStore (enter md p)
  = fst (GetOrCreateTStore (snd (getOrCreateMStore md (MetricID p)))
           (SeriesID p)) /\
  size (enter md p)
  = snd (GetOrCreateTStore (snd (getOrCreateMStore md (MetricID p)))
           (SeriesID p)) /\
  written (enter md p) = false /\
  buf (fst (getOrCreateMStore md (MetricID p))) = buf md /\
  metrics (fst (getOrCreateMStore md (MetricID p))) = metrics md /\
  familyTime (fst (getOrCreateMStore md (MetricID p))) = familyTime md.
Proof.
  unfold enter, getOrCreateMStore.
  destruct (Get (mStores md) (MetricID p)) as [m|];
    destruct (GetOrCreateTStore _ (SeriesID p)); simpl; auto 10.
Qed.

Lemma Get_Put_other s k k' m : k' <> k -> Get (Put s k m) k' = Get s k'.
Proof.
  intros Hne. induction s as [|[k0 m0] s IH]; simpl.
  - destruct (Z.eqb_spec k k'); [congruence|reflexivity].
  - destruct (Z.eqb_spec k0 k) as [->|Hk]; simpl.
    + destruct (Z.eqb_spec k k'); [congruence|reflexivity].
    + destruct (Z.eqb_spec k0 k'); [reflexivity|exact IH].
Qed.

Lemma getOrCreateMStore_other md k k' :
  k' <> k ->
  Get (mStores (fst (getOrCreateMStore md k))) k' = Get (mStores md) k'.
Proof.
  intros Hne. unfold getOrCreateMStore.
  destruct (Get (mStores md) k); simpl; [reflexivity|].
  apply Get_Put_other, Hne.
Qed.

(** X12: [getOrCreateMStore] returns the store the database has for
    the metric, which is the one it had or a new, empty one whose size
    is added to the allocated size; the stores of the other metrics
    are the same, and asking again changes nothing. *)
Theorem getOrCreateMStore_lookup (md : memoryDatabase) (k : Z) :
  let md1 := fst (getOrCreateMStore md k) in
  let m := snd (getOrCreateMStore md k) in
  Get (mStores md1) k = Some m /\
  (forall k', k' <> k -> Get (mStores md1) k' = Get (mStores md) k') /\
  getOrCreateMStore md1 k = (md1, m) /\
  match Get (mStores md) k with
  | Some m0 => md1 = md /\ m = m0
  | None =>
      m = newMetricStore /\
      MemSize md1 = int32 (MemSize md + emptyMStoreSize)
  end.
Proof.
  unfold getOrCreateMStore.
  destruct (Get (mStores md) k) as [m0|] eqn:Hget; simpl.
  - rewrite Hget. auto.
  - rewrite Get_Put. split; [reflexivity|]. split.
    + intros k' Hne. apply Get_Put_other, Hne.
    + auto.
Qed.

(** X13: however [WriteWithoutLock] ends, every page taken from the
    buffer is counted in [allocatedPages], and [allocatedPageFailures]
    goes up by one exactly when the call returns an error. *)
Theorem pages_are_counted (md : memoryDatabase) (p : MetricPoint) :
  let md1 := fst (fst (WriteWithoutLock md p)) in
  let o := snd (fst (WriteWithoutLock md p)) in
  (pagesLeft (buf md1) + allocatedPages (metrics md1)
   = pagesLeft (buf md) + allocatedPages (metrics md))%nat /\
  (allocatedPageFailures (metrics md1)
   = allocatedPageFailures (metrics md) + (if isFailed o then 1 else 0))%nat.
Proof.
  pose proof (body_across p
    (fun c c1 o =>
       (pagesLeft (buf (db c1)) + allocatedPages (metrics (db c1))
        = pagesLeft (buf (db c)) + allocatedPages (metrics (db c)))%nat /\
       (allocatedPageFailures (metrics (db c1))
        = allocatedPageFailures (metrics (db c))
          + (if isFailed o then 1 else 0))%nat)) as Hb.
  destruct (enter_frame md p) as (E1 & _ & _ & _ & _ & E6 & E7 & _).
  specialize (Hb ltac:(simpl; intros; lia) ltac:(simpl; intros; lia)).
  specialize (Hb ltac:(simpl; intros; lia)).
  specialize (Hb ltac:(intros ty v c;
                       destruct (writeField_frame p ty v c)
                         as (_ & _ & F3 & F4 & _); auto) (enter md p)).
  unfold WriteWithoutLock.
  destruct (body p (enter md p)) as [c o]. simpl in Hb.
  rewrite E1, E6, E7 in Hb.
  destruct o; simpl; exact Hb.
Qed.

(** X14: however [WriteWithoutLock] ends, the database has a store for
    the point's metric and a series store for its series in it, and
    the other series of that metric are as they were. *)
Theorem write_keeps_other_series (md : memoryDatabase) (p : MetricPoint) :
  let md1 := fst (fst (WriteWithoutLock md p)) in
  exists m1,
    Get (mStores md1) (MetricID p) = Some m1 /\
    is_Some (tStores m1 !! SeriesID p) /\
    forall s, s <> SeriesID p ->
      tStores m1 !! s
      = tStores (snd (getOrCreateMStore md (MetricID p))) !! s.
Proof.
  pose proof (body_across p
    (fun c c1 (o : outcome) =>
       tStores (theMStore c1) = tStores (theMStore c))) as Hb.
  destruct (enter_frame md p) as (_ & E2 & _).
  specialize (Hb ltac:(simpl; intros; congruence)
                 ltac:(simpl; intros; congruence)).
  specialize (Hb ltac:(simpl; intros; congruence)).
  specialize (Hb ltac:(intros ty v c;
                       destruct (writeField_frame p ty v c)
                         as (_ & (_ & F) & _); auto) (enter md p)).
  unfold WriteWithoutLock.
  destruct (body p (enter md p)) as [c o]. simpl in Hb. rewrite E2 in Hb.
  assert (Hgen : forall c1,
            tStores (theMStore c1) = tStores (theMStore c) ->
            exists m1,
              Get (mStores (settle p c1)) (MetricID p) = Some m1 /\
              is_Some (tStores m1 !! SeriesID p) /\
              forall s, s <> SeriesID p ->
                tStores m1 !! s
                = tStores (snd (getOrCreateMStore md (MetricID p))) !! s).
  { intros c1 Hc1. unfold settle. simpl. rewrite Get_Put.
    eexists. split; [reflexivity|]. simpl. split.
    - rewrite lookup_insert_eq. eauto.
    - intros s Hs. rewrite lookup_insert_ne by congruence.
      rewrite Hc1, Hb. reflexivity. }
  destruct o; cbn [fst snd]; apply Hgen; try reflexivity.
  unfold atEnd. destruct (written c); reflexivity.
Qed.

(** X15: [WriteWithoutLock] leaves the stores of the other metrics as
    they were, so [Filter] returns for them what it returned before;
    and however the call ends, [Filter] on the point's metric is
    answered by that metric's store: it is no longer a miss. *)
Theorem filter_after_write {S T F R : Type}
  (mStoreFilter : mStore -> Z -> S -> F -> option R * option error)
  (md : memoryDatabase) (p : MetricPoint) (k : Z)
  (seriesIDs : S) (timeRange : T) (fields : F) :
  let md1 := fst (fst (WriteWithoutLock md p)) in
  (k <> MetricID p ->
   Get (mStores md1) k = Get (mStores md) k /\
   Filter mStoreFilter md1 k seriesIDs timeRange fields
   = Filter mStoreFilter md k seriesIDs timeRange fields) /\
  exists m1,
    Get (mStores md1) (MetricID p) = Some m1 /\
    Filter mStoreFilter md1 (MetricID p) seriesIDs timeRange fields
    = mStoreFilter m1 (familyTime md) seriesIDs fields.
Proof.
  pose proof (body_across p
    (fun c c1 (o : outcome) =>
       mStores (db c1) = mStores (db c) /\
       familyTime (db c1) = familyTime (db c))) as Hb.
  destruct (enter_frame md p) as (E1 & _ & _ & _ & _ & _ & _ & E8).
  specialize (Hb ltac:(simpl; intros; auto)
                 ltac:(simpl; intros; auto)).
  specialize (Hb ltac:(simpl; intros c c1 c2 o [? ?] [? ?]; split; congruence)).
  specialize (Hb ltac:(intros ty v c;
                       destruct (writeField_frame p ty v c)
                         as ((F1 & _ & F3) & _); auto) (enter md p)).
  unfold WriteWithoutLock.
  destruct (body p (enter md p)) as [c o]. simpl in Hb.
  rewrite E1, E8 in Hb. destruct Hb as [Hm Hf].
  assert (Hother : forall k', k' <> MetricID p ->
            Get (mStores (fst (getOrCreateMStore md (MetricID p)))) k'
            = Get (mStores md) k').
  { intros k' Hk'. apply getOrCreateMStore_other, Hk'. }
  assert (Hgen : forall c1,
            mStores (db c1) = mStores (db c) ->
            familyTime (db c1) = familyTime (db c) ->
            (k <> MetricID p ->
             Get (mStores (settle p c1)) k = Get (mStores md) k /\
             Filter mStoreFilter (settle p c1) k seriesIDs timeRange fields
             = Filter mStoreFilter md k seriesIDs timeRange fields) /\
            exists m1,
              Get (mStores (settle p c1)) (MetricID p) = Some m1 /\
              Filter mStoreFilter (settle p c1) (MetricID p) seriesIDs
                timeRange fields
              = mStoreFilter m1 (familyTime md) seriesIDs fields).
  { intros c1 Hc1 Hc2.
    assert (Hfam : familyTime (settle p c1) = familyTime md)
      by (unfold settle; simpl; congruence).
    split.
    - intros Hk.
      assert (Hg : Get (mStores (settle p c1)) k = Get (mStores md) k).
      { unfold settle. simpl. rewrite Get_Put_other by exact Hk.
        rewrite Hc1, Hm. apply Hother, Hk. }
      split; [exact Hg|]. unfold Filter. rewrite Hg, Hfam. reflexivity.
    - unfold Filter. rewrite Hfam. unfold settle. simpl. rewrite Get_Put.
      eexists. split; reflexivity. }
  destruct o; cbn [fst snd]; apply Hgen; try reflexivity.
Qed.

(** X16: [WriteWithoutLock] marks the point's slot in the metric store
    exactly when it returns nil after at least one field write; in
    every other case the marked slots are as they were. *)
Theorem slot_marked_when_written (md : memoryDatabase) (p : MetricPoint) :
  let md1 := fst (fst (WriteWithoutLock md p)) in
  let o := snd (fst (WriteWithoutLock md p)) in
  let made := snd (WriteWithoutLock md p) in
  let m0 := snd (getOrCreateMStore md (MetricID p)) in
  exists m1,
    Get (mStores md1) (MetricID p) = Some m1 /\
    slots m1
    = if isDone o && negb (Nat.eqb (length made) 0)
      then {[SlotIndex p]} ∪ slots m0 else slots m0.
Proof.
  pose proof (body_across p
    (fun c c1 (o : outcome) =>
       slots (theMStore c1) = slots (theMStore c) /\
       ((written c = true <-> calls c <> []) ->
        (written c1 = true <-> calls c1 <> [])))) as Hb.
  destruct (enter_frame md p) as (_ & E2 & _ & _ & E5 & _).
  destruct (enter_fresh p md) as (E0 & _).
  specialize (Hb ltac:(simpl; intros; auto)
                 ltac:(simpl; intros; auto)).
  specialize (Hb ltac:(simpl; intros c c1 c2 o [? ?] [? ?];
                       split; [congruence|auto])).
  assert (Hw : forall ty v c,
            slots (theMStore (fst (writeField p ty v c)))
            = slots (theMStore c) /\
            ((written c = true <-> calls c <> []) ->
             (written (fst (writeField p ty v c)) = true
              <-> calls (fst (writeField p ty v c)) <> []))).
  { intros ty v c.
    destruct (writeField_frame p ty v c) as (_ & (F & _) & _ & _ & G).
    split; [exact F|]. intros Hi.
    destruct (isDone (snd (writeField p ty v c))).
    - destruct G as (G1 & x & G2). rewrite G1, G2.
      split; [intros _|reflexivity]. destruct (calls c); discriminate.
    - destruct G as (G1 & G2). rewrite G1, G2. exact Hi. }
  specialize (Hb Hw (enter md p)). clear Hw.
  unfold WriteWithoutLock.
  destruct (body p (enter md p)) as [c o]. simpl in Hb.
  rewrite E2, E5, E0 in Hb. destruct Hb as [Hs Hi].
  assert (Hwr : written c = true <-> calls c <> []).
  { apply Hi. split; [discriminate|]. intros Hn. exfalso. apply Hn.
    reflexivity. }
  destruct o; cbn [fst snd isDone andb]; unfold settle, withMStores;
    cbn [mStores];
    rewrite Get_Put; (eexists; split; [reflexivity|]); cbn [slots putTStore].
  - unfold atEnd. cbn [calls theMStore].
    destruct (written c) eqn:Hwc.
    + destruct (calls c); [exfalso; apply (proj1 Hwr); reflexivity|].
      simpl. rewrite Hs. reflexivity.
    + destruct (calls c); [simpl; exact Hs|].
      assert (false = true) by (apply Hwr; discriminate). discriminate.
  - exact Hs.
  - exact Hs.
Qed.

(** X17: when [WriteWithoutLock] does not return nil, the sizes of the
    series store and of the field writes it made are not added to the
    allocated size: [MemSize] is what [getOrCreateMStore] left. *)
Theorem failed_write_is_not_accounted (md : memoryDatabase)
  (p : MetricPoint) :
  isDone (snd (fst (WriteWithoutLock md p))) = false ->
  MemSize (fst (fst (WriteWithoutLock md p)))
  = MemSize (fst (getOrCreateMStore md (MetricID p))).
Proof.
  pose proof (body_across p
    (fun c c1 (o : outcome) => allocSize (db c1) = allocSize (db c))) as Hb.
  destruct (enter_frame md p) as (E1 & _).
  specialize (Hb ltac:(simpl; intros; auto)
                 ltac:(simpl; intros; auto)).
  specialize (Hb ltac:(simpl; intros; congruence)).
  specialize (Hb ltac:(intros ty v c;
                       destruct (writeField_frame p ty v c)
                         as ((_ & F & _) & _); auto) (enter md p)).
  unfold WriteWithoutLock, MemSize.
  destruct (body p (enter md p)) as [c o]. simpl in Hb. rewrite E1 in Hb.
  destruct o; cbn [fst snd isDone]; intros Ho; [discriminate Ho|..];
    unfold settle; simpl; exact Hb.
Qed.

(** A run of writes with a page for each: the writes are made as far as
    there are field ids, and the run panics where the ids end. *)
Lemma runWrites_pages p ws : forall c,
  (fieldIDIdx c <= length (FieldIDs p))%nat ->
  (length ws <= pagesLeft (buf (db c)))%nat ->
  exists c1,
    runWrites p ws c
    = (c1, if (fieldIDIdx c + length ws <=? length (FieldIDs p))%nat
           then Done else Panicked) /\
    calls c1 = calls c ++ assign (SlotIndex p) (FieldIDs p) (fieldIDIdx c) ws.
Proof.
  induction ws as [|[ty v] ws IH]; intros c Hidx Hpages.
  - exists c. rewrite assign_nil, app_nil_r. simpl. rewrite Nat.add_0_r.
    destruct (Nat.leb_spec (fieldIDIdx c) (length (FieldIDs p))); [auto|lia].
  - simpl in Hpages. simpl.
    destruct (writeField_cases p ty v c)
      as [[Hn E]|[(id & c1 & Hn & E & H1 & H2 & H3 & _)
                 |(id & c1 & _ & _ & _ & _ & H0)]].
    + rewrite E. exists c. apply nth_error_None in Hn.
      destruct (Nat.leb_spec (fieldIDIdx c + S (length ws))
                  (length (FieldIDs p))); [lia|].
      split; [reflexivity|]. unfold assign.
      rewrite skipn_all2 by lia. simpl. rewrite app_nil_r. reflexivity.
    + rewrite E.
      assert (fieldIDIdx c < length (FieldIDs p))%nat
        by (apply nth_error_Some; congruence).
      destruct (IH c1) as (c2 & E2 & I1); [lia..|].
      exists c2. rewrite E2, H2. split.
      * f_equal. replace (S (fieldIDIdx c) + length ws)%nat
          with (fieldIDIdx c + S (length ws))%nat by lia. reflexivity.
      * rewrite I1, H1, H2, (assign_cons _ _ _ id) by exact Hn.
        rewrite <- app_assoc. reflexivity.
    + lia.
Qed.

(** X18: when the buffer has a page for every field write of the point
    and [Values] has an entry for every explicit bound,
    [WriteWithoutLock] makes the writes the point calls for (its sum and
    gauge fields, then min and max when above zero, sum, count and the
    bucket values), in order, as far as [FieldIDs] has ids, one id per
    write made; it returns nil when there is an id for every write and
    panics otherwise. *)
Theorem write_follows_the_plan (md : memoryDatabase) (p : MetricPoint)
  (m : protoMetricsV1.Metric) :
  Proto p = Some m ->
  match protoMetricsV1.Compound m with
  | Some cf => (length (protoMetricsV1.ExplicitBounds cf)
                <= length (protoMetricsV1.Values cf))%nat
  | None => True
  end ->
  (length (pointWrites m) <= pagesLeft (buf md))%nat ->
  snd (WriteWithoutLock md p)
  = assign (SlotIndex p) (FieldIDs p) 0 (pointWrites m) /\
  snd (fst (WriteWithoutLock md p))
  = if (length (pointWrites m) <=? length (FieldIDs p))%nat
    then Done else Panicked.
Proof.
  intros Hm Hvals Hpages.
  destruct (enter_fresh p md) as (Hc0 & Hi0 & Hb0).
  destruct (runWrites_pages p (pointWrites m) (enter md p))
    as (c1 & E & Hc1); [rewrite Hi0; lia|rewrite Hb0; exact Hpages|].
  unfold WriteWithoutLock. rewrite (body_run p m) by auto.
  rewrite E, Hi0. simpl Nat.add. rewrite Hi0, Hc0 in Hc1. simpl in Hc1.
  destruct (length (pointWrites m) <=? length (FieldIDs p))%nat;
    simpl; auto.
Qed.

(** The loop over the explicit bounds when [Values] is too short: one
    histogram write per value, then the panic on the index. *)
Lemma buckets_short p cf n : forall i c,
  (length (protoMetricsV1.Values cf) < i + n)%nat ->
  (i <= length (protoMetricsV1.Values cf))%nat ->
  forEach (List.seq i n) (writeBucket p cf) c
  = seq (runWrites p
           (map (fun v => (field.HistogramField, v))
              (skipn i (protoMetricsV1.Values cf))))
      (fun c1 => (c1, Panicked)) c.
Proof.
  induction n as [|n IH]; intros i c Hlt Hle; [lia|].
  cbn [List.seq forEach]. unfold seq at 1. unfold writeBucket at 1.
  destruct (nth_error (protoMetricsV1.Values cf) i) as [v|] eqn:Hv.
  - rewrite (skipn_nth_error _ _ _ Hv). unfold seq at 1.
    cbn [map runWrites].
    assert (i < length (protoMetricsV1.Values cf))%nat
      by (apply nth_error_Some; congruence).
    destruct (nth_error (FieldIDs p) (fieldIDIdx c)) as [id|] eqn:Hid.
    + destruct (writeField p field.HistogramField v c) as [c1 [|e|]];
        [|reflexivity..].
      rewrite IH by lia. reflexivity.
    + unfold writeField. rewrite Hid. reflexivity.
  - apply nth_error_None in Hv. rewrite skipn_all2 by lia.
    unfold seq. simpl.
    destruct (nth_error (FieldIDs p) (fieldIDIdx c)); reflexivity.
Qed.

Lemma body_short p m cf c :
  Proto p = Some m -> protoMetricsV1.Compound m = Some cf ->
  (length (protoMetricsV1.Values cf)
   < length (protoMetricsV1.ExplicitBounds cf))%nat ->
  body p c
  = seq (runWrites p (pointWrites m)) (fun c1 => (c1, Panicked)) c.
Proof.
  intros Hm Hcf Hshort. unfold body, pointWrites. rewrite Hm, Hcf.
  unfold seq at 1 2. rewrite runWrites_app. unfold seq at 1.
  rewrite simple_fields_run.
  destruct (runWrites p (simpleWrites _) c) as [c1 [|e|]]; try reflexivity.
  unfold writeCompound, compoundWrites.
  rewrite firstn_all2 by lia.
  assert (Hbk : forall c0,
            forEach (List.seq 0 (length (protoMetricsV1.ExplicitBounds cf)))
              (writeBucket p cf) c0
            = seq (runWrites p
                     (map (fun v => (field.HistogramField, v))
                        (protoMetricsV1.Values cf)))
                (fun c2 => (c2, Panicked)) c0).
  { intros c0.
    apply (buckets_short p cf (length (protoMetricsV1.ExplicitBounds cf)) 0);
      simpl; lia. }
  set (bk := forEach _ (writeBucket p cf)) in *.
  set (ws := map _ (protoMetricsV1.Values cf)) in *.
  clearbody bk ws. unfold seq, when, skip in *.
  destruct (gt0 (protoMetricsV1.Min cf)), (gt0 (protoMetricsV1.Max cf));
    cbn [app runWrites] in *;
    repeat
      match goal with
      | |- context [writeField p ?ty ?v ?c0] =>
          destruct (writeField p ty v c0) as [? [| |]]; try reflexivity
      end;
    apply Hbk.
Qed.

(** X19: when [Values] has fewer entries than [ExplicitBounds] and the
    buffer has a page for every write, [WriteWithoutLock] makes the
    writes before the buckets and one bucket write per value, as far as
    [FieldIDs] has ids, and then panics. *)
Theorem short_values_panic (md : memoryDatabase) (p : MetricPoint)
  (m : protoMetricsV1.Metric) (cf : protoMetricsV1.CompoundField) :
  Proto p = Some m -> protoMetricsV1.Compound m = Some cf ->
  (length (protoMetricsV1.Values cf)
   < length (protoMetricsV1.ExplicitBounds cf))%nat ->
  (length (pointWrites m) <= pagesLeft (buf md))%nat ->
  snd (fst (WriteWithoutLock md p)) = Panicked /\
  snd (WriteWithoutLock md p)
  = assign (SlotIndex p) (FieldIDs p) 0 (pointWrites m).
Proof.
  intros Hm Hcf Hshort Hpages.
  destruct (enter_fresh p md) as (Hc0 & Hi0 & Hb0).
  destruct (runWrites_pages p (pointWrites m) (enter md p))
    as (c1 & E & Hc1); [rewrite Hi0; lia|rewrite Hb0; exact Hpages|].
  rewrite Hi0, Hc0 in Hc1. simpl in Hc1.
  unfold WriteWithoutLock. rewrite (body_short p m cf) by assumption.
  unfold seq. rewrite E.
  destruct (_ <=? _)%nat; simpl; auto.
Qed.

(** A field write keeps the field stores there are, and one on a field
    that has a store takes no page and does not fail. *)
Lemma writeField_stores p ty v c id' :
  is_Some (GetFStore (theTStore c) id') ->
  is_Some (GetFStore (theTStore (fst (writeField p ty v c))) id').
Proof.
  intros Hid'. unfold writeField.
  destruct (nth_error (FieldIDs p) (fieldIDIdx c)) as [id|]; [|exact Hid'].
  unfold writeLinField, writeToFStore, fStoreWrite, InsertFStore, AllocPage,
    putFStore.
  assert (Hins : forall (g : gmap Z fieldStore) (f : fieldStore),
            is_Some (g !! id') -> is_Some (<[id := f]> g !! id')).
  { intros g f Hg. destruct (decide (id = id')) as [->|Hne].
    - rewrite lookup_insert_eq. eauto.
    - rewrite lookup_insert_ne by exact Hne. exact Hg. }
  unfold GetFStore in *.
  destruct (fStores (theTStore c) !! id) as [f|]; simpl.
  - apply Hins, Hid'.
  - destruct (pagesLeft (buf (db c))); simpl; [exact Hid'|].
    apply Hins, Hins, Hid'.
Qed.

Lemma writeField_existing p ty v c id f :
  nth_error (FieldIDs p) (fieldIDIdx c) = Some id ->
  GetFStore (theTStore c) id = Some f ->
  exists c1,
    writeField p ty v c = (c1, Done) /\
    calls c1 = calls c ++
      [{| fwField := id; fwType := ty; fwSlot := SlotIndex p;
          fwValue := v |}] /\
    fieldIDIdx c1 = S (fieldIDIdx c) /\
    buf (db c1) = buf (db c) /\ metrics (db c1) = metrics (db c).
Proof.
  intros Hid Hf. unfold writeField, writeLinField. rewrite Hid, Hf.
  unfold writeToFStore, fStoreWrite. simpl. eexists. split; [reflexivity|].
  simpl. auto.
Qed.

(** A run of writes that ends normally had a field id for each write,
    and every field it wrote has a store afterwards. *)
Lemma runWrites_done_stores p ws : forall c c1,
  (fieldIDIdx c <= length (FieldIDs p))%nat ->
  runWrites p ws c = (c1, Done) ->
  (fieldIDIdx c + length ws <= length (FieldIDs p))%nat /\
  calls c1 = calls c ++ assign (SlotIndex p) (FieldIDs p) (fieldIDIdx c) ws /\
  (forall id, is_Some (GetFStore (theTStore c) id) ->
              is_Some (GetFStore (theTStore c1) id)) /\
  (forall i id, (i < length ws)%nat ->
     nth_error (FieldIDs p) (fieldIDIdx c + i) = Some id ->
     is_Some (GetFStore (theTStore c1) id)).
Proof.
  induction ws as [|[ty v] ws IH]; intros c c1 Hidx Hrun.
  - injection Hrun as <-. rewrite assign_nil, app_nil_r. simpl.
    split; [lia|]. split; [reflexivity|]. split; [auto|]. intros; lia.
  - simpl in Hrun.
    pose proof (fun id' => writeField_stores p ty v c id') as Hkeep.
    destruct (writeField_cases p ty v c)
      as [[_ E]|[(id & c2 & Hn & E & H1 & H2 & _ & H4 & _)
                |(id & c2 & _ & E & _)]];
      rewrite E in Hrun, Hkeep; try discriminate Hrun.
    simpl in Hkeep.
    assert (fieldIDIdx c < length (FieldIDs p))%nat
      by (apply nth_error_Some; congruence).
    destruct (IH c2 c1 ltac:(lia) Hrun) as (I1 & I2 & I3 & I4).
    rewrite H2 in I1, I2, I4.
    split; [simpl; lia|]. split.
    { rewrite I2, H1, (assign_cons _ _ _ id) by exact Hn.
      rewrite <- app_assoc. reflexivity. }
    split; [auto|].
    intros i id0 Hi Hid0. destruct i as [|i].
    + rewrite Nat.add_0_r, Hn in Hid0. injection Hid0 as <-.
      apply I3. destruct H4 as (f & Hf & _). simpl in Hf. eauto.
    + apply (I4 i); [simpl in Hi; lia|].
      rewrite <- Hid0. f_equal. lia.
Qed.

(** A run of writes on fields that all have a store ends normally and
    takes no page. *)
Lemma runWrites_existing p ws : forall c,
  (forall i, (i < length ws)%nat ->
     exists id, nth_error (FieldIDs p) (fieldIDIdx c + i) = Some id /\
                is_Some (GetFStore (theTStore c) id)) ->
  exists c1,
    runWrites p ws c = (c1, Done) /\
    calls c1 = calls c ++ assign (SlotIndex p) (FieldIDs p) (fieldIDIdx c) ws /\
    buf (db c1) = buf (db c) /\ metrics (db c1) = metrics (db c).
Proof.
  induction ws as [|[ty v] ws IH]; intros c Hall.
  - exists c. rewrite assign_nil, app_nil_r. auto.
  - destruct (Hall 0%nat ltac:(simpl; lia)) as (id & Hid & [f Hf]).
    rewrite Nat.add_0_r in Hid.
    destruct (writeField_existing p ty v c id f Hid Hf)
      as (c1 & E & H1 & H2 & H3 & H4).
    simpl. rewrite E.
    destruct (IH c1) as (c2 & E2 & I1 & I2 & I3).
    { intros i Hi. destruct (Hall (S i) ltac:(simpl; lia)) as (id' & Hid' & Hs).
      exists id'. split.
      - rewrite H2, <- Hid'. f_equal. lia.
      - pose proof (writeField_stores p ty v c id' Hs) as Hk.
        rewrite E in Hk. exact Hk. }
    exists c2. split; [exact E2|].
    rewrite I1, H1, H2, (assign_cons _ _ _ id) by exact Hid.
    rewrite <- app_assoc. split; [reflexivity|]. split; congruence.
Qed.

(** X20: once [WriteWithoutLock] has returned nil for a point, every
    field of the point has its store: the same point written again
    makes the same field writes and returns nil whatever is left in the
    page buffer, from which it takes nothing. *)
Theorem rewrite_needs_no_page (md md1 : memoryDatabase) (p : MetricPoint)
  (made : list fieldWrite) (bf : DataPointBuffer) (ms : memoryDBMetrics) :
  WriteWithoutLock md p = (md1, Done, made) ->
  snd (fst (WriteWithoutLock (withBuf md1 bf ms) p)) = Done /\
  snd (WriteWithoutLock (withBuf md1 bf ms) p) = made /\
  buf (fst (fst (WriteWithoutLock (withBuf md1 bf ms) p))) = bf /\
  metrics (fst (fst (WriteWithoutLock (withBuf md1 bf ms) p))) = ms.
Proof.
  unfold WriteWithoutLock at 1. intros Hw.
  destruct (body p (enter md p)) as [c o] eqn:Hbody.
  destruct o; try discriminate Hw. injection Hw as <- <-.
  destruct (Proto p) as [m|] eqn:Hm;
    [|unfold body in Hbody; rewrite Hm in Hbody; discriminate Hbody].
  assert (Hvals : match protoMetricsV1.Compound m with
                  | Some cf => (length (protoMetricsV1.ExplicitBounds cf)
                                <= length (protoMetricsV1.Values cf))%nat
                  | None => True
                  end).
  { destruct (protoMetricsV1.Compound m) as [cf|] eqn:Hcf; [|exact I].
    destruct (Nat.le_gt_cases (length (protoMetricsV1.ExplicitBounds cf))
                (length (protoMetricsV1.Values cf))) as [|Hshort]; [assumption|].
    rewrite (body_short p m cf) in Hbody by assumption.
    unfold seq in Hbody.
    destruct (runWrites p (pointWrites m) (enter md p)) as [c0 [|e|]];
      discriminate Hbody. }
  rewrite (body_run p m) in Hbody by auto.
  destruct (enter_fresh p md) as (Hc0 & Hi0 & _).
  destruct (runWrites_done_stores p _ _ _ ltac:(rewrite Hi0; lia) Hbody)
    as (Hlen & Hcalls & _ & Hstores).
  rewrite Hi0, Hc0 in *. simpl in Hcalls, Hlen, Hstores.
  set (md2 := withBuf (settle p (atEnd p c)) bf ms).
  assert (Henter : enter md2 p
            = {| db := md2;
                 theMStore := putTStore (theMStore (atEnd p c)) (SeriesID p)
                                (theTStore c);
                 theTStore := theTStore c;
                 fieldIDIdx := 0; size := 0; written := false; calls := [] |}).
  { unfold enter, getOrCreateMStore, md2, settle, withBuf, withMStores.
    simpl. rewrite Get_Put. unfold GetOrCreateTStore, putTStore. simpl.
    rewrite lookup_insert_eq. reflexivity. }
  destruct (runWrites_existing p (pointWrites m) (enter md2 p))
    as (c2 & E2 & G1 & G2 & G3).
  { rewrite Henter. simpl. intros i Hi.
    destruct (nth_error (FieldIDs p) i) as [id|] eqn:Hid;
      [|apply nth_error_None in Hid; lia].
    exists id. split; [reflexivity|]. apply (Hstores i id Hi Hid). }
  rewrite Henter in G1, G2, G3. simpl in G1, G2, G3.
  unfold WriteWithoutLock. rewrite (body_run p m) by auto.
  rewrite E2. simpl. rewrite G1, G2, G3, Hcalls. auto.
Qed.

Lemma hasField_AddField m id ty id' :
  hasField (AddField m id ty) id' = hasField m id' || (id =? id').
Proof.
  unfold AddField. destruct (hasField m id) eqn:Hm.
  - destruct (Z.eqb_spec id id') as [<-|]; [rewrite Hm|];
      rewrite ?orb_true_r, ?orb_false_r; reflexivity.
  - unfold hasField. simpl. rewrite existsb_app. simpl.
    rewrite orb_false_r. reflexivity.
Qed.

(** X21: however [WriteWithoutLock] ends, the field list of each metric
    store still names every field that has a store in one of its
    series: a field store is never left unknown to its metric. *)
Theorem fields_stay_known (md : memoryDatabase) (p : MetricPoint) :
  dbKnowsFields md ->
  dbKnowsFields (fst (fst (WriteWithoutLock md p))).
Proof.
  intros Hdb.
  pose (J := fun c : writeCtx =>
               forall id f, fStores (theTStore c) !! id = Some f ->
                            hasField (theMStore c) id = true).
  pose proof (body_across p
    (fun c c1 (o : outcome) =>
       (forall id, hasField (theMStore c) id = true ->
                   hasField (theMStore c1) id = true) /\
       (J c -> J c1) /\
       tStores (theMStore c1) = tStores (theMStore c) /\
       mStores (db c1) = mStores (db c))) as Hb.
  specialize (Hb ltac:(simpl; intros; auto) ltac:(simpl; intros; auto)).
  specialize (Hb ltac:(simpl; intros c c1 c2 o (? & ? & ? & ?) (? & ? & ? & ?);
                       repeat split; [auto|auto|congruence|congruence])).
  assert (Hw : forall ty v c,
            (forall id, hasField (theMStore c) id = true ->
               hasField (theMStore (fst (writeField p ty v c))) id = true) /\
            (J c -> J (fst (writeField p ty v c))) /\
            tStores (theMStore (fst (writeField p ty v c)))
            = tStores (theMStore c) /\
            mStores (db (fst (writeField p ty v c))) = mStores (db c)).
  { intros ty v c.
    destruct (writeField_frame p ty v c) as ((F1 & _) & (_ & F2) & _).
    split; [|split; [|split; [exact F2|exact F1]]]; clear F1 F2;
      unfold J, writeField;
      (destruct (nth_error (FieldIDs p) (fieldIDIdx c)) as [id0|]; [|auto]);
      unfold writeLinField, writeToFStore, fStoreWrite, InsertFStore,
        AllocPage, putFStore, GetFStore;
      destruct (fStores (theTStore c) !! id0) as [f0|] eqn:Hf0; simpl.
    - auto.
    - destruct (pagesLeft (buf (db c))); simpl; [auto|].
      intros id Hid. rewrite hasField_AddField, Hid. reflexivity.
    - intros Hj id f Hl.
      destruct (decide (id0 = id)) as [<-|Hne]; [eauto|].
      rewrite lookup_insert_ne in Hl by exact Hne. eauto.
    - destruct (pagesLeft (buf (db c))); simpl; [auto|].
      intros Hj id f Hl. rewrite hasField_AddField.
      destruct (decide (id0 = id)) as [<-|Hne];
        [rewrite Z.eqb_refl; apply orb_true_r|].
      rewrite !lookup_insert_ne in Hl by exact Hne.
      rewrite (Hj id f Hl). reflexivity. }
  specialize (Hb Hw (enter md p)). clear Hw.
  assert (Hm0 : knowsFields (snd (getOrCreateMStore md (MetricID p)))).
  { unfold getOrCreateMStore.
    destruct (Get (mStores md) (MetricID p)) as [m0|] eqn:Hget; simpl.
    - apply (Hdb _ _ Hget).
    - intros sid t id f Ht. discriminate Ht. }
  destruct (enter_frame md p) as (E1 & E2 & E3 & _).
  assert (Hj0 : J (enter md p)).
  { unfold J. rewrite E2, E3. unfold GetOrCreateTStore.
    destruct (tStores _ !! SeriesID p) as [t|] eqn:Ht; simpl.
    - intros id f Hl. apply (Hm0 _ _ _ _ Ht Hl).
    - intros id f Hl. discriminate Hl. }
  unfold WriteWithoutLock.
  destruct (body p (enter md p)) as [c o]. simpl in Hb.
  destruct Hb as (Hmono & Hj & Hts & Hms). specialize (Hj Hj0).
  rewrite E2 in Hmono, Hts. rewrite E1 in Hms.
  assert (Hgen : forall c1,
            theTStore c1 = theTStore c ->
            tStores (theMStore c1) = tStores (theMStore c) ->
            (forall id, hasField (theMStore c1) id
                        = hasField (theMStore c) id) ->
            mStores (db c1) = mStores (db c) ->
            dbKnowsFields (settle p c1)).
  { intros c1 Ht Hts1 Hh Hms1 k m Hk.
    unfold settle, withMStores in Hk. simpl in Hk.
    destruct (Z.eq_dec k (MetricID p)) as [->|Hne].
    - rewrite Get_Put in Hk. injection Hk as <-.
      intros sid t id f Hsid Hl.
      change (hasField (putTStore (theMStore c1) (SeriesID p) (theTStore c1))
                id)
        with (hasField (theMStore c1) id).
      rewrite Hh. simpl in Hsid.
      destruct (Z.eq_dec sid (SeriesID p)) as [->|Hs].
      + rewrite lookup_insert_eq in Hsid.
        injection Hsid as <-. rewrite Ht in Hl. apply (Hj id f Hl).
      + rewrite lookup_insert_ne in Hsid by congruence.
        rewrite Hts1, Hts in Hsid. apply Hmono.
        apply (Hm0 _ _ _ _ Hsid Hl).
    - rewrite Get_Put_other in Hk by exact Hne.
      rewrite Hms1, Hms, getOrCreateMStore_other in Hk by exact Hne.
      apply (Hdb _ _ Hk). }
  destruct o; cbn [fst snd]; apply Hgen; try reflexivity;
    unfold atEnd; destruct (written c); reflexivity.
Qed.

End DatabaseExtras.

Section DatabaseExtrasExamples.

Import memdb.

Lemma failed_write_is_not_accounted_witness :
  MemSize (fst (fst (WriteWithoutLock (H := unitSizes) (emptyDatabase 3)
                       histogramPoint)))
  = MemSize (fst (getOrCreateMStore (H := unitSizes) (emptyDatabase 3)
                    (MetricID histogramPoint))).
Proof.
  apply (failed_write_is_not_accounted (H := unitSizes) (emptyDatabase 3)
           histogramPoint).
  vm_compute. reflexivity.
Defined.

Lemma write_follows_the_plan_witness :
  snd (WriteWithoutLock (H := unitSizes) (emptyDatabase 6)
         histogramPointTwoIDs)
  = assign (SlotIndex histogramPointTwoIDs) (FieldIDs histogramPointTwoIDs) 0
      (pointWrites
         {| protoMetricsV1.SimpleFields := [];
            protoMetricsV1.Compound :=
              Some {| protoMetricsV1.Min := 1; protoMetricsV1.Max := 9;
                      protoMetricsV1.Sum := 20; protoMetricsV1.Count := 4;
                      protoMetricsV1.Values := [2; 2]%float;
                      protoMetricsV1.ExplicitBounds := [1; 5]%float |} |}) /\
  snd (fst (WriteWithoutLock (H := unitSizes) (emptyDatabase 6)
              histogramPointTwoIDs))
  = Panicked.
Proof.
  refine (write_follows_the_plan (H := unitSizes) (emptyDatabase 6)
            histogramPointTwoIDs _ eq_refl _ _); simpl; lia.
Defined.

Lemma short_values_panic_witness :
  let p := {| MetricID := 1; SeriesID := 7; SlotIndex := 10;
              FieldIDs := [1; 2; 3; 4; 5; 6];
              Proto :=
                Some {| protoMetricsV1.SimpleFields := [];
                        protoMetricsV1.Compound :=
                          Some {| protoMetricsV1.Min := 1;
                                  protoMetricsV1.Max := 9;
                                  protoMetricsV1.Sum := 20;
                                  protoMetricsV1.Count := 4;
                                  protoMetricsV1.Values := [2]%float;
                                  protoMetricsV1.ExplicitBounds :=
                                    [1; 5]%float |} |} |} in
  snd (fst (WriteWithoutLock (H := unitSizes) (emptyDatabase 6) p))
  = Panicked /\
  length (snd (WriteWithoutLock (H := unitSizes) (emptyDatabase 6) p))
  = 5%nat.
Proof.
  intros p.
  destruct (short_values_panic (H := unitSizes) (emptyDatabase 6) p
              _ _ eq_refl eq_refl ltac:(simpl; lia) ltac:(simpl; lia))
    as [E1 E2].
  split; [exact E1|]. rewrite E2. reflexivity.
Defined.

Lemma rewrite_needs_no_page_witness :
  let r := WriteWithoutLock (H := unitSizes) (emptyDatabase 6) histogramPoint in
  let bf := {| pagesLeft := 0; pagesUsed := 6 |} in
  let ms := {| allocatedPages := 6; allocatedPageFailures := 0 |} in
  snd (fst (WriteWithoutLock (H := unitSizes)
              (withBuf (fst (fst r)) bf ms) histogramPoint)) = Done /\
  snd (WriteWithoutLock (H := unitSizes)
         (withBuf (fst (fst r)) bf ms) histogramPoint) = snd r /\
  buf (fst (fst (WriteWithoutLock (H := unitSizes)
                   (withBuf (fst (fst r)) bf ms) histogramPoint))) = bf /\
  metrics (fst (fst (WriteWithoutLock (H := unitSizes)
                       (withBuf (fst (fst r)) bf ms) histogramPoint))) = ms.
Proof.
  intros r bf ms.
  apply (rewrite_needs_no_page (H := unitSizes) (emptyDatabase 6)
           (fst (fst r)) histogramPoint (snd r) bf ms).
  vm_compute. reflexivity.
Defined.

Lemma fields_stay_known_witness :
  dbKnowsFields (fst (fst (WriteWithoutLock (H := unitSizes) (emptyDatabase 3)
                             histogramPoint))).
Proof.
  apply (fields_stay_known (H := unitSizes) (emptyDatabase 3) histogramPoint).
  intros k m Hk. discriminate Hk.
Defined.

End DatabaseExtrasExamples.
